(** * Multimodal-Insight-Observer: turn routing, tool loop and record tools

    A shallow embedding of the chat front end's routing decision
    (Chat.js, [handleSend]), of the provider tool-call loops and the tool
    schema adapter (services/gemini.js), of the structured-record tools
    (services/jsonTools.js) and of the bulk CSV transport encoding
    (Chat.js, [parseCSV] and [toBase64]).

    Conventions of the embedding.
    - A JavaScript string is the list of its UTF-16 code units.
    - A JavaScript number is an exact rational; NaN is the missing value
      of an [option].  IEEE-754 rounding, overflow and the infinities are
      outside the model.
    - A JavaScript exception is the [Throw] outcome of the [outcome] monad.
    - Built-ins whose result depends on the host (Date parsing, locale
      formatting, number printing, JSON.parse, the provider) are Section
      variables. *)

From Stdlib Require Import String Ascii DecimalString.
From Stdlib Require Import Bool Arith NArith ZArith QArith Qround Qabs.
From Stdlib Require Import List Lia Lqa Permutation Sorted.
From Equations Require Import Equations.
Import ListNotations.
Local Open Scope list_scope.
Set Warnings "-register-all".

(* ===================================================================== *)
(** ** JavaScript strings *)
(* ===================================================================== *)

Module JsString.

Definition jschar := N.
Definition jsstring := list jschar.

(** An ASCII literal as a JavaScript string. *)
Definition js (s : string) : jsstring :=
  map N_of_ascii (list_ascii_of_string s).

Fixpoint jseqb (a b : jsstring) : bool :=
  match a, b with
  | [], [] => true
  | x :: a', y :: b' => N.eqb x y && jseqb a' b'
  | _, _ => false
  end.

Definition in_range (lo hi c : N) : bool := N.leb lo c && N.leb c hi.

(** WhiteSpace and LineTerminator code units: what [trim] strips and what
    the class \s matches. *)
Definition is_ws (c : jschar) : bool :=
  in_range 9 13 c || N.eqb c 32 || N.eqb c 160 || N.eqb c 5760
  || in_range 8192 8202 c || N.eqb c 8232 || N.eqb c 8233
  || N.eqb c 8239 || N.eqb c 8287 || N.eqb c 12288 || N.eqb c 65279.

Definition is_line_terminator (c : jschar) : bool :=
  N.eqb c 10 || N.eqb c 13 || N.eqb c 8232 || N.eqb c 8233.

Definition is_digit (c : jschar) : bool := in_range 48 57 c.

(** The class \w: [A-Za-z0-9_]. *)
Definition is_word (c : jschar) : bool :=
  in_range 65 90 c || in_range 97 122 c || is_digit c || N.eqb c 95.

(** Case mapping on the ASCII letters; other code units are left as they
    are. *)
Definition lower_char (c : jschar) : jschar :=
  if in_range 65 90 c then (c + 32)%N else c.

Definition upper_char (c : jschar) : jschar :=
  if in_range 97 122 c then (c - 32)%N else c.

(** An ASCII letter, of either case. *)
Definition letter (c : jschar) : Prop := in_range 65 90 (upper_char c) = true.

Definition toLowerCase (s : jsstring) : jsstring := map lower_char s.

Fixpoint dropWhile {A} (p : A -> bool) (l : list A) : list A :=
  match l with
  | [] => []
  | x :: r => if p x then dropWhile p r else l
  end.

Definition trimStart (s : jsstring) : jsstring := dropWhile is_ws s.
Definition trim (s : jsstring) : jsstring :=
  rev' (trimStart (rev' (trimStart s))).

Fixpoint startsWith (s p : jsstring) : bool :=
  match p, s with
  | [], _ => true
  | y :: p', x :: s' => N.eqb x y && startsWith s' p'
  | _ :: _, [] => false
  end.

(** [s.includes(sub)] *)
Fixpoint includes (s sub : jsstring) : bool :=
  startsWith s sub ||
  match s with
  | [] => false
  | _ :: r => includes r sub
  end.

(** [s.split(sep)] for a one-character separator. *)
Fixpoint split (sep : jschar) (s : jsstring) : list jsstring :=
  match s with
  | [] => [[]]
  | c :: r =>
      if N.eqb c sep then [] :: split sep r
      else match split sep r with
           | h :: t => (c :: h) :: t
           | [] => [[c]]
           end
  end.

(** [parts.join(sep)] *)
Fixpoint join (sep : jsstring) (parts : list jsstring) : jsstring :=
  match parts with
  | [] => []
  | [p] => p
  | p :: rest => p ++ sep ++ join sep rest
  end.

(** [s.slice(0, n)] for [0 <= n]. *)
Definition slice0 (n : nat) (s : jsstring) : jsstring := firstn n s.

(** A text between double quotes. *)
Definition quoted (s : jsstring) : jsstring := 34%N :: s ++ [34%N].

(** Truthiness of a string: the empty string is falsy. *)
Definition truthy_str (s : jsstring) : bool :=
  match s with [] => false | _ => true end.

End JsString.
Import JsString.

(* ===================================================================== *)
(** ** Regular expressions *)
(* ===================================================================== *)

(** The fragment of ECMAScript regular expressions the sources use, with
    backtracking semantics: [rmatch] lists the states a pattern can end in
    from a given state, in the order the backtracking matcher tries
    them. *)

Module Regex.

Inductive re : Type :=
| Eps
| Chr (c : jschar)                 (* a literal character *)
| AnyChar                          (* .  *)
| Cls (p : jschar -> bool)         (* \d, \s, [...] *)
| Seq (r1 r2 : re)
| Alt (r1 r2 : re)                 (* r1|r2 *)
| Opt (r : re)                     (* r? , greedy *)
| PlusCls (p : jschar -> bool)     (* [...]+ , greedy *)
| Grp (n : nat) (r : re)           (* capture group number n *)
| Bol                              (* ^ *)
| Eol                              (* $ *)
| WordB.                           (* \b *)

(** Matcher state: the text already passed (reversed, so its head is the
    previous character), the text ahead, and the captures made. *)
Record mstate : Type := MState {
  before : jsstring;
  after : jsstring;
  caps : list (nat * jsstring)
}.

Definition advance (st : mstate) (x : jschar) (rest : jsstring) : mstate :=
  MState (x :: before st) rest (caps st).

(** With the flag i both sides are canonicalised (upper-cased). *)
Definition char_eq (ci : bool) (a b : jschar) : bool :=
  if ci then N.eqb (upper_char a) (upper_char b) else N.eqb a b.

Definition one (st : mstate) (p : jschar -> bool) : list mstate :=
  match after st with
  | x :: rest => if p x then [advance st x rest] else []
  | [] => []
  end.

Fixpoint plus_cls (p : jschar -> bool) (bef aft : jsstring)
  (cs : list (nat * jsstring)) : list mstate :=
  match aft with
  | x :: rest =>
      if p x then plus_cls p (x :: bef) rest cs ++ [MState (x :: bef) rest cs]
      else []
  | [] => []
  end.

Definition is_word_opt (o : option jschar) : bool :=
  match o with Some c => is_word c | None => false end.

Definition at_word_boundary (st : mstate) : bool :=
  xorb (is_word_opt (hd_error (before st))) (is_word_opt (hd_error (after st))).

(** The text consumed between two states of one run. *)
Definition consumed (st st' : mstate) : jsstring :=
  firstn (length (after st) - length (after st')) (after st).

Fixpoint rmatch (ci : bool) (r : re) (st : mstate) : list mstate :=
  match r with
  | Eps => [st]
  | Chr c => one st (fun x => char_eq ci x c)
  | AnyChar => one st (fun x => negb (is_line_terminator x))
  | Cls p => one st p
  | Seq r1 r2 => flat_map (rmatch ci r2) (rmatch ci r1 st)
  | Alt r1 r2 => rmatch ci r1 st ++ rmatch ci r2 st
  | Opt r1 => rmatch ci r1 st ++ [st]
  | PlusCls p => plus_cls p (before st) (after st) (caps st)
  | Grp n r1 =>
      map (fun st' => MState (before st') (after st')
                        ((n, consumed st st') :: caps st'))
          (rmatch ci r1 st)
  | Bol => match before st with [] => [st] | _ => [] end
  | Eol => match after st with [] => [st] | _ => [] end
  | WordB => if at_word_boundary st then [st] else []
  end.

(** The leftmost match: the first start position with a match, and there
    the first end state in backtracking order. *)
Fixpoint search (ci : bool) (r : re) (bef aft : jsstring)
  : option (mstate * mstate) :=
  let st := MState bef aft [] in
  match rmatch ci r st with
  | m :: _ => Some (st, m)
  | [] =>
      match aft with
      | x :: rest => search ci r (x :: bef) rest
      | [] => None
      end
  end.

(** [re.exec(s)] / [s.match(re)] without the flag g. *)
Definition exec (ci : bool) (r : re) (s : jsstring) : option (mstate * mstate) :=
  search ci r [] s.

(** [re.test(s)] *)
Definition test (ci : bool) (r : re) (s : jsstring) : bool :=
  match exec ci r s with Some _ => true | None => false end.

(** [m[0]], the matched text. *)
Definition whole (m : mstate * mstate) : jsstring :=
  consumed (fst m) (snd m).

(** [m[n]], [None] when the group took no part in the match. *)
Fixpoint lookup_cap (n : nat) (cs : list (nat * jsstring)) : option jsstring :=
  match cs with
  | [] => None
  | (k, v) :: r => if Nat.eqb k n then Some v else lookup_cap n r
  end.

Definition group (n : nat) (m : mstate * mstate) : option jsstring :=
  lookup_cap n (caps (snd m)).

(** [s.replace(re, repl)] with the flag g, for patterns that do not match
    the empty string. *)
Fixpoint replace_from (fuel : nat) (ci : bool) (r : re) (repl : jsstring)
  (bef aft : jsstring) : jsstring :=
  match fuel with
  | O => aft
  | S fuel' =>
      match rmatch ci r (MState bef aft []) with
      | m :: _ =>
          if Nat.ltb (length (after m)) (length aft)
          then repl ++ replace_from fuel' ci r repl (before m) (after m)
          else match aft with
               | x :: rest => x :: replace_from fuel' ci r repl (x :: bef) rest
               | [] => []
               end
      | [] =>
          match aft with
          | x :: rest => x :: replace_from fuel' ci r repl (x :: bef) rest
          | [] => []
          end
      end
  end.

Definition replace_all (ci : bool) (r : re) (repl s : jsstring) : jsstring :=
  replace_from (S (length s)) ci r repl [] s.

(** A literal word, and an alternation of patterns. *)
Fixpoint lit_chars (s : jsstring) : re :=
  match s with
  | [] => Eps
  | c :: r => Seq (Chr c) (lit_chars r)
  end.

Definition lit (s : string) : re := lit_chars (js s).

Fixpoint alts (l : list re) : re :=
  match l with
  | [] => Cls (fun _ => false)
  | [r] => r
  | r :: rest => Alt r (alts rest)
  end.

(** [a.?b] *)
Definition gap (a b : string) : re := Seq (lit a) (Seq (Opt AnyChar) (lit b)).

End Regex.
Import Regex.

(* ===================================================================== *)
(** ** JavaScript values, numbers and exceptions *)
(* ===================================================================== *)

Module JsValue.

(** The result of a call that may throw. *)
Inductive outcome (A : Type) : Type :=
| Ret (a : A)
| Throw (error : jsstring).
Arguments Ret {A} a.
Arguments Throw {A} error.

Definition bind {A B} (m : outcome A) (k : A -> outcome B) : outcome B :=
  match m with
  | Ret a => k a
  | Throw e => Throw e
  end.

Notation "x <- m ;; k" := (bind m (fun x => k))
  (at level 61, m at next level, right associativity).

(** [xs.map(f)] for a callback that may throw: the first exception ends
    the traversal. *)
Fixpoint mapM {A B} (f : A -> outcome B) (l : list A) : outcome (list B) :=
  match l with
  | [] => Ret []
  | x :: r => y <- f x ;; ys <- mapM f r ;; Ret (y :: ys)
  end.

(** A number; [None] is NaN. *)
Definition number := option Q.

(** The values a parsed JSON record holds.  An array or an object is known
    by its string conversion, which is all that the tools read of it. *)
Inductive JsVal : Type :=
| VUndef
| VNull
| VBool (b : bool)
| VNum (q : Q)
| VStr (s : jsstring)
| VRef (text : jsstring).

(** An object: its own enumerable properties, in the order of
    [Object.keys]. *)
Definition record := list (jsstring * JsVal).

Fixpoint get (r : record) (k : jsstring) : JsVal :=
  match r with
  | [] => VUndef
  | (k', v) :: rest => if jseqb k' k then v else get rest k
  end.

Definition keys (r : record) : list jsstring := map fst r.

Definition Qis_zero (q : Q) : bool := Z.eqb (Qnum q) 0.

Definition truthy (v : JsVal) : bool :=
  match v with
  | VUndef | VNull => false
  | VBool b => b
  | VNum q => negb (Qis_zero q)
  | VStr s => truthy_str s
  | VRef _ => true
  end.

(** [a || b] *)
Definition or_else (a b : JsVal) : JsVal := if truthy a then a else b.

(** [a ?? b] *)
Definition coalesce (a b : JsVal) : JsVal :=
  match a with
  | VUndef | VNull => b
  | _ => a
  end.

(** *** Decimal text *)

Definition digit_val (c : jschar) : Z := Z.of_N (c - 48).

Fixpoint digits_val (acc : Z) (ds : jsstring) : Z :=
  match ds with
  | [] => acc
  | d :: r => digits_val (acc * 10 + digit_val d) r
  end.

Fixpoint take_digits (s : jsstring) : jsstring * jsstring :=
  match s with
  | c :: r =>
      if is_digit c then let (ds, rest) := take_digits r in (c :: ds, rest)
      else ([], s)
  | [] => ([], [])
  end.

Definition take_sign (s : jsstring) : bool * jsstring :=
  match s with
  | c :: r =>
      if N.eqb c 45 then (true, r)
      else if N.eqb c 43 then (false, r)
      else (false, s)
  | [] => (false, s)
  end.

Definition pow10 (e : Z) : Q :=
  if (0 <=? e)%Z then inject_Z (10 ^ e) else / inject_Z (10 ^ (- e)).

(** The exponent part [e[+-]ddd] of a decimal literal, 0 when absent. *)
Definition take_exponent (s : jsstring) : Z :=
  match s with
  | c :: r =>
      if N.eqb c 101 || N.eqb c 69 then
        let (neg, r') := take_sign r in
        match take_digits r' with
        | ([], _) => 0%Z
        | (ds, _) => if neg then (- digits_val 0 ds)%Z else digits_val 0 ds
        end
      else 0%Z
  | [] => 0%Z
  end.

(** [parseFloat(s)] on a string: the longest prefix that is a decimal
    literal, after leading white space.  The literal Infinity is no number
    of the model and reads as NaN. *)
Definition parseFloat_str (s : jsstring) : number :=
  let (neg, s0) := take_sign (trimStart s) in
  let (ip, s1) := take_digits s0 in
  let (fp, s2) :=
    match s1 with
    | c :: r => if N.eqb c 46 then take_digits r else ([], s1)
    | [] => ([], s1)
    end in
  match ip, fp with
  | [], [] => None
  | _, _ =>
      let mant := (inject_Z (digits_val 0 (ip ++ fp))
                   * pow10 (- Z.of_nat (length fp)))%Q in
      let v := (mant * pow10 (take_exponent s2))%Q in
      Some (Qred (if neg then - v else v))
  end.

(** [parseInt(s, 10)] on a string. *)
Definition parseInt_str (s : jsstring) : option Z :=
  let (neg, s0) := take_sign (trimStart s) in
  match take_digits s0 with
  | ([], _) => None
  | (ds, _) => Some (if neg then (- digits_val 0 ds)%Z else digits_val 0 ds)
  end.

(** Rounding toward zero. *)
Definition Qtruncate (q : Q) : Z := Z.quot (Qnum q) (Z.pos (Qden q)).

(** *** Number to string, for numbers printed in positional notation *)

Definition nat_digits (n : N) : jsstring :=
  js (NilZero.string_of_uint (N.to_uint n)).

Fixpoint frac_digits (fuel : nat) (num den : Z) : jsstring :=
  match fuel with
  | O => []
  | S fuel' =>
      if (num =? 0)%Z then []
      else Z.to_N (48 + (num * 10) / den) :: frac_digits fuel' ((num * 10) mod den) den
  end.

Definition Number_toString (q : Q) : jsstring :=
  let q := Qred q in
  let a := Z.abs (Qnum q) in
  let d := Z.pos (Qden q) in
  (if (Qnum q <? 0)%Z then js "-" else [])
  ++ nat_digits (Z.to_N (a / d))
  ++ (if (a mod d =? 0)%Z then [] else js "." ++ frac_digits 20 (a mod d) d).

(** [String(v)] *)
Definition ToString (v : JsVal) : jsstring :=
  match v with
  | VUndef => js "undefined"
  | VNull => js "null"
  | VBool true => js "true"
  | VBool false => js "false"
  | VNum q => Number_toString q
  | VStr s => s
  | VRef t => t
  end.

(** [parseFloat(v)]: a number comes back as it is, any other value goes
    through its string conversion. *)
Definition parseFloat (v : JsVal) : number :=
  match v with
  | VNum q => Some (Qred q)
  | VStr s => parseFloat_str s
  | VRef t => parseFloat_str t
  | VUndef | VNull | VBool _ => None
  end.

(** [parseInt(v, 10)]; a number is cut at its decimal point, as its text
    in positional notation is. *)
Definition parseInt (v : JsVal) : option Z :=
  match v with
  | VNum q => Some (Qtruncate q)
  | VStr s => parseInt_str s
  | VRef t => parseInt_str t
  | VUndef | VNull | VBool _ => None
  end.

Definition isNaN (n : number) : bool :=
  match n with None => true | Some _ => false end.

(** [Math.sqrt], to sixteen decimal places; NaN below zero. *)
Definition Math_sqrt (q : Q) : number :=
  if (Qnum q <? 0)%Z then None
  else
    let s := (10 ^ 16)%Z in
    Some (Qred (Z.sqrt (Qnum q * Z.pos (Qden q) * s * s)
                # (Qden q * Z.to_pos s))).

(** *** Array.prototype.sort *)

(** A stable sort; [le x y] says that the compare function, called on
    [x] and [y], is not positive (a NaN result counts as zero). *)
Fixpoint insert {A} (le : A -> A -> bool) (x : A) (l : list A) : list A :=
  match l with
  | [] => [x]
  | y :: r => if le x y then x :: l else y :: insert le x r
  end.

Definition sort {A} (le : A -> A -> bool) (l : list A) : list A :=
  fold_right (insert le) [] l.

End JsValue.
Import JsValue.

(* ===================================================================== *)
(** ** services/jsonTools.js: the structured-record tools *)
(* ===================================================================== *)

Module JsonTools.

Local Open Scope Q_scope.

(** The arguments object of a tool call; each declared parameter is a
    STRING, and a parameter the call leaves out is [None]. *)
Record Args : Type := MkArgs {
  field : option jsstring;
  metric_field : option jsstring;
  date_field : option jsstring;
  video_selector : option jsstring
}.

Definition no_args : Args := MkArgs None None None None.

(** [!name] for a string that may be undefined. *)
Definition falsy_name (name : option jsstring) : bool :=
  match name with
  | None => true
  | Some s => negb (truthy_str s)
  end.

(** The property key that [r[name]] reads. *)
Definition prop_key (name : option jsstring) : jsstring :=
  match name with
  | Some s => s
  | None => js "undefined"
  end.

Definition is_separator (c : jschar) : bool :=
  is_ws c || N.eqb c 95 || N.eqb c 45.

(** [s.toLowerCase().replace(/[\s_-]+/g, '')] *)
Definition norm (s : jsstring) : jsstring :=
  replace_all false (PlusCls is_separator) [] (toLowerCase s).

Definition resolveField (rows : list record) (name : option jsstring)
  : option jsstring :=
  match rows, name with
  | r0 :: _, Some n =>
      if falsy_name name then name
      else if existsb (jseqb n) (keys r0) then name
      else
        let target := norm n in
        match find (fun k => jseqb (norm k) target) (keys r0) with
        | Some k => if truthy_str k then Some k else name
        | None => name
        end
  | _, _ => name
  end.

Definition digits1 : re := PlusCls is_digit.

(** /PT(?:(\d+)H)?(?:(\d+)M)?(?:(\d+)S)?/ *)
Definition PT_PATTERN : re :=
  Seq (lit "PT")
   (Seq (Opt (Seq (Grp 1 digits1) (lit "H")))
    (Seq (Opt (Seq (Grp 2 digits1) (lit "M")))
         (Opt (Seq (Grp 3 digits1) (lit "S"))))).

(** /^(?:(\d+):)?(\d+):(\d+)$/ *)
Definition COLON_PATTERN : re :=
  Seq Bol
   (Seq (Opt (Seq (Grp 1 digits1) (lit ":")))
    (Seq (Grp 2 digits1) (Seq (lit ":") (Seq (Grp 3 digits1) Eol)))).

(** [parseInt(m[n] || 0, 10)] *)
Definition group_int (n : nat) (m : mstate * mstate) : option Z :=
  match group n m with
  | Some s => if truthy_str s then parseInt_str s else Some 0%Z
  | None => Some 0%Z
  end.

(** [h * 3600 + m * 60 + s] over the three groups *)
Definition hms (m : mstate * mstate) : number :=
  match group_int 1 m, group_int 2 m, group_int 3 m with
  | Some h, Some mi, Some s => Some (inject_Z (h * 3600 + mi * 60 + s))
  | _, _, _ => None
  end.

Definition durationToSeconds (val : JsVal) : number :=
  match val with
  | VUndef | VNull | VStr [] => None
  | _ =>
      match parseFloat val with
      | Some n => Some n
      | None =>
          let str := ToString val in
          match exec false PT_PATTERN str with
          | Some m => hms m
          | None =>
              match exec false COLON_PATTERN str with
              | Some m => hms m
              | None => None
              end
          end
      end
  end.

Definition median (sorted : list Q) : Q :=
  let n := length sorted in
  if Nat.even n
  then Qred ((nth (n / 2 - 1) sorted 0 + nth (n / 2) sorted 0) / 2)
  else nth (n / 2) sorted 0.

Definition Number_isInteger (q : Q) : bool :=
  Pos.eqb (Qden (Qred q)) 1.

(** [+n.toFixed(4)]: the nearest multiple of 1/10000, ties away from
    zero; from 1e21 on, [toFixed] prints the number itself. *)
Definition toFixed4 (n : Q) : Q :=
  if Qle_bool (inject_Z (10 ^ 21)) (Qabs n) then n
  else
    let k := Qfloor (Qabs n * inject_Z 10000 + (1 # 2)) in
    Qred ((if (Qnum n <? 0)%Z then (- k)%Z else k) # 10000).

Definition fmt (n : Q) : Q :=
  if Number_isInteger n then n else toFixed4 n.

Definition qmin (a b : Q) : Q := if Qle_bool a b then a else b.
Definition qmax (a b : Q) : Q := if Qle_bool a b then b else a.

(** [Math.min(v0, ...vs)] and [Math.max(v0, ...vs)] *)
Definition Math_min (v0 : Q) (vs : list Q) : Q := fold_left qmin vs v0.
Definition Math_max (v0 : Q) (vs : list Q) : Q := fold_left qmax vs v0.

(** [vals.filter((v) => !isNaN(v))] *)
Fixpoint not_NaN (vals : list number) : list Q :=
  match vals with
  | [] => []
  | Some q :: r => q :: not_NaN r
  | None :: r => not_NaN r
  end.

(** [vals.reduce((a, b) => a + b, 0)] *)
Definition sum (vals : list Q) : Q := fold_left Qplus vals 0.

(** [vals.reduce((a, b) => a + (b - mean) ** 2, 0)] *)
Definition sum_sq (mean : Q) (vals : list Q) : Q :=
  fold_left (fun a b => a + (b - mean) * (b - mean)) vals 0.

Record Stats : Type := MkStats {
  stats_field : option jsstring;
  count : nat;
  mean : Q;
  median_ : Q;
  std : number;
  min : Q;
  max : Q
}.

Record Point : Type := MkPoint {
  date : JsVal;
  label : jsstring;
  value : Q;
  title : JsVal
}.

Inductive ToolResult : Type :=
| RError (error : jsstring)
| RStats (s : Stats)
| RChart (data : list Point) (metricField : option jsstring) (dateField : jsstring)
| RVideo (video_title thumbnail url : JsVal).

Definition TypeError_toLowerCase : jsstring :=
  js "TypeError: Cannot read properties of undefined (reading 'toLowerCase')".

Definition TypeError_not_a_function : jsstring :=
  js "TypeError: toLowerCase is not a function".

(** [name.toLowerCase().includes('duration') || name === 'duration_iso'] *)
Definition duration_like (name : option jsstring) : outcome bool :=
  match name with
  | None => Throw TypeError_toLowerCase
  | Some f =>
      Ret (includes (toLowerCase f) (js "duration")
           || jseqb f (js "duration_iso"))
  end.

(** [r[name] ?? r.duration ?? r.duration_iso] *)
Definition duration_source (r : record) (name : option jsstring) : JsVal :=
  coalesce (coalesce (get r (prop_key name)) (get r (js "duration")))
           (get r (js "duration_iso")).

(** [Available: ${Object.keys(videos[0]).join(', ')}] *)
Definition available (r0 : record) : jsstring :=
  js "Available: " ++ join (js ", ") (keys r0).

Definition compute_stats_json (args : Args) (r0 : record) (videos : list record)
  : outcome ToolResult :=
  let field := resolveField videos (field args) in
  let vals := map (fun r => parseFloat (get r (prop_key field))) videos in
  vals <- (if forallb isNaN vals
           then dur <- duration_like field ;;
                Ret (if dur : bool
                     then map (fun r => durationToSeconds (duration_source r field)) videos
                     else vals)
           else Ret vals) ;;
  match not_NaN vals with
  | [] =>
      Ret (RError (js "No numeric values in " ++ quoted (prop_key field)
                   ++ js ". " ++ available r0))
  | v0 :: vs =>
      let vals := v0 :: vs in
      let n := inject_Z (Z.of_nat (length vals)) in
      let mean := Qred (sum vals / n) in
      let sorted := sort Qle_bool vals in
      let variance := Qred (sum_sq mean vals / n) in
      Ret (RStats {|
        stats_field := field;
        count := length vals;
        mean := fmt mean;
        median_ := fmt (median sorted);
        std := option_map fmt (Math_sqrt variance);
        min := Math_min v0 vs;
        max := Math_max v0 vs
      |})
  end.

Section Host.

(** [new Date(v).getTime()], [None] for an invalid date; what a string
    parses to is up to the host beyond the ISO format. *)
Variable Date_time : JsVal -> option Z.

(** [new Date(v).toLocaleDateString([], { month: 'short', day: 'numeric',
    year: '2-digit' })], in the host's locale and time zone. *)
Variable toLocaleDateString : JsVal -> jsstring.

(** One record of [plot_metric_vs_time]: the point it contributes, if
    any. *)
Definition plot_point (metricField : option jsstring) (dateField : jsstring)
  (v : record) : outcome (option Point) :=
  let metricVal := parseFloat (get v (prop_key metricField)) in
  metricVal <- (if isNaN metricVal
                then dur <- duration_like metricField ;;
                     Ret (if dur : bool
                          then durationToSeconds (duration_source v metricField)
                          else metricVal)
                else Ret metricVal) ;;
  let dateVal := get v dateField in
  match dateVal, metricVal with
  | VUndef, _ | VNull, _ => Ret None
  | _, None => Ret None
  | _, Some m =>
      Ret (Some {|
        date := dateVal;
        label := toLocaleDateString dateVal;
        value := m;
        title := or_else (get v (js "title")) (VStr [])
      |})
  end.

(** [.filter(Boolean)] *)
Fixpoint somes {A} (l : list (option A)) : list A :=
  match l with
  | [] => []
  | Some x :: r => x :: somes r
  | None :: r => somes r
  end.

(** [(a, b) => new Date(a.date) - new Date(b.date)] is not positive; the
    difference is NaN, which [sort] reads as zero, when a date is
    invalid. *)
Definition date_le (a b : Point) : bool :=
  match Date_time (date a), Date_time (date b) with
  | Some ta, Some tb => (ta <=? tb)%Z
  | _, _ => true
  end.

Definition plot_metric_vs_time (args : Args) (r0 : record) (videos : list record)
  : outcome ToolResult :=
  let metricField := resolveField videos (metric_field args) in
  let dateField :=
    if falsy_name (date_field args) then js "release_date"
    else prop_key (resolveField videos (date_field args)) in
  points <- mapM (plot_point metricField dateField) videos ;;
  let data := sort date_le (somes points) in
  match data with
  | [] =>
      Ret (RError (js "Could not plot. Metric: " ++ quoted (prop_key metricField)
                   ++ js ", date: " ++ quoted dateField ++ js ". "
                   ++ available r0))
  | _ => Ret (RChart data metricField dateField)
  end.

(** The series of [plot_metric_vs_time] in the words of its
    description: the metric of a record is its metric field as a number
    or, under a duration-like field name, the duration it parses to; a
    record is plotted when its date field is neither null nor undefined
    and it has a metric; and a plotted record gives one point. *)
Definition metric_of (metricField : jsstring) (v : record) : number :=
  match parseFloat (get v metricField) with
  | Some m => Some m
  | None =>
      if includes (toLowerCase metricField) (js "duration")
         || jseqb metricField (js "duration_iso")
      then durationToSeconds (duration_source v (Some metricField))
      else None
  end.

Definition non_null (x : JsVal) : bool :=
  match x with
  | VUndef | VNull => false
  | _ => true
  end.

Definition plotted (metricField dateField : jsstring) (v : record) : bool :=
  non_null (get v dateField) && negb (isNaN (metric_of metricField v)).

Definition point_for (metricField dateField : jsstring) (v : record) : Point :=
  {| date := get v dateField;
     label := toLocaleDateString (get v dateField);
     value := match metric_of metricField v with Some m => m | None => 0 end;
     title := or_else (get v (js "title")) (VStr []) |}.

Definition series (metricField dateField : jsstring) (videos : list record)
  : list Point :=
  map (point_for metricField dateField)
      (filter (plotted metricField dateField) videos).

(** Two points are in ascending order when their dates, both valid, are. *)
Definition ascending (a b : Point) : Prop :=
  forall ta tb,
    Date_time (date a) = Some ta -> Date_time (date b) = Some tb ->
    (ta <= tb)%Z.

Definition valid_date (p : Point) : Prop := Date_time (date p) <> None.

(** [parseInt(v.view_count, 10) || 0] *)
Definition views (v : record) : Z :=
  match parseInt (get v (js "view_count")) with
  | Some n => n
  | None => 0%Z
  end.

Definition anchored (r : re) : re := Seq Bol (Seq (Grp 1 r) Eol).

(** /^(first|1st|1)$/, /^(second|2nd|2)$/, /^(third|3rd|3)$/ *)
Definition FIRST : re := anchored (alts [lit "first"; lit "1st"; lit "1"]).
Definition SECOND : re := anchored (alts [lit "second"; lit "2nd"; lit "2"]).
Definition THIRD : re := anchored (alts [lit "third"; lit "3rd"; lit "3"]).

(** /^(\d+)(st|nd|rd|th)?$/ *)
Definition NTH : re :=
  Seq Bol
   (Seq (Grp 1 digits1)
    (Seq (Opt (Grp 2 (alts [lit "st"; lit "nd"; lit "rd"; lit "th"]))) Eol)).

(** [videos[idx]] *)
Definition at_index (videos : list record) (idx : Z) : option record :=
  if (idx <? 0)%Z then None else nth_error videos (Z.to_nat idx).

(** [videos.find((v) => (v.title || '').toLowerCase().includes(sel))] *)
Fixpoint find_title (sel : jsstring) (videos : list record)
  : outcome (option record) :=
  match videos with
  | [] => Ret None
  | v :: rest =>
      match or_else (get v (js "title")) (VStr []) with
      | VStr t =>
          if includes (toLowerCase t) sel then Ret (Some v)
          else find_title sel rest
      | _ => Throw TypeError_not_a_function
      end
  end.

Definition play_video (args : Args) (videos : list record) : outcome ToolResult :=
  let sel :=
    trim (toLowerCase
            (if falsy_name (video_selector args) then []
             else prop_key (video_selector args))) in
  video <-
    (if jseqb sel (js "most viewed") || jseqb sel (js "most viewed video")
     then Ret (hd_error (sort (fun a b => (views b - views a <=? 0)%Z) videos))
     else if jseqb sel (js "least viewed") || jseqb sel (js "least viewed video")
     then Ret (hd_error (sort (fun a b => (views a - views b <=? 0)%Z) videos))
     else if test false FIRST sel then Ret (at_index videos 0)
     else if test false SECOND sel then Ret (at_index videos 1)
     else if test false THIRD sel then Ret (at_index videos 2)
     else if test false NTH sel then
       match exec false digits1 sel with
       | Some m =>
           match parseInt_str (whole m) with
           | Some n => Ret (at_index videos (n - 1))
           | None => Ret None
           end
       | None => Throw (js "TypeError: Cannot read properties of null (reading '0')")
       end
     else find_title sel videos) ;;
  match video with
  | None =>
      Ret (RError (js "Video not found for " ++ quoted (prop_key (video_selector args))
                   ++ js ". Try " ++ quoted (js "first") ++ js ", "
                   ++ quoted (js "most viewed") ++ js ", or a title keyword."))
  | Some video =>
      Ret (RVideo
             (or_else (get video (js "title")) (VStr (js "Untitled")))
             (or_else (get video (js "thumbnail_url")) VNull)
             (or_else (get video (js "video_url"))
                (VStr (js "https://www.youtube.com/watch?v="
                       ++ ToString (get video (js "video_id"))))))
  end.

(** [videos] is [None] when the caller holds no array. *)
Definition executeJsonTool (toolName : jsstring) (args : Args)
  (videos : option (list record)) : outcome ToolResult :=
  match videos with
  | None | Some [] =>
      Ret (RError (js "No channel JSON data loaded. Please drag a JSON file into the chat first."))
  | Some (r0 :: rest) =>
      let videos := r0 :: rest in
      if jseqb toolName (js "compute_stats_json")
      then compute_stats_json args r0 videos
      else if jseqb toolName (js "plot_metric_vs_time")
      then plot_metric_vs_time args r0 videos
      else if jseqb toolName (js "play_video")
      then play_video args videos
      else Ret (RError (js "Unknown tool: " ++ toolName))
  end.

End Host.

End JsonTools.

(* ===================================================================== *)
(** ** services/gemini.js: keywords and the tool schema adapter *)
(* ===================================================================== *)

Module Gemini.

(** /\b(plot|chart|graph|analyz|statistic|regression|correlat|histogram|
      visualiz|calculat|compute|run code|write code|execute|pandas|numpy|
      matplotlib|csv|data)\b/i *)
Definition CODE_KEYWORDS : re :=
  Seq WordB
   (Seq (Grp 1 (alts
      [lit "plot"; lit "chart"; lit "graph"; lit "analyz"; lit "statistic";
       lit "regression"; lit "correlat"; lit "histogram"; lit "visualiz";
       lit "calculat"; lit "compute"; lit "run code"; lit "write code";
       lit "execute"; lit "pandas"; lit "numpy"; lit "matplotlib"; lit "csv";
       lit "data"]))
    WordB).

(** A JSON-like value, as the tool declarations are written. *)
Inductive Json : Type :=
| JNull
| JBool (b : bool)
| JNum (q : Q)
| JStr (s : jsstring)
| JArr (items : list Json)
| JObj (fields : list (jsstring * Json)).

Definition object := list (jsstring * Json).

Fixpoint lookup (k : jsstring) (o : object) : option Json :=
  match o with
  | [] => None
  | (k', v) :: rest => if jseqb k' k then Some v else lookup k rest
  end.

(** [o[k] = v] for a property the object has: the value changes in
    place. *)
Fixpoint update (k : jsstring) (v : Json) (o : object) : object :=
  match o with
  | [] => []
  | (k', v') :: rest =>
      if jseqb k' k then (k', v) :: rest else (k', v') :: update k v rest
  end.

(** [o[k] = v] in general: a new property goes last. *)
Fixpoint assign (k : jsstring) (v : Json) (o : object) : object :=
  match o with
  | [] => [(k, v)]
  | (k', v') :: rest =>
      if jseqb k' k then (k', v) :: rest else (k', v') :: assign k v rest
  end.

Definition json_truthy (v : Json) : bool :=
  match v with
  | JNull => false
  | JBool b => b
  | JNum q => negb (Qis_zero q)
  | JStr s => truthy_str s
  | JArr _ | JObj _ => true
  end.

(** The keys "0", "1", ... of an array or of a string. *)
Fixpoint indexed (i : N) (l : list Json) : object :=
  match l with
  | [] => []
  | x :: r => (nat_digits i, x) :: indexed (N.succ i) r
  end.

(** [Object.entries(v)]: the own enumerable properties of a value. *)
Definition entries (v : Json) : object :=
  match v with
  | JObj f => f
  | JArr l => indexed 0 l
  | JStr s => indexed 0 (map (fun c => JStr [c]) s)
  | JNull | JBool _ | JNum _ => []
  end.

(** [Object.fromEntries(l)]: a key met again overwrites. *)
Definition fromEntries (l : object) : object :=
  fold_left (fun o kv => assign (fst kv) (snd kv) o) l [].

(** [if (v.type === upper) v.type = lower] *)
Definition retype (upper lower : string) (v : object) : object :=
  match lookup (js "type") v with
  | Some (JStr t) =>
      if jseqb t (js upper) then update (js "type") (JStr (js lower)) v else v
  | _ => v
  end.

Definition normalizeProp (prop : Json) : object :=
  let v := entries prop in          (* { ...prop } *)
  let v := retype "STRING" "string" v in
  let v := retype "NUMBER" "number" v in
  let v := retype "BOOLEAN" "boolean" v in
  let v := retype "ARRAY" "array" v in
  let v := retype "OBJECT" "object" v in
  v.

(** [([k, v]) => [k, normalizeProp(v)]] *)
Definition normalized_entry (kv : jsstring * Json) : jsstring * Json :=
  (fst kv, JObj (normalizeProp (snd kv))).

Definition normalizeParams (params : object) : object :=
  let p := params in                (* { ...params } *)
  let p := retype "OBJECT" "object" p in
  match lookup (js "properties") p with
  | Some props =>
      if json_truthy props
      then update (js "properties")
             (JObj (fromEntries (map normalized_entry (entries props))))
             p
      else p
  | None => p
  end.

(** The type tokens the declarations use, and the form each is given. *)
Definition TYPE_TOKENS : list (string * string) :=
  [("STRING", "string"); ("NUMBER", "number"); ("BOOLEAN", "boolean");
   ("ARRAY", "array"); ("OBJECT", "object")]%string.

Fixpoint lowered_in (tokens : list (string * string)) (t : jsstring)
  : option jsstring :=
  match tokens with
  | [] => None
  | (upper, lower) :: rest =>
      if jseqb t (js upper) then Some (js lower) else lowered_in rest t
  end.

(** The lowercase form of an uppercase type token, [None] for any other
    text. *)
Definition lowered (t : jsstring) : option jsstring := lowered_in TYPE_TOKENS t.

(** A tool declaration and its OpenAI form. *)
Record Declaration : Type := MkDeclaration {
  decl_name : jsstring;
  decl_description : option jsstring;
  decl_parameters : option object
}.

Record OpenAITool : Type := MkOpenAITool {
  fn_name : jsstring;
  fn_description : jsstring;
  fn_parameters : object
}.

Definition toOpenAITools (declarations : list Declaration) : list OpenAITool :=
  map (fun d =>
         {| fn_name := decl_name d;
            fn_description :=
              match decl_description d with
              | Some s => s
              | None => []
              end;
            fn_parameters :=
              normalizeParams
                (match decl_parameters d with Some p => p | None => [] end) |})
      declarations.

(** *** The tool-call loops *)

Local Open Scope nat_scope.

(** A tool call the provider asks for, [{ id, function: { name,
    arguments } }]; [arguments] is JSON text. *)
Record ToolCall : Type := MkToolCall {
  tc_id : jsstring;
  tc_name : option jsstring;
  tc_arguments : option jsstring
}.

Inductive Message : Type :=
| MsgText (role content : jsstring)
| MsgParts (role : jsstring) (texts : list jsstring)
| MsgAssistant (content : option jsstring) (tool_calls : list ToolCall)
| MsgTool (tool_call_id content : jsstring).

(** [buildMessages(systemInstruction, baseHistory, newMessage)], without
    image parts. *)
Definition buildMessages (systemInstruction : jsstring)
  (baseHistory : list (jsstring * jsstring)) (newMessage : jsstring)
  : list Message :=
  (if truthy_str systemInstruction
   then [MsgText (js "system")
           (js "Follow these instructions in every response:" ++ [10%N; 10%N]
            ++ systemInstruction)]
   else [])
  ++ map (fun m => MsgText (if jseqb (fst m) (js "user") then js "user"
                            else js "assistant") (snd m)) baseHistory
  ++ [if truthy_str newMessage then MsgText (js "user") newMessage
      else MsgParts (js "user") []].

Section ChatCompletions.

(** The tool side: argument objects, tool results, the executor, and
    what the loop reads of a result. *)
Variable ToolArgs : Type.
Variable ToolResult : Type.
Variable executeFn : option jsstring -> ToolArgs -> ToolResult.
Variable chartType : ToolResult -> bool.        (* toolResult?._chartType *)

(** [JSON.parse], [None] where it throws a SyntaxError. *)
Variable JSON_parse : jsstring -> option ToolArgs.
Variable JSON_stringify : ToolResult -> jsstring.

(** The provider: [openai.chat.completions.create], as a machine with a
    state of its own.  The answer read is [choices[0].message]. *)
Variable Provider : Type.
Variable Tools : Type.

Record Request : Type := MkRequest {
  req_messages : list Message;
  req_tools : option Tools
}.

Record Reply : Type := MkReply {
  content : option jsstring;
  tool_calls : list ToolCall
}.

Variable create : Provider -> Request -> option Reply * Provider.

Record ToolCallRecord : Type := MkToolCallRecord {
  name : option jsstring;
  args : ToolArgs;
  result : ToolResult
}.

(** [response.choices?.[0]?.message?.tool_calls], the empty list when
    there is none. *)
Definition requested (response : option Reply) : list ToolCall :=
  match response with
  | Some msg => tool_calls msg
  | None => []
  end.

(** [msg.content || null] *)
Definition content_or_null (response : option Reply) : option jsstring :=
  match response with
  | Some msg =>
      match content msg with
      | Some s => if truthy_str s then Some s else None
      | None => None
      end
  | None => None
  end.

(** [tc.function?.arguments || '{}'] *)
Definition arguments_text (tc : ToolCall) : jsstring :=
  match tc_arguments tc with
  | Some s => if truthy_str s then s else js "{}"
  | None => js "{}"
  end.

(** The body of [for (const tc of msg.tool_calls)]: the records and the
    tool messages of one round. *)
Fixpoint run_calls (tcs : list ToolCall)
  : outcome (list ToolCallRecord * list Message) :=
  match tcs with
  | [] => Ret ([], [])
  | tc :: rest =>
      match JSON_parse (arguments_text tc) with
      | None => Throw (js "SyntaxError: Unexpected token in JSON")
      | Some a =>
          let toolResult := executeFn (tc_name tc) a in
          more <- run_calls rest ;;
          Ret (MkToolCallRecord (tc_name tc) a toolResult :: fst more,
               MsgTool (tc_id tc) (JSON_stringify toolResult) :: snd more)
      end
  end.

Record LoopState : Type := MkLoopState {
  round : nat;
  response : option Reply;
  provider : Provider;
  charts : list ToolResult;
  toolCalls : list ToolCallRecord
}.

Definition CSV_ROUNDS : nat := 5.

(** [for (let round = 0; round < 5; round++) { ... }] of
    [chatWithCsvToolsOpenAI], from the state at the loop test. *)
Equations? csv_loop (messages : list Message) (tools : Tools) (st : LoopState)
  : outcome LoopState by wf (CSV_ROUNDS - round st) lt :=
  csv_loop messages tools st with lt_dec (round st) CSV_ROUNDS => {
    | right _ => Ret st
    | left _ with requested (response st) => {
        | [] => Ret st                                (* break *)
        | tc :: tcs with run_calls (tc :: tcs) => {
            | Throw e => Throw e
            | Ret (records, tool_messages) =>
                let messagesWithAssistant :=
                  messages
                  ++ [MsgAssistant (content_or_null (response st)) (tc :: tcs)]
                  ++ tool_messages in
                let next := create (provider st)
                              (MkRequest messagesWithAssistant (Some tools)) in
                csv_loop messages tools
                  {| round := S (round st);
                     response := fst next;
                     provider := snd next;
                     charts := charts st
                               ++ filter chartType (map result records);
                     toolCalls := toolCalls st ++ records |}
          }
      }
  }.
Proof.
  unfold CSV_ROUNDS in *.
  destruct (round st) as [|[|[|[|[|n]]]]]; simpl; lia.
Qed.

Record ChatResult : Type := MkChatResult {
  text : jsstring;
  result_charts : list ToolResult;
  result_toolCalls : list ToolCallRecord
}.

(** [response.choices?.[0]?.message?.content || ''] *)
Definition final_text (response : option Reply) : jsstring :=
  match response with
  | Some msg => match content msg with Some s => s | None => [] end
  | None => []
  end.

(** [chatWithCsvToolsOpenAI], from the messages [buildMessages] gives;
    [tools] is [toOpenAITools(CSV_TOOL_DECLARATIONS)] and [has_tools] its
    [tools.length]. *)
(** The state before the first test of the loop: the first answer of the
    provider, no chart and no tool call. *)
Definition csv_start (messages : list Message) (tools : Tools)
  (has_tools : bool) (p : Provider) : LoopState :=
  let first := create p (MkRequest messages
                           (if has_tools then Some tools else None)) in
  {| round := 0; response := fst first; provider := snd first;
     charts := []; toolCalls := [] |}.

Definition chatWithCsvToolsOpenAI (messages : list Message) (tools : Tools)
  (has_tools : bool) (p : Provider) : outcome ChatResult :=
  st <- csv_loop messages tools (csv_start messages tools has_tools p) ;;
  Ret {| text := final_text (response st);
         result_charts := charts st;
         result_toolCalls := toolCalls st |}.

(** What a theorem may ask of a provider: that the arguments text of
    every tool call it sends is JSON, or that every answer it gives asks
    for a tool call. *)
Definition parses (tcs : list ToolCall) : Prop :=
  Forall (fun tc => JSON_parse (arguments_text tc) <> None) tcs.

Definition sends_json : Prop :=
  forall p req, parses (requested (fst (create p req))).

Definition always_requests : Prop :=
  forall p req, requested (fst (create p req)) <> [].

End ChatCompletions.

Arguments MkRequest {Tools}.
Arguments req_messages {Tools}.
Arguments req_tools {Tools}.
Arguments MkToolCallRecord {ToolArgs ToolResult}.
Arguments name {ToolArgs ToolResult}.
Arguments args {ToolArgs ToolResult}.
Arguments result {ToolArgs ToolResult}.
Arguments MkLoopState {ToolArgs ToolResult Provider}.
Arguments round {ToolArgs ToolResult Provider}.
Arguments response {ToolArgs ToolResult Provider}.
Arguments provider {ToolArgs ToolResult Provider}.
Arguments charts {ToolArgs ToolResult Provider}.
Arguments toolCalls {ToolArgs ToolResult Provider}.
Arguments MkChatResult {ToolArgs ToolResult}.
Arguments text {ToolArgs ToolResult}.
Arguments result_charts {ToolArgs ToolResult}.
Arguments result_toolCalls {ToolArgs ToolResult}.
Arguments run_calls {ToolArgs ToolResult}.
Arguments csv_loop {ToolArgs ToolResult} executeFn chartType JSON_parse
  JSON_stringify {Provider Tools} create messages tools st.
Arguments chatWithCsvToolsOpenAI {ToolArgs ToolResult} executeFn chartType
  JSON_parse JSON_stringify {Provider Tools} create messages tools has_tools p.
Arguments parses {ToolArgs} JSON_parse tcs.
Arguments sends_json {ToolArgs} JSON_parse {Provider Tools} create.
Arguments always_requests {Provider Tools} create.
Arguments csv_start {ToolArgs ToolResult Provider Tools} create messages tools
  has_tools p.

Section GenerativeChat.

Variable ToolArgs : Type.
Variable ToolResult : Type.

(** The executor, with a promise it returns already awaited. *)
Variable executeFn : jsstring -> ToolArgs -> ToolResult.
Variable chartType : ToolResult -> bool.        (* toolResult?._chartType *)
(** [toolResult?._imageType === 'generated' && toolResult.data] *)
Variable generatedImage : ToolResult -> bool.

(** A part of [response.candidates[0].content.parts]. *)
Record Part : Type := MkPart {
  part_text : option jsstring;
  functionCall : option (jsstring * ToolArgs)
}.

Inductive Sent : Type :=
| SendText (message : jsstring)
| SendFunctionResponse (name : jsstring) (result : ToolResult).

(** The chat session [model.startChat] gives, as a machine with a state
    of its own; [sendMessage] answers with the parts of the first
    candidate, the empty list when there is none. *)
Variable Chat : Type.
Variable sendMessage : Chat -> Sent -> list Part * Chat.

Record CallRecord : Type := MkCallRecord {
  call_name : jsstring;
  call_args : ToolArgs;
  call_result : ToolResult
}.

Record JsonLoopState : Type := MkJsonLoopState {
  jround : nat;
  jresponse : list Part;
  jchat : Chat;
  jcharts : list ToolResult;
  jtoolCalls : list CallRecord;
  jgeneratedImages : list ToolResult
}.

Definition JSON_ROUNDS : nat := 8.

(** [parts.find((p) => p.functionCall)] *)
Fixpoint find_call (parts : list Part) : option (jsstring * ToolArgs) :=
  match parts with
  | [] => None
  | p :: rest =>
      match functionCall p with
      | Some fc => Some fc
      | None => find_call rest
      end
  end.

(** [for (let round = 0; round < 8; round++) { ... }] of
    [chatWithJsonToolsGemini], from the state at the loop test. *)
Equations? json_loop (st : JsonLoopState) : JsonLoopState
  by wf (JSON_ROUNDS - jround st) lt :=
  json_loop st with lt_dec (jround st) JSON_ROUNDS => {
    | right _ => st
    | left _ with find_call (jresponse st) => {
        | None => st                                  (* break *)
        | Some (name, args) =>
            let toolResult := executeFn name args in
            let next := sendMessage (jchat st)
                          (SendFunctionResponse name toolResult) in
            json_loop
              {| jround := S (jround st);
                 jresponse := fst next;
                 jchat := snd next;
                 jcharts := jcharts st
                            ++ (if chartType toolResult then [toolResult] else []);
                 jtoolCalls := jtoolCalls st ++ [MkCallRecord name args toolResult];
                 jgeneratedImages :=
                   jgeneratedImages st
                   ++ (if generatedImage toolResult then [toolResult] else []) |}
      }
  }.
Proof.
  unfold JSON_ROUNDS in *.
  destruct (jround st) as [|[|[|[|[|[|[|[|n]]]]]]]]; simpl; lia.
Qed.

Record JsonChatResult : Type := MkJsonChatResult {
  jtext : jsstring;
  jresult_charts : list ToolResult;
  jresult_toolCalls : list CallRecord;
  jresult_generatedImages : list ToolResult
}.

(** [response.text()]: the text parts, one after the other. *)
Definition response_text (parts : list Part) : jsstring :=
  concat (map (fun p => match part_text p with Some s => s | None => [] end)
              parts).

(** [chatWithJsonToolsGemini], from the chat session and the message with
    its context line. *)
(** The state before the first test of the loop: the first answer of the
    chat, no chart, no tool call and no image. *)
Definition json_start (chat : Chat) (msgWithContext : jsstring) : JsonLoopState :=
  let first := sendMessage chat (SendText msgWithContext) in
  {| jround := 0; jresponse := fst first; jchat := snd first;
     jcharts := []; jtoolCalls := []; jgeneratedImages := [] |}.

Definition chatWithJsonToolsGemini (chat : Chat) (msgWithContext : jsstring)
  : JsonChatResult :=
  let st := json_loop (json_start chat msgWithContext) in
  {| jtext := response_text (jresponse st);
     jresult_charts := jcharts st;
     jresult_toolCalls := jtoolCalls st;
     jresult_generatedImages := jgeneratedImages st |}.

(** A chat that answers every message with a function call. *)
Definition always_calls : Prop :=
  forall c m, find_call (fst (sendMessage c m)) <> None.

End GenerativeChat.

Arguments MkPart {ToolArgs}.
Arguments part_text {ToolArgs}.
Arguments functionCall {ToolArgs}.
Arguments SendText {ToolResult}.
Arguments SendFunctionResponse {ToolResult}.
Arguments MkCallRecord {ToolArgs ToolResult}.
Arguments call_name {ToolArgs ToolResult}.
Arguments call_args {ToolArgs ToolResult}.
Arguments call_result {ToolArgs ToolResult}.
Arguments MkJsonLoopState {ToolArgs ToolResult Chat}.
Arguments jround {ToolArgs ToolResult Chat}.
Arguments jresponse {ToolArgs ToolResult Chat}.
Arguments jchat {ToolArgs ToolResult Chat}.
Arguments jcharts {ToolArgs ToolResult Chat}.
Arguments jtoolCalls {ToolArgs ToolResult Chat}.
Arguments jgeneratedImages {ToolArgs ToolResult Chat}.
Arguments MkJsonChatResult {ToolArgs ToolResult}.
Arguments jtext {ToolArgs ToolResult}.
Arguments jresult_charts {ToolArgs ToolResult}.
Arguments jresult_toolCalls {ToolArgs ToolResult}.
Arguments jresult_generatedImages {ToolArgs ToolResult}.
Arguments find_call {ToolArgs}.
Arguments response_text {ToolArgs}.
Arguments json_loop {ToolArgs ToolResult} executeFn chartType generatedImage
  {Chat} sendMessage st.
Arguments chatWithJsonToolsGemini {ToolArgs ToolResult} executeFn chartType
  generatedImage {Chat} sendMessage chat msgWithContext.
Arguments always_calls {ToolArgs ToolResult Chat} sendMessage.
Arguments json_start {ToolArgs ToolResult Chat} sendMessage chat msgWithContext.
End Gemini.

(* ===================================================================== *)
(** ** components/Chat.js: bulk CSV transport and the routing decision *)
(* ===================================================================== *)

Module Chat.

Local Open Scope N_scope.

Definition is_high_surrogate (c : jschar) : bool := in_range 55296 56319 c.
Definition is_low_surrogate (c : jschar) : bool := in_range 56320 57343 c.

(** The code points [TextEncoder] encodes: a surrogate pair is one code
    point, a surrogate on its own is replaced by U+FFFD. *)
Fixpoint scalar_values (s : jsstring) : list N :=
  match s with
  | [] => []
  | c :: r =>
      if is_high_surrogate c then
        match r with
        | d :: r' =>
            if is_low_surrogate d
            then (65536 + (c - 55296) * 1024 + (d - 56320)) :: scalar_values r'
            else 65533 :: scalar_values r
        | [] => [65533]
        end
      else if is_low_surrogate c then 65533 :: scalar_values r
      else c :: scalar_values r
  end.

Definition utf8 (cp : N) : list N :=
  if cp <? 128 then [cp]
  else if cp <? 2048 then [192 + cp / 64; 128 + cp mod 64]
  else if cp <? 65536 then
    [224 + cp / 4096; 128 + (cp / 64) mod 64; 128 + cp mod 64]
  else
    [240 + cp / 262144; 128 + (cp / 4096) mod 64; 128 + (cp / 64) mod 64;
     128 + cp mod 64].

(** [new TextEncoder().encode(str)] *)
Definition TextEncoder_encode (str : jsstring) : list N :=
  flat_map utf8 (scalar_values str).

(** The base64 alphabet. *)
Definition b64_char (i : N) : jschar :=
  if i <? 26 then 65 + i
  else if i <? 52 then 97 + (i - 26)
  else if i <? 62 then 48 + (i - 52)
  else if i =? 62 then 43
  else 47.

(** [btoa(binary)] on a string of bytes. *)
Fixpoint btoa (binary : list N) : jsstring :=
  match binary with
  | [] => []
  | [x] => [b64_char (x / 4); b64_char ((x mod 4) * 16); 61; 61]
  | [x; y] =>
      [b64_char (x / 4); b64_char ((x mod 4) * 16 + y / 16);
       b64_char ((y mod 16) * 4); 61]
  | x :: y :: z :: r =>
      b64_char (x / 4) :: b64_char ((x mod 4) * 16 + y / 16)
      :: b64_char ((y mod 16) * 4 + z / 64) :: b64_char (z mod 64) :: btoa r
  end.

(** [toBase64]: the bytes of the string, each as one character of the
    binary string, then [btoa]. *)
Definition toBase64 (str : jsstring) : jsstring :=
  let bytes := TextEncoder_encode str in
  let binary := bytes in
  btoa binary.

(** /^"|"$/ *)
Definition QUOTE_ENDS : re := Alt (Seq Bol (Chr 34)) (Seq (Chr 34) Eol).

Record CsvContext : Type := MkCsvContext {
  headers : list jsstring;
  rowCount : nat;
  preview : jsstring;
  base64 : jsstring;
  truncated : bool
}.

(** The ceiling on the source text that is encoded. *)
Definition CEILING : N := 500000.

Definition parseCSV (text : jsstring) : option CsvContext :=
  let lines := filter (fun l => truthy_str (trim l)) (split 10 text) in
  match lines with
  | [] => None
  | line0 :: _ =>
      let headers :=
        map (fun h => replace_all false QUOTE_ENDS [] (trim h)) (split 44 line0) in
      let long := CEILING <? N.of_nat (length text) in
      let raw := if long then slice0 (N.to_nat CEILING) text else text in
      Some {| headers := headers;
              rowCount := (length lines - 1)%nat;
              preview := join [10] (firstn 6 lines);
              base64 := toBase64 raw;
              truncated := long |}
  end.

(** *** The decode recipe of the prompt

    [pd.read_csv(io.BytesIO(base64.b64decode(payload)))]: the payload is
    base64-decoded and the bytes are read as UTF-8. *)

Definition b64_val (c : jschar) : option N :=
  if in_range 65 90 c then Some (c - 65)
  else if in_range 97 122 c then Some (c - 71)
  else if in_range 48 57 c then Some (c + 4)
  else if c =? 43 then Some 62
  else if c =? 47 then Some 63
  else None.

Definition is_nil {A} (l : list A) : bool :=
  match l with [] => true | _ => false end.

(** Four characters at a time; the last four may end in one or two signs
    "=". *)
Fixpoint b64decode (s : jsstring) : option (list N) :=
  match s with
  | [] => Some []
  | a :: b :: c :: d :: rest =>
      if (d =? 61) && is_nil rest then
        if c =? 61 then
          match b64_val a, b64_val b with
          | Some p, Some q => Some [p * 4 + q / 16]
          | _, _ => None
          end
        else
          match b64_val a, b64_val b, b64_val c with
          | Some p, Some q, Some r =>
              Some [p * 4 + q / 16; (q mod 16) * 16 + r / 4]
          | _, _, _ => None
          end
      else
        match b64_val a, b64_val b, b64_val c, b64_val d, b64decode rest with
        | Some p, Some q, Some r, Some s, Some bytes =>
            Some (p * 4 + q / 16 :: (q mod 16) * 16 + r / 4
                  :: (r mod 4) * 64 + s :: bytes)
        | _, _, _, _, _ => None
        end
  | _ => None
  end.

Definition is_continuation (b : N) : bool := in_range 128 191 b.

(** Strict UTF-8: no overlong form, no surrogate, nothing above
    U+10FFFF. *)
Fixpoint utf8_decode (bytes : list N) : option (list N) :=
  match bytes with
  | [] => Some []
  | x :: r =>
      if x <? 128 then option_map (cons x) (utf8_decode r)
      else if in_range 194 223 x then
        match r with
        | y :: r1 =>
            if is_continuation y
            then option_map (cons ((x - 192) * 64 + (y - 128))) (utf8_decode r1)
            else None
        | _ => None
        end
      else if in_range 224 239 x then
        match r with
        | y :: z :: r2 =>
            let cp := (x - 224) * 4096 + (y - 128) * 64 + (z - 128) in
            if is_continuation y && is_continuation z && (2048 <=? cp)
               && negb (in_range 55296 57343 cp)
            then option_map (cons cp) (utf8_decode r2)
            else None
        | _ => None
        end
      else if in_range 240 244 x then
        match r with
        | y :: z :: w :: r3 =>
            let cp := (x - 240) * 262144 + (y - 128) * 4096
                      + (z - 128) * 64 + (w - 128) in
            if is_continuation y && is_continuation z && is_continuation w
               && in_range 65536 1114111 cp
            then option_map (cons cp) (utf8_decode r3)
            else None
        | _ => None
        end
      else None
  end.

(** A decoded code point as the UTF-16 code units of a JavaScript
    string. *)
Definition utf16 (cp : N) : jsstring :=
  if cp <? 65536 then [cp]
  else [55296 + (cp - 65536) / 1024; 56320 + (cp - 65536) mod 1024].

Definition decode_payload (payload : jsstring) : option jsstring :=
  match b64decode payload with
  | Some bytes => option_map (flat_map utf16) (utf8_decode bytes)
  | None => None
  end.

(** A UTF-16 code unit. *)
Definition code_unit (c : N) : Prop := c < 65536.

(** A byte. *)
Definition byte (b : N) : Prop := b < 256.

(** A Unicode scalar value: a code point that is no surrogate. *)
Definition scalar (cp : N) : Prop :=
  cp < 1114112 /\ ~ (55296 <= cp <= 57343).

(** What comes back from the payload of a CSV text, if it has one. *)
Definition payload_text (text : jsstring) : option jsstring :=
  match parseCSV text with
  | Some c => decode_payload (base64 c)
  | None => None
  end.

(** A string of code units in which every surrogate is half of a
    pair. *)
Fixpoint well_formed (s : jsstring) : bool :=
  match s with
  | [] => true
  | c :: r =>
      if is_high_surrogate c then
        match r with
        | d :: r' => is_low_surrogate d && well_formed r'
        | [] => false
        end
      else negb (is_low_surrogate c) && (c <? 65536) && well_formed r
  end.

(** *** The routing decision of [handleSend] *)

(** /\b(regression|scatter|histogram|seaborn|matplotlib|numpy|time.?series|
      heatmap|box.?plot|violin|distribut|linear.?model|logistic|forecast|
      trend.?line)\b/i *)
Definition PYTHON_ONLY_KEYWORDS : re :=
  Seq WordB
   (Seq (Grp 1 (alts
      [lit "regression"; lit "scatter"; lit "histogram"; lit "seaborn";
       lit "matplotlib"; lit "numpy"; gap "time" "series"; lit "heatmap";
       gap "box" "plot"; lit "violin"; lit "distribut"; gap "linear" "model";
       lit "logistic"; lit "forecast"; gap "trend" "line"]))
    WordB).

(** [text] holds the word [w], in upper or lower case, between two word
    boundaries. *)
Definition holds_word (text w : jsstring) : Prop :=
  exists pre w' post,
    text = pre ++ w' ++ post
    /\ map upper_char w' = map upper_char w
    /\ is_word_opt (hd_error (rev pre)) = false
    /\ is_word_opt (hd_error post) = false.

Inductive Mode : Type :=
| JsonToolMode          (* chatWithJsonTools *)
| TabularToolMode       (* chatWithCsvTools *)
| CodeExecutionMode     (* streamChat, useCodeExecution = true *)
| SearchMode.           (* streamChat, useCodeExecution = false *)

Definition some {A} (o : option A) : bool :=
  match o with Some _ => true | None => false end.

(** At most one of two attachment contexts is loaded. *)
Definition at_most_one {A B} (a : option A) (b : option B) : Prop :=
  a = None \/ b = None.

Record Routing : Type := MkRouting {
  wantPythonOnly : bool;
  wantCode : bool;
  hasCsvInSession : bool;
  needsBase64 : bool;
  hasJsonInSession : bool;
  useJsonTools : bool;
  useTools : bool;
  useCodeExecution : bool
}.

Section Routing.

(** What the component holds when a message is sent: the pending
    attachment chips and the session data; [None] is [null]. *)
Context {CsvRows JsonContext : Type}.
Variable csvContext : option CsvContext.
Variable jsonContext : option JsonContext.
Variable sessionCsvRows : option CsvRows.
Variable sessionJsonData : option (list record).

Definition routing (input : jsstring) : Routing :=
  let text := trim input in
  let wantPythonOnly := test true PYTHON_ONLY_KEYWORDS text in
  let wantCode := test true Gemini.CODE_KEYWORDS text && negb (some sessionCsvRows) in
  let capturedCsv := csvContext in
  let hasCsvInSession := some sessionCsvRows || some capturedCsv in
  let needsBase64 := some capturedCsv && wantPythonOnly in
  let capturedJson := jsonContext in
  let hasJsonInSession := some sessionJsonData || some capturedJson in
  let useJsonTools := some sessionJsonData && negb wantCode in
  let useTools := some sessionCsvRows && negb wantPythonOnly && negb wantCode
                  && negb (some capturedCsv) && negb useJsonTools in
  let useCodeExecution := wantPythonOnly || (wantCode && negb useJsonTools) in
  MkRouting wantPythonOnly wantCode hasCsvInSession needsBase64
            hasJsonInSession useJsonTools useTools useCodeExecution.

(** The branch the send takes: [if (useJsonTools) ... else if (useTools)
    ... else streamChat(..., useCodeExecution)]. *)
Definition mode (input : jsstring) : Mode :=
  let r := routing input in
  if useJsonTools r then JsonToolMode
  else if useTools r then TabularToolMode
  else if useCodeExecution r then CodeExecutionMode
  else SearchMode.

End Routing.

End Chat.

(* ===================================================================== *)
(** ** Shapes of texts and results, for the statements below *)
(* ===================================================================== *)

Module Shapes.

Import JsonTools Gemini Chat.

(** A text of decimal digits, at least one. *)
Definition digits (ds : jsstring) : Prop :=
  ds <> [] /\ forallb is_digit ds = true.

(** What /(?:(\d+)X)?/ does to a matcher state: the digits ahead and the
    letter X after them are passed and the digits are captured, or the
    state is left as it is. *)
Definition unit_step (n : nat) (x : jschar) (st : mstate) : mstate :=
  match take_digits (after st) with
  | (d :: ds, c :: rest) =>
      if N.eqb c x
      then MState (c :: rev (d :: ds) ++ before st) rest ((n, d :: ds) :: caps st)
      else st
  | _ => st
  end.

(** The part of an ISO-8601 duration for one unit: digits and the letter
    of the unit, or nothing. *)
Definition unit_text (n : option jsstring) (u : string) : jsstring :=
  match n with
  | Some ds => ds ++ js u
  | None => []
  end.

Definition unit_value (n : option jsstring) : Z :=
  match n with
  | Some ds => digits_val 0 ds
  | None => 0%Z
  end.

Definition digits_or_none (n : option jsstring) : Prop :=
  match n with
  | Some ds => digits ds
  | None => True
  end.

(** The card [play_video] returns for a record, and its error for a
    selector that selects none. *)
Definition video_card (video : record) : ToolResult :=
  RVideo
    (or_else (get video (js "title")) (VStr (js "Untitled")))
    (or_else (get video (js "thumbnail_url")) VNull)
    (or_else (get video (js "video_url"))
       (VStr (js "https://www.youtube.com/watch?v="
              ++ ToString (get video (js "video_id"))))).

Definition video_not_found (selector : option jsstring) : ToolResult :=
  RError (js "Video not found for " ++ quoted (prop_key selector)
          ++ js ". Try " ++ quoted (js "first") ++ js ", "
          ++ quoted (js "most viewed") ++ js ", or a title keyword.").

(** A record whose title is a text, or that has none. *)
Definition title_is_text (v : record) : Prop :=
  match get v (js "title") with
  | VStr _ | VUndef | VNull => True
  | _ => False
  end.

(** The suffixes an ordinal may carry. *)
Definition ORDINAL_SUFFIXES : list jsstring :=
  [[]; js "st"; js "nd"; js "rd"; js "th"].

(** A character of the base64 alphabet, or the padding sign. *)
Definition base64_symbol (c : jschar) : bool :=
  in_range 65 90 c || in_range 97 122 c || in_range 48 57 c
  || N.eqb c 43 || N.eqb c 47 || N.eqb c 61.

(** What the generative JSON loop keeps true of its state: one record for
    each round served, each holding what the executor gave for its call,
    and the charts and images those of the records, in their order. *)
Definition records_kept {ToolArgs ToolResult Chat : Type}
    (executeFn : jsstring -> ToolArgs -> ToolResult)
    (chartType generatedImage : ToolResult -> bool)
    (st : JsonLoopState ToolArgs ToolResult Chat) : Prop :=
  length (jtoolCalls st) = jround st
  /\ Forall (fun c => call_result c = executeFn (call_name c) (call_args c))
            (jtoolCalls st)
  /\ jcharts st = filter chartType (map call_result (jtoolCalls st))
  /\ jgeneratedImages st
     = filter generatedImage (map call_result (jtoolCalls st)).

End Shapes.

(* ===================================================================== *)
(** ** server/index.js: durations and the size of a download *)
(* ===================================================================== *)

Module Server.

Import JsonTools Gemini Chat.

(** /PT(?:(\d+)H)?(?:(\d+)M)?(?:(\d+)S)?/, the pattern of
    [durationToSeconds] again. *)
Definition ISO_DURATION : re :=
  Seq (lit "PT")
   (Seq (Opt (Seq (Grp 1 digits1) (lit "H")))
    (Seq (Opt (Seq (Grp 2 digits1) (lit "M")))
         (Opt (Seq (Grp 3 digits1) (lit "S"))))).

(** [String(n)] and [n + ':'] for what [parseInt] gave. *)
Definition int_text (n : option Z) : jsstring :=
  match n with
  | Some z => Number_toString (inject_Z z)
  | None => js "NaN"
  end.

(** [h > 0] and the truth value of [h]; both fail on NaN. *)
Definition is_positive (n : option Z) : bool :=
  match n with
  | Some z => (0 <? z)%Z
  | None => false
  end.

Definition is_nonzero (n : option Z) : bool :=
  match n with
  | Some z => negb (z =? 0)%Z
  | None => false
  end.

(** [s.padStart(n, '0')] *)
Definition padStart (n : nat) (s : jsstring) : jsstring :=
  repeat 48%N (n - length s) ++ s.

(** [iso] is [None] when the field is missing. *)
Definition parseDuration (iso : option jsstring) : option jsstring :=
  match iso with
  | None | Some [] => None
  | Some iso =>
      match exec false ISO_DURATION iso with
      | None => Some iso
      | Some mt =>
          let h := group_int 1 mt in
          let m := group_int 2 mt in
          let s := group_int 3 mt in
          Some ((if is_positive h then int_text h ++ js ":" else [])
                ++ padStart (if is_nonzero h then 2 else 1) (int_text m)
                ++ js ":" ++ padStart 2 (int_text s))
      end
  end.

(** [Math.min(Math.max(parseInt(maxVideos, 10) || 10, 1), 100)], where
    [maxVideos] is the query parameter, 10 when the query has none. *)
Definition max_videos (maxVideos : option jsstring) : Z :=
  let parsed :=
    match maxVideos with
    | Some s => parseInt (VStr s)
    | None => parseInt (VNum (inject_Z 10))
    end in
  let n :=
    match parsed with
    | Some z => if (z =? 0)%Z then 10%Z else z
    | None => 10%Z
    end in
  Z.min (Z.max n 1) 100.

(** The clock text for hours, minutes and seconds: h:mm:ss, or m:ss
    when there is no hour. *)
Definition clock_text (h m s : Z) : jsstring :=
  (if (0 <? h)%Z then Number_toString (inject_Z h) ++ js ":" else [])
  ++ padStart (if (h =? 0)%Z then 1 else 2) (Number_toString (inject_Z m))
  ++ js ":" ++ padStart 2 (Number_toString (inject_Z s)).

End Server.

(* ===================================================================== *)
(** ** components/Chat.js: attachments, sessions and dates *)
(* ===================================================================== *)

Module ChatState.

Import JsonTools Gemini Chat.

(** A dropped or selected file, with what [fileToText] and
    [fileToBase64] read of it. *)
Record File : Type := MkFile {
  file_name : jsstring;
  file_type : jsstring;
  file_text : jsstring;
  file_base64 : jsstring
}.

Record Image : Type := MkImage {
  image_data : jsstring;
  image_mimeType : jsstring;
  image_name : jsstring
}.

(** The pending chip of a JSON attachment. *)
Record JsonChip : Type := MkJsonChip {
  chip_name : jsstring;
  videoCount : nat;
  chip_fields : list jsstring
}.

Record Session : Type := MkSession {
  session_id : jsstring;
  session_title : jsstring;
  session_createdAt : jsstring;
  messageCount : nat
}.

(** [s.endsWith(suffix)] *)
Definition endsWith (s suffix : jsstring) : bool :=
  startsWith (rev s) (rev suffix).

Definition is_csv (f : File) : bool :=
  endsWith (file_name f) (js ".csv") || jseqb (file_type f) (js "text/csv").

Definition is_json (f : File) : bool :=
  endsWith (file_name f) (js ".json")
  || jseqb (file_type f) (js "application/json").

Definition is_image (f : File) : bool :=
  startsWith (file_type f) (js "image/").

(** [Array.isArray(data.videos) ? data.videos : (Array.isArray(data) ?
    data : [])]; reading [videos] of null throws, which is [None]. *)
Definition videos_of (data : Json) : option (list Json) :=
  match data with
  | JNull => None
  | JObj f =>
      match lookup (js "videos") f with
      | Some (JArr l) => Some l
      | _ => Some []
      end
  | JArr l => Some l
  | JBool _ | JNum _ | JStr _ => Some []
  end.

(** [videos.length ? Object.keys(videos[0]) : []]; the keys of null
    throw. *)
Definition fields_of (videos : list Json) : option (list jsstring) :=
  match videos with
  | [] => Some []
  | JNull :: _ => None
  | v :: _ => Some (map fst (entries v))
  end.

Section Component.

(** What services/csvTools.js gives: parsed rows and headers, their
    enrichment, the dataset summary and the slim CSV text. *)
Variable Rows Headers Summary Message : Type.
Variable parseCsvToRows : jsstring -> Rows * Headers.
Variable enrichWithEngagement : Rows -> Headers -> Rows * Headers.
Variable computeDatasetSummary : Rows -> Headers -> Summary.
Variable buildSlimCsv : Rows -> Headers -> jsstring.

(** [JSON.parse], [None] where it throws. *)
Variable JSON_parse : jsstring -> option Json.

(** The state of the component that the handlers below set; [None] is
    [null]. *)
Record State : Type := MkState {
  sessions : list Session;
  activeSessionId : option jsstring;
  messages : list Message;
  input : jsstring;
  images : list Image;
  csvContext : option (jsstring * CsvContext);
  sessionCsvRows : option Rows;
  sessionCsvHeaders : option Headers;
  csvDataSummary : option Summary;
  sessionSlimCsv : option jsstring;
  jsonContext : option JsonChip;
  sessionJsonData : option (list Json)
}.

Definition handleNewChat (s : State) : State :=
  {| sessions := sessions s;
     activeSessionId := Some (js "new");
     messages := [];
     input := [];
     images := [];
     csvContext := None;
     sessionCsvRows := None;
     sessionCsvHeaders := None;
     csvDataSummary := csvDataSummary s;
     sessionSlimCsv := sessionSlimCsv s;
     jsonContext := None;
     sessionJsonData := None |}.

Definition is_active (s : State) (sessionId : jsstring) : bool :=
  match activeSessionId s with
  | Some a => jseqb sessionId a
  | None => false
  end.

Definition handleSelectSession (sessionId : jsstring) (s : State) : State :=
  if is_active s sessionId then s
  else
    {| sessions := sessions s;
       activeSessionId := Some sessionId;
       messages := messages s;
       input := [];
       images := [];
       csvContext := None;
       sessionCsvRows := None;
       sessionCsvHeaders := None;
       csvDataSummary := csvDataSummary s;
       sessionSlimCsv := sessionSlimCsv s;
       jsonContext := None;
       sessionJsonData := None |}.

(** [handleDeleteSession], from the answer of [deleteSession] on. *)
Definition handleDeleteSession (sessionId : jsstring) (s : State) : State :=
  let remaining :=
    filter (fun x => negb (jseqb (session_id x) sessionId)) (sessions s) in
  let deleted_active := is_active s sessionId in
  {| sessions := remaining;
     activeSessionId :=
       if deleted_active
       then match remaining with
            | first :: _ => Some (session_id first)
            | [] => Some (js "new")
            end
       else activeSessionId s;
     messages := if deleted_active then [] else messages s;
     input := input s;
     images := images s;
     csvContext := csvContext s;
     sessionCsvRows := sessionCsvRows s;
     sessionCsvHeaders := sessionCsvHeaders s;
     csvDataSummary := csvDataSummary s;
     sessionSlimCsv := sessionSlimCsv s;
     jsonContext := jsonContext s;
     sessionJsonData := sessionJsonData s |}.

(** The three steps of [handleDrop] and of [handleFileSelect]: the first
    JSON file, the first CSV file, the images. *)
Definition take_json (file : File) (s : State) : State :=
  match JSON_parse (file_text file) with
  | None => s
  | Some data =>
      match videos_of data with
      | None => s
      | Some videos =>
          match fields_of videos with
          | None => s
          | Some fields =>
              {| sessions := sessions s;
                 activeSessionId := activeSessionId s;
                 messages := messages s;
                 input := input s;
                 images := images s;
                 csvContext := None;
                 sessionCsvRows := None;
                 sessionCsvHeaders := None;
                 csvDataSummary := csvDataSummary s;
                 sessionSlimCsv := sessionSlimCsv s;
                 jsonContext :=
                   Some (MkJsonChip (file_name file) (length videos) fields);
                 sessionJsonData := Some videos |}
          end
      end
  end.

Definition take_csv (file : File) (s : State) : State :=
  match parseCSV (file_text file) with
  | None => s
  | Some parsed =>
      let raw := parseCsvToRows (file_text file) in
      let enriched := enrichWithEngagement (fst raw) (snd raw) in
      let rows := fst enriched in
      let headers := snd enriched in
      {| sessions := sessions s;
         activeSessionId := activeSessionId s;
         messages := messages s;
         input := input s;
         images := images s;
         csvContext := Some (file_name file, parsed);
         sessionCsvRows := Some rows;
         sessionCsvHeaders := Some headers;
         csvDataSummary := Some (computeDatasetSummary rows headers);
         sessionSlimCsv := Some (buildSlimCsv rows headers);
         jsonContext := None;
         sessionJsonData := None |}
  end.

Definition take_images (files : list File) (s : State) : State :=
  {| sessions := sessions s;
     activeSessionId := activeSessionId s;
     messages := messages s;
     input := input s;
     images :=
       images s
       ++ map (fun f => MkImage (file_base64 f) (file_type f) (file_name f)) files;
     csvContext := csvContext s;
     sessionCsvRows := sessionCsvRows s;
     sessionCsvHeaders := sessionCsvHeaders s;
     csvDataSummary := csvDataSummary s;
     sessionSlimCsv := sessionSlimCsv s;
     jsonContext := jsonContext s;
     sessionJsonData := sessionJsonData s |}.

Definition handleDrop (files : list File) (s : State) : State :=
  let csvFiles := filter is_csv files in
  let jsonFiles := filter is_json files in
  let imageFiles := filter is_image files in
  let s := match jsonFiles with file :: _ => take_json file s | [] => s end in
  let s := match csvFiles with file :: _ => take_csv file s | [] => s end in
  match imageFiles with
  | _ :: _ => take_images imageFiles s
  | [] => s
  end.

Definition handleFileSelect (files : list File) (s : State) : State :=
  let csvFiles := filter is_csv files in
  let jsonFiles := filter is_json files in
  let imageFiles := filter is_image files in
  let s := match jsonFiles with file :: _ => take_json file s | [] => s end in
  let s := match csvFiles with file :: _ => take_csv file s | [] => s end in
  match imageFiles with
  | _ :: _ => take_images imageFiles s
  | [] => s
  end.

(** The session data and the chips agree: at most one kind of data is
    loaded, and a chip is pending only for the data that is. *)
Definition coherent (s : State) : Prop :=
  at_most_one (sessionCsvRows s) (sessionJsonData s)
  /\ (csvContext s <> None -> sessionCsvRows s <> None)
  /\ (jsonContext s <> None -> sessionJsonData s <> None).

(** The active session is the unsaved chat, or one of the list. *)
Definition active_listed (s : State) : Prop :=
  match activeSessionId s with
  | Some a => a = js "new" \/ In a (map session_id (sessions s))
  | None => True
  end.

End Component.

Section Dates.

(** [new Date(dateStr).getTime()], [None] for an invalid date, the
    clock [Date.now()], and the two locale formats. *)
Variable Date_time : jsstring -> option Z.
Variable now : Z.
Variable toLocaleTimeString : jsstring -> jsstring.
Variable toLocaleDateString : jsstring -> jsstring.

Definition MIDDLE_DOT : jsstring := js " " ++ [183%N] ++ js " ".

Definition formatDate (dateStr : jsstring) : jsstring :=
  let d := Date_time dateStr in
  let diffDays := option_map (fun t => ((now - t) / 86400000)%Z) d in
  let time := toLocaleTimeString dateStr in
  match diffDays with
  | Some 0%Z => js "Today" ++ MIDDLE_DOT ++ time
  | Some 1%Z => js "Yesterday" ++ MIDDLE_DOT ++ time
  | _ => toLocaleDateString dateStr ++ MIDDLE_DOT ++ time
  end.

End Dates.

End ChatState.

(* ===================================================================== *)
(** ** components/YouTubeDownload.js: the progress stream of a download *)
(* ===================================================================== *)

Module YouTubeDownload.

Import JsonTools Gemini Chat.

(** [Math.min(Math.max(parseInt(maxVideos, 10) || 10, 1), 100)], on the
    value the form holds: the number 10 at first, then the text of the
    input field. *)
Definition requested_videos (maxVideos : JsVal) : Z :=
  let n :=
    match parseInt maxVideos with
    | Some z => if (z =? 0)%Z then 10%Z else z
    | None => 10%Z
    end in
  Z.min (Z.max n 1) 100.

(** What the component shows of a download. *)
Record Progress : Type := MkProgress {
  progress : Json;
  stage : Json;
  result : option Json;
  downloadReady : bool;
  gotResult : bool
}.

Definition END_OF_INPUT : jsstring := js "Unexpected end of JSON input".

(** [e.message && e.message !== 'Unexpected end of JSON input']: the
    inner catch throws the exception again. *)
Definition thrown_again (message : jsstring) : bool :=
  truthy_str message && negb (jseqb message END_OF_INPUT).

(** [obj.k], [None] when it is undefined. *)
Definition member (k : string) (obj : Json) : option Json :=
  match obj with
  | JObj f => lookup (js k) f
  | _ => None
  end.

Definition truthy_member (k : string) (obj : Json) : bool :=
  match member k obj with
  | Some v => json_truthy v
  | None => false
  end.

Section Reading.

(** [JSON.parse], with the message of the SyntaxError where it throws,
    and [String(v)] of a parsed value. *)
Variable JSON_parse : jsstring -> Json + jsstring.
Variable String_of : Json -> jsstring.

(** The statements after [if (obj.error) throw ...]. *)
Definition show (obj : Json) (st : Progress) : Progress :=
  let st :=
    match member "progress" obj with
    | Some p => MkProgress p (stage st) (result st) (downloadReady st) (gotResult st)
    | None => st
    end in
  let st :=
    match member "stage" obj with
    | Some v =>
        if json_truthy v
        then MkProgress (progress st) v (result st) (downloadReady st) (gotResult st)
        else st
    | None => st
    end in
  if truthy_member "done" obj && truthy_member "data" obj
  then MkProgress (progress st) (stage st) (member "data" obj) true true
  else st.

(** The body of [for (const line of lines)]. *)
Definition handle_line (st : Progress) (line : jsstring) : outcome Progress :=
  if startsWith line (js "data: ") then
    match JSON_parse (skipn 6 line) with
    | inr message => if thrown_again message then Throw message else Ret st
    | inl JNull => Throw (js "Cannot read properties of null (reading 'error')")
    | inl obj =>
        match member "error" obj with
        | Some e =>
            if json_truthy e
            then if thrown_again (String_of e) then Throw (String_of e) else Ret st
            else Ret (show obj st)
        | None => Ret (show obj st)
        end
    end
  else Ret st.

Fixpoint handle_lines (st : Progress) (lines : list jsstring)
  : outcome Progress :=
  match lines with
  | [] => Ret st
  | line :: rest => st' <- handle_line st line ;; handle_lines st' rest
  end.

(** [while (true) { ... }] over the chunks the reader gives, each
    already decoded, from the buffer and the state at the top of the
    loop. *)
Fixpoint read_loop (buffer : jsstring) (st : Progress) (chunks : list jsstring)
  : outcome Progress :=
  match chunks with
  | [] => Ret st
  | value :: rest =>
      let buffer := buffer ++ value in
      let lines := split 10%N buffer in
      let buffer := last lines [] in            (* lines.pop() || '' *)
      let lines := removelast lines in
      st' <- handle_lines st lines ;;
      read_loop buffer st' rest
  end.

Definition read (chunks : list jsstring) (st : Progress) : outcome Progress :=
  st' <- read_loop [] st chunks ;;
  if gotResult st' then Ret st'
  else Throw (js "Incomplete response from server. Check that YouTube API key is configured.").

End Reading.

End YouTubeDownload.

(* ===================================================================== *)
(** ** services/gemini.js: the other two tool-call loops *)
(* ===================================================================== *)

Module GeminiMore.

Import JsonTools Gemini Chat.

Local Open Scope nat_scope.

Section JsonCompletions.

(** The tool side of [chatWithJsonToolsOpenAI]: the executor, with a
    promise it returns already awaited, and what the loop reads of a
    result. *)
Variable ToolArgs : Type.
Variable ToolResult : Type.
Variable executeFn : option jsstring -> ToolArgs -> ToolResult.
Variable chartType : ToolResult -> bool.        (* toolResult?._chartType *)
(** [toolResult?._imageType === 'generated' && toolResult.data] *)
Variable generatedImage : ToolResult -> bool.
Variable JSON_parse : jsstring -> option ToolArgs.
Variable JSON_stringify : ToolResult -> jsstring.
Variable Provider : Type.
Variable Tools : Type.
Variable create : Provider -> Request Tools -> option Reply * Provider.

Record RecordsState : Type := MkRecordsState {
  records_round : nat;
  records_response : option Reply;
  records_provider : Provider;
  records_charts : list ToolResult;
  records_toolCalls : list (ToolCallRecord ToolArgs ToolResult);
  records_generatedImages : list ToolResult
}.

(** [for (let round = 0; round < 8; round++) { ... }] of
    [chatWithJsonToolsOpenAI], from the state at the loop test. *)
Equations? records_loop (messages : list Message) (tools : Tools)
  (st : RecordsState) : outcome RecordsState
  by wf (JSON_ROUNDS - records_round st) lt :=
  records_loop messages tools st with lt_dec (records_round st) JSON_ROUNDS => {
    | right _ => Ret st
    | left _ with requested (records_response st) => {
        | [] => Ret st                                (* break *)
        | tc :: tcs
          with run_calls executeFn JSON_parse JSON_stringify (tc :: tcs) => {
            | Throw e => Throw e
            | Ret (records, tool_messages) =>
                let messagesWithAssistant :=
                  messages
                  ++ [MsgAssistant (content_or_null (records_response st))
                        (tc :: tcs)]
                  ++ tool_messages in
                let next := create (records_provider st)
                              (MkRequest messagesWithAssistant (Some tools)) in
                records_loop messages tools
                  {| records_round := S (records_round st);
                     records_response := fst next;
                     records_provider := snd next;
                     records_charts :=
                       records_charts st
                       ++ filter chartType (map result records);
                     records_toolCalls := records_toolCalls st ++ records;
                     records_generatedImages :=
                       records_generatedImages st
                       ++ filter generatedImage (map result records) |}
          }
      }
  }.
Proof.
  unfold JSON_ROUNDS in *.
  destruct (records_round st) as [|[|[|[|[|[|[|[|n]]]]]]]]; simpl; lia.
Qed.

Record RecordsResult : Type := MkRecordsResult {
  records_text : jsstring;
  result_charts : list ToolResult;
  result_toolCalls : list (ToolCallRecord ToolArgs ToolResult);
  result_generatedImages : list ToolResult
}.

(** The state before the first test of the loop. *)
Definition records_start (messages : list Message) (tools : Tools)
  (p : Provider) : RecordsState :=
  let first := create p (MkRequest messages (Some tools)) in
  {| records_round := 0; records_response := fst first;
     records_provider := snd first; records_charts := [];
     records_toolCalls := []; records_generatedImages := [] |}.

(** [chatWithJsonToolsOpenAI], from the messages [buildMessages] gives;
    [tools] is [toOpenAITools(ALL_JSON_TOOLS)]. *)
Definition chatWithJsonToolsOpenAI (messages : list Message) (tools : Tools)
  (p : Provider) : outcome RecordsResult :=
  st <- records_loop messages tools (records_start messages tools p) ;;
  Ret {| records_text := final_text (records_response st);
         result_charts := records_charts st;
         result_toolCalls := records_toolCalls st;
         result_generatedImages := records_generatedImages st |}.

End JsonCompletions.

Arguments MkRecordsState {ToolArgs ToolResult Provider}.
Arguments records_round {ToolArgs ToolResult Provider}.
Arguments records_response {ToolArgs ToolResult Provider}.
Arguments records_provider {ToolArgs ToolResult Provider}.
Arguments records_charts {ToolArgs ToolResult Provider}.
Arguments records_toolCalls {ToolArgs ToolResult Provider}.
Arguments records_generatedImages {ToolArgs ToolResult Provider}.
Arguments MkRecordsResult {ToolArgs ToolResult}.
Arguments records_text {ToolArgs ToolResult}.
Arguments result_charts {ToolArgs ToolResult}.
Arguments result_toolCalls {ToolArgs ToolResult}.
Arguments result_generatedImages {ToolArgs ToolResult}.
Arguments records_loop {ToolArgs ToolResult} executeFn chartType generatedImage
  JSON_parse JSON_stringify {Provider Tools} create messages tools st.
Arguments records_start {ToolArgs ToolResult Provider Tools} create messages
  tools p.
Arguments chatWithJsonToolsOpenAI {ToolArgs ToolResult} executeFn chartType
  generatedImage JSON_parse JSON_stringify {Provider Tools} create messages
  tools p.

Section CsvGenerative.

Variable ToolArgs : Type.
Variable ToolResult : Type.
Variable executeFn : jsstring -> ToolArgs -> ToolResult.
Variable chartType : ToolResult -> bool.        (* toolResult?._chartType *)
Variable Chat : Type.
Variable sendMessage : Chat -> Sent ToolResult -> list (Part ToolArgs) * Chat.

Record RowsState : Type := MkRowsState {
  rows_round : nat;
  rows_response : list (Part ToolArgs);
  rows_chat : Chat;
  rows_charts : list ToolResult;
  rows_toolCalls : list (CallRecord ToolArgs ToolResult)
}.

(** [for (let round = 0; round < 5; round++) { ... }] of
    [chatWithCsvToolsGemini], from the state at the loop test. *)
Equations? rows_loop (st : RowsState) : RowsState
  by wf (CSV_ROUNDS - rows_round st) lt :=
  rows_loop st with lt_dec (rows_round st) CSV_ROUNDS => {
    | right _ => st
    | left _ with find_call (rows_response st) => {
        | None => st                                  (* break *)
        | Some (name, args) =>
            let toolResult := executeFn name args in
            let next := sendMessage (rows_chat st)
                          (SendFunctionResponse name toolResult) in
            rows_loop
              {| rows_round := S (rows_round st);
                 rows_response := fst next;
                 rows_chat := snd next;
                 rows_charts :=
                   rows_charts st
                   ++ (if chartType toolResult then [toolResult] else []);
                 rows_toolCalls :=
                   rows_toolCalls st ++ [MkCallRecord name args toolResult] |}
      }
  }.
Proof.
  unfold CSV_ROUNDS in *.
  destruct (rows_round st) as [|[|[|[|[|n]]]]]; simpl; lia.
Qed.

Record RowsResult : Type := MkRowsResult {
  rows_text : jsstring;
  rows_result_charts : list ToolResult;
  rows_result_toolCalls : list (CallRecord ToolArgs ToolResult)
}.

Definition rows_start (chat : Chat) (msgWithContext : jsstring) : RowsState :=
  let first := sendMessage chat (SendText msgWithContext) in
  {| rows_round := 0; rows_response := fst first; rows_chat := snd first;
     rows_charts := []; rows_toolCalls := [] |}.

(** [chatWithCsvToolsGemini], from the chat session and the message with
    its line of columns. *)
Definition chatWithCsvToolsGemini (chat : Chat) (msgWithContext : jsstring)
  : RowsResult :=
  let st := rows_loop (rows_start chat msgWithContext) in
  {| rows_text := response_text (rows_response st);
     rows_result_charts := rows_charts st;
     rows_result_toolCalls := rows_toolCalls st |}.

End CsvGenerative.

Arguments MkRowsState {ToolArgs ToolResult Chat}.
Arguments rows_round {ToolArgs ToolResult Chat}.
Arguments rows_response {ToolArgs ToolResult Chat}.
Arguments rows_chat {ToolArgs ToolResult Chat}.
Arguments rows_charts {ToolArgs ToolResult Chat}.
Arguments rows_toolCalls {ToolArgs ToolResult Chat}.
Arguments MkRowsResult {ToolArgs ToolResult}.
Arguments rows_text {ToolArgs ToolResult}.
Arguments rows_result_charts {ToolArgs ToolResult}.
Arguments rows_result_toolCalls {ToolArgs ToolResult}.
Arguments rows_loop {ToolArgs ToolResult} executeFn chartType {Chat}
  sendMessage st.
Arguments rows_start {ToolArgs ToolResult Chat} sendMessage chat msgWithContext.
Arguments chatWithCsvToolsGemini {ToolArgs ToolResult} executeFn chartType
  {Chat} sendMessage chat msgWithContext.

End GeminiMore.

(* ===================================================================== *)
(** ** components/Chat.js: the text sent with a message *)
(* ===================================================================== *)

Module ChatPrompt.

Import JsonTools Gemini Chat.

Import ChatState.

(** The em dash of the templates, and the line feed. *)
Definition EM_DASH : jsstring := [8212%N].
Definition LF : jsstring := [10%N].

Section Prompt.

(** The dataset summary is a text and the headers are an array of
    names, as the templates use them. *)
Variable Rows Message : Type.

(** [csvDataSummary || ''] *)
Definition sessionSummary
    (s : State Rows (list jsstring) jsstring Message) : jsstring :=
  match csvDataSummary _ _ _ _ s with
  | Some summary => summary
  | None => []
  end.

(** [sessionSlimCsv ? `\n\nFull dataset (key columns):\n```csv\n${...}\n```` : ''] *)
Definition slimCsvBlock
    (s : State Rows (list jsstring) jsstring Message) : jsstring :=
  match sessionSlimCsv _ _ _ _ s with
  | Some slim =>
      if truthy_str slim
      then LF ++ LF ++ js "Full dataset (key columns):" ++ LF
           ++ js "```csv" ++ LF ++ slim ++ LF ++ js "```"
      else []
  | None => []
  end.

(** [[CSV File: "${name}" | ${rowCount} rows | Columns: ${headers.join(', ')}]] *)
Definition csv_file_line (capturedCsv : jsstring * CsvContext) : jsstring :=
  js "[CSV File: " ++ quoted (fst capturedCsv) ++ js " | "
  ++ nat_digits (N.of_nat (rowCount (snd capturedCsv))) ++ js " rows | Columns: "
  ++ join (js ", ") (headers (snd capturedCsv)) ++ js "]".

(** [sessionCsvHeaders?.join(', ')] inside a template. *)
Definition session_columns
    (s : State Rows (list jsstring) jsstring Message) : jsstring :=
  match sessionCsvHeaders _ _ _ _ s with
  | Some names => join (js ", ") names
  | None => js "undefined"
  end.

(** The [csvPrefix] of [handleSend], for the text of the input field. *)
Definition csvPrefix
    (s : State Rows (list jsstring) jsstring Message) (input : jsstring)
    : jsstring :=
  let text := trim input in
  let wantPythonOnly := test true PYTHON_ONLY_KEYWORDS text in
  let capturedCsv := csvContext _ _ _ _ s in
  let needsBase64 := some capturedCsv && wantPythonOnly in
  match capturedCsv with
  | Some csv =>
      if needsBase64
      then csv_file_line csv ++ LF ++ LF
           ++ sessionSummary s ++ slimCsvBlock s ++ LF ++ LF
           ++ js "IMPORTANT " ++ EM_DASH
           ++ js " to load the full data in Python use this exact pattern:" ++ LF
           ++ js "```python" ++ LF
           ++ js "import pandas as pd, io, base64" ++ LF
           ++ js "df = pd.read_csv(io.BytesIO(base64.b64decode("
           ++ quoted (base64 (snd csv)) ++ js ")))" ++ LF
           ++ js "```" ++ LF ++ LF
           ++ js "---" ++ LF ++ LF
      else csv_file_line csv ++ LF ++ LF
           ++ sessionSummary s ++ slimCsvBlock s ++ LF ++ LF
           ++ js "---" ++ LF ++ LF
  | None =>
      if truthy_str (sessionSummary s)
      then js "[CSV columns: " ++ session_columns s ++ js "]" ++ LF ++ LF
           ++ sessionSummary s ++ LF ++ LF ++ js "---" ++ LF ++ LF
      else []
  end.

End Prompt.

End ChatPrompt.

(* ===================================================================== *)
(** ** Hosts for closed examples *)
(* ===================================================================== *)

Module ExampleHost.

Local Open Scope Z_scope.

Definition is_leap (y : Z) : bool :=
  ((y mod 4 =? 0) && negb (y mod 100 =? 0)) || (y mod 400 =? 0).

Definition days_in_month (y m : Z) : Z :=
  if m =? 2 then (if is_leap y then 29 else 28)
  else if (m =? 4) || (m =? 6) || (m =? 9) || (m =? 11) then 30
  else 31.

(** Days from 1970-01-01 to a civil date. *)
Definition days_from_civil (y m d : Z) : Z :=
  let y' := if m <=? 2 then y - 1 else y in
  let era := y' / 400 in
  let yoe := y' - era * 400 in
  let doy := (153 * (if 2 <? m then m - 3 else m + 9) + 2) / 5 + d - 1 in
  let doe := yoe * 365 + yoe / 4 - yoe / 100 + doy in
  era * 146097 + doe - 719468.

(** The date-only form YYYY-MM-DD of the ECMAScript date-time format, at
    midnight UTC. *)
Definition parse_date_only (s : jsstring) : option Z :=
  match s with
  | [y1; y2; y3; y4; 45%N; m1; m2; 45%N; d1; d2] =>
      if forallb is_digit [y1; y2; y3; y4; m1; m2; d1; d2] then
        let y := digits_val 0 [y1; y2; y3; y4] in
        let m := digits_val 0 [m1; m2] in
        let d := digits_val 0 [d1; d2] in
        if (1 <=? m) && (m <=? 12) && (1 <=? d) && (d <=? days_in_month y m)
        then Some (days_from_civil y m d * 86400000)
        else None
      else None
  | _ => None
  end.

(** [new Date(v).getTime()] of a host that reads millisecond timestamps
    and date-only ISO strings and takes every other value for an invalid
    date. *)
Definition Date_time (v : JsVal) : option Z :=
  match v with
  | VNum q =>
      if Qle_bool (Qabs q) (inject_Z 8640000000000000)
      then Some (Qtruncate q) else None
  | VStr s => parse_date_only s
  | _ => None
  end.

(** A host that labels a date by its text. *)
Definition toLocaleDateString (v : JsVal) : jsstring := ToString v.

(** A [JSON.parse] that knows the text of the empty object and throws on
    every other text. *)
Definition JSON_parse_empty_object (s : jsstring) : option unit :=
  if jseqb (trim s) (js "{}") then Some tt else None.

End ExampleHost.

(** Records for closed examples: a title, a view count, a thumbnail and a
    link. *)
Module Examples.

Import JsonTools.
Local Open Scope string_scope.
Local Open Scope list_scope.

Definition card (t : string) (views : Z) : record :=
  [(js "title", VStr (js t));
   (js "view_count", VNum (inject_Z views));
   (js "thumbnail_url", VStr (js "thumb-" ++ js t));
   (js "video_url", VStr (js "https://youtu.be/" ++ js t))].

Definition abc : list record := [card "A" 10; card "B" 30; card "C" 20].

Definition select (s : string) : Args := MkArgs None None None (Some (js s)).

Definition shown (t : string) : ToolResult :=
  RVideo (VStr (js t)) (VStr (js "thumb-" ++ js t))
         (VStr (js "https://youtu.be/" ++ js t)).

(** Three records by release date, the second with no date text. *)
Definition dated (t d : string) (views : Z) : record :=
  [(js "title", VStr (js t));
   (js "release_date", VStr (js d));
   (js "view_count", VNum (inject_Z views))].

Definition undated_between : list record :=
  [dated "A" "2024-01-02" 10; dated "B" "" 30; dated "C" "2024-01-01" 20].

Definition plot (metric : string) : Args :=
  MkArgs None (Some (js metric)) None None.

(** A provider that answers every request with one call of one tool,
    with the arguments text given; a chat that answers every message
    with one function call; an executor with nothing to say. *)
Definition calling (arguments : string) (p : unit) (req : Gemini.Request unit)
  : option Gemini.Reply * unit :=
  (Some {| Gemini.content := None;
           Gemini.tool_calls :=
             [Gemini.MkToolCall (js "call_1") (Some (js "top_n"))
                (Some (js arguments))] |},
   tt).

Definition calling_chat (c : unit) (m : Gemini.Sent unit)
  : list (Gemini.Part unit) * unit :=
  ([Gemini.MkPart None (Some (js "play_video", tt))], tt).

Definition silent (name : option jsstring) (a : unit) : unit := tt.
Definition silent_named (name : jsstring) (a : unit) : unit := tt.
Definition no_chart (r : unit) : bool := false.
Definition no_text (r : unit) : jsstring := js "{}".

(** A CSV text of one line, 499999 letters and then one emoji, U+1F600,
    which is two code units: the ceiling falls between the two. *)
Definition letters : jsstring := repeat 97%N (N.to_nat 499999).
Definition emoji_at_the_ceiling : jsstring := letters ++ [55357%N; 56832%N].

(** The parameters of the [compute_stats_json] declaration. *)
Definition stats_parameters : Gemini.object :=
  [(js "type", Gemini.JStr (js "OBJECT"));
   (js "properties",
    Gemini.JObj
      [(js "field",
        Gemini.JObj
          [(js "type", Gemini.JStr (js "STRING"));
           (js "description",
            Gemini.JStr (js "Exact numeric field name from the JSON (e.g. view_count, like_count, comment_count)."))])]);
   (js "required", Gemini.JArr [Gemini.JStr (js "field")])].

End Examples.

(** A component, a file and hosts for closed examples. *)
Module ComponentExamples.

Import JsonTools Gemini Chat.
Import ChatState.

(** A component with nothing loaded, a CSV file of two lines, and a
    csvTools that gives no row. *)
Definition nothing_loaded : State unit unit unit unit :=
  MkState unit unit unit unit [] None [] [] [] None None None None None None None.

Definition two_lines : File :=
  MkFile (js "views.csv") (js "text/csv") (js "title,views" ++ [10%N] ++ js "A,10") [].

Definition no_rows (text : jsstring) : unit * unit := (tt, tt).
Definition no_more (rows headers : unit) : unit * unit := (tt, tt).
Definition no_summary (rows headers : unit) : unit := tt.
Definition no_slim (rows headers : unit) : jsstring := [].
Definition no_json (text : jsstring) : option Json := None.

(** A host whose clock stands one hour after the only date it reads. *)
Definition epoch (dateStr : jsstring) : option Z := Some 0%Z.
Definition one_hour_later : Z := 3600000.
Definition as_written (dateStr : jsstring) : jsstring := dateStr.

(** A component that kept the summary of a CSV file of one row. *)
Definition one_row_summary : jsstring := js "views: mean 10".

Definition summary_kept : State unit (list jsstring) jsstring unit :=
  MkState unit (list jsstring) jsstring unit
    [] (Some (js "s1")) [] [] [] None (Some tt) (Some [js "title"; js "views"])
    (Some one_row_summary) (Some (js "title,views")) None None.

End ComponentExamples.

(* ===================================================================== *)
(** * Properties *)
(* ===================================================================== *)

Import JsonTools Examples.
Local Open Scope string_scope.
Local Open Scope list_scope.

(** ** Pattern matching *)

Section RegexFacts.

Lemma search_unfold (ci : bool) (r : re) (bef aft : jsstring) :
  search ci r bef aft
  = match rmatch ci r (MState bef aft []) with
    | m :: _ => Some (MState bef aft [], m)
    | [] =>
        match aft with
        | x :: rest => search ci r (x :: bef) rest
        | [] => None
        end
    end.
Proof. destruct aft; reflexivity. Qed.

Lemma search_finds (ci : bool) (r : re) (pre aft : jsstring) :
  forall bef,
    rmatch ci r (MState (rev pre ++ bef) aft []) <> [] ->
    search ci r bef (pre ++ aft) <> None.
Proof.
  induction pre as [|x pre IH]; intros bef Hm; rewrite search_unfold.
  - simpl in *. destruct (rmatch ci r (MState bef aft []));
      [congruence | discriminate].
  - destruct (rmatch ci r (MState bef ((x :: pre) ++ aft) []));
      [| discriminate].
    simpl. apply IH. simpl in Hm. rewrite <- app_assoc in Hm. exact Hm.
Qed.

Lemma test_finds (ci : bool) (r : re) (pre aft : jsstring) :
  rmatch ci r (MState (rev pre) aft []) <> [] ->
  test ci r (pre ++ aft) = true.
Proof.
  intros Hm. unfold test, exec.
  destruct (search ci r [] (pre ++ aft)) eqn:E; [reflexivity |].
  exfalso. revert E. apply search_finds. rewrite app_nil_r. exact Hm.
Qed.

(** A literal matches, whatever the case, the text it spells. *)
Lemma rmatch_lit (w : jsstring) :
  forall w' bef post cs,
    map upper_char w' = map upper_char w ->
    rmatch true (lit_chars w) (MState bef (w' ++ post) cs)
    = [MState (rev w' ++ bef) post cs].
Proof.
  induction w as [|c w IH]; intros w' bef post cs Heq.
  - destruct w'; [reflexivity | discriminate].
  - destruct w' as [|c' w']; [discriminate |].
    simpl in Heq. injection Heq as Hc Hw.
    cbn [lit_chars rmatch]. unfold one. cbn [after app].
    unfold char_eq. rewrite Hc, N.eqb_refl. cbn [flat_map].
    unfold advance. cbn [before caps].
    rewrite (IH w' (c' :: bef) post cs Hw), app_nil_r.
    simpl. rewrite <- app_assoc. reflexivity.
Qed.

Lemma rmatch_alts (ci : bool) (r : re) (l : list re) (st m : mstate) :
  In r l -> In m (rmatch ci r st) -> In m (rmatch ci (alts l) st).
Proof.
  induction l as [|a l IH]; intros Hin Hm; [destruct Hin |].
  destruct l as [|b l].
  - destruct Hin as [-> | []]. exact Hm.
  - change (alts (a :: b :: l)) with (Alt a (alts (b :: l))).
    cbn [rmatch]. apply in_or_app.
    destruct Hin as [-> | Hin]; [left; exact Hm | right; apply IH; assumption].
Qed.

Lemma In_not_nil {A} (x : A) (l : list A) : In x l -> l <> [].
Proof. intros Hin ->. destruct Hin. Qed.

(** \b(...|w|...)\b finds a word [w] that stands between two word
    boundaries. *)
Lemma keyword_found (l : list re) (w w' pre post : jsstring) :
  In (lit_chars w) l ->
  map upper_char w' = map upper_char w ->
  at_word_boundary (MState (rev pre) (w' ++ post) []) = true ->
  at_word_boundary (MState (rev w' ++ rev pre) post []) = true ->
  test true (Seq WordB (Seq (Grp 1 (alts l)) WordB)) (pre ++ w' ++ post) = true.
Proof.
  intros Hin Heq Hb1 Hb2. apply test_finds.
  pose proof (rmatch_lit w w' (rev pre) post [] Heq) as Hlit.
  assert (Hm : In (MState (rev w' ++ rev pre) post [])
                 (rmatch true (alts l) (MState (rev pre) (w' ++ post) []))).
  { eapply rmatch_alts; [exact Hin |]. rewrite Hlit. left. reflexivity. }
  cbn [rmatch]. rewrite Hb1. cbn [flat_map].
  eapply In_not_nil. apply in_or_app. left.
  apply in_flat_map. eexists. split.
  - apply in_map. exact Hm.
  - cbn [before after caps]. unfold at_word_boundary in *.
    cbn [before after] in *. rewrite Hb2. left. reflexivity.
Qed.

End RegexFacts.

(** ** Duration parsing *)

Section Durations.

Lemma plus_cls_starts (p : jschar -> bool) (aft : jsstring) :
  forall bef cs,
    plus_cls p bef aft cs <> [] ->
    exists x rest, aft = x :: rest /\ p x = true.
Proof.
  destruct aft as [|x rest]; intros bef cs H; [contradiction |].
  simpl in H. destruct (p x) eqn:E; [| contradiction].
  exists x, rest. split; [reflexivity | exact E].
Qed.

Lemma flat_map_not_nil {A B} (f : A -> list B) (l : list A) :
  flat_map f l <> [] -> exists x, In x l /\ f x <> [].
Proof.
  induction l as [|x l IH]; simpl; [contradiction |].
  destruct (f x) eqn:E.
  - intros H. destruct (IH H) as (y & Hy & Hf). exists y. split; [right |]; assumption.
  - intros _. exists x. split; [left; reflexivity | rewrite E; discriminate].
Qed.

Lemma rmatch_Seq (ci : bool) (r1 r2 : re) (st : mstate) :
  rmatch ci (Seq r1 r2) st = flat_map (rmatch ci r2) (rmatch ci r1 st).
Proof. reflexivity. Qed.

Lemma rmatch_Opt (ci : bool) (r : re) (st : mstate) :
  rmatch ci (Opt r) st = rmatch ci r st ++ [st].
Proof. reflexivity. Qed.

Lemma rmatch_Grp_nil (ci : bool) (n : nat) (r : re) (st : mstate) :
  rmatch ci r st = [] -> rmatch ci (Grp n r) st = [].
Proof. intros H. cbn [rmatch]. rewrite H. reflexivity. Qed.

(** A pattern that opens with a group of digits matches only before a
    digit. *)
Lemma digits_first (n : nat) (r : re) (st : mstate) :
  rmatch false (Seq (Grp n digits1) r) st <> [] ->
  exists x rest, after st = x :: rest /\ is_digit x = true.
Proof.
  rewrite rmatch_Seq. intros H.
  apply (plus_cls_starts is_digit (after st) (before st) (caps st)).
  intros E. apply H. rewrite rmatch_Grp_nil; [reflexivity |]. exact E.
Qed.

(** Past the start of the text, the colon pattern has no match. *)
Lemma colon_pattern_anchored (aft : jsstring) :
  forall bef, bef <> [] -> search false COLON_PATTERN bef aft = None.
Proof.
  induction aft as [|y aft IH]; intros bef Hb; rewrite search_unfold;
    unfold COLON_PATTERN; rewrite rmatch_Seq; cbn [rmatch before];
    (destruct bef; [contradiction |]); cbn [flat_map]; [reflexivity |].
  apply IH. discriminate.
Qed.

(** The colon pattern matches only a text that begins with a digit. *)
Lemma colon_pattern_starts_with_digit (s : jsstring) :
  exec false COLON_PATTERN s <> None ->
  exists x rest, s = x :: rest /\ is_digit x = true.
Proof.
  unfold exec. rewrite search_unfold.
  destruct (rmatch false COLON_PATTERN (MState [] s [])) as [|m ms] eqn:E.
  - destruct s as [|x rest]; [intros H; contradiction |].
    rewrite colon_pattern_anchored by discriminate. intros H. contradiction.
  - intros _.
    assert (Hne : rmatch false COLON_PATTERN (MState [] s []) <> [])
      by (rewrite E; discriminate).
    unfold COLON_PATTERN in Hne. rewrite rmatch_Seq in Hne.
    change (rmatch false Bol (MState [] s [])) with [MState [] s []] in Hne.
    cbn [flat_map] in Hne. rewrite app_nil_r, rmatch_Seq, rmatch_Opt in Hne.
    apply flat_map_not_nil in Hne. destruct Hne as (m1 & Hin & Hrest).
    apply in_app_or in Hin. destruct Hin as [Hin | [<- | []]].
    + apply (digits_first 1 (lit ":") (MState [] s [])).
      intros E1. rewrite E1 in Hin. destruct Hin.
    + apply (digits_first _ _ _ Hrest).
Qed.

Lemma digit_is_no_space (x : jschar) : is_digit x = true -> is_ws x = false.
Proof.
  unfold is_digit, is_ws, in_range. intros H.
  apply andb_true_iff in H. destruct H as [H1 H2].
  apply N.leb_le in H1. apply N.leb_le in H2.
  repeat rewrite ?orb_false_iff, ?andb_false_iff, ?N.leb_gt, ?N.eqb_neq.
  repeat split; lia.
Qed.

(** [parseFloat] finds a number at the head of a text that begins with a
    digit. *)
Lemma parseFloat_str_digit (x : jschar) (rest : jsstring) :
  is_digit x = true -> parseFloat_str (x :: rest) <> None.
Proof.
  intros Hd. unfold parseFloat_str, trimStart. cbn [dropWhile].
  rewrite (digit_is_no_space x Hd). unfold take_sign.
  assert (H45 : N.eqb x 45 = false).
  { unfold is_digit, in_range in Hd. apply andb_true_iff in Hd.
    destruct Hd as [H1 _]. apply N.leb_le in H1. apply N.eqb_neq. lia. }
  assert (H43 : N.eqb x 43 = false).
  { unfold is_digit, in_range in Hd. apply andb_true_iff in Hd.
    destruct Hd as [H1 _]. apply N.leb_le in H1. apply N.eqb_neq. lia. }
  rewrite H45, H43. cbn [take_digits]. rewrite Hd.
  destruct (take_digits rest) as [ds s1].
  destruct s1 as [|c r]; [discriminate |].
  destruct (N.eqb c 46); [destruct (take_digits r) |]; discriminate.
Qed.

(** The colon pattern of [durationToSeconds] is never consulted: where it
    would match, [parseFloat] has returned a number. *)
Lemma durationToSeconds_without_colon (s : jsstring) :
  durationToSeconds (VStr s)
  = match s with
    | [] => None
    | _ =>
        match parseFloat_str s with
        | Some n => Some n
        | None =>
            match exec false PT_PATTERN s with
            | Some m => hms m
            | None => None
            end
        end
    end.
Proof.
  destruct s as [|x rest]; [reflexivity |].
  unfold durationToSeconds. cbn [parseFloat ToString].
  destruct (parseFloat_str (x :: rest)) as [n|] eqn:Ep; [reflexivity |].
  destruct (exec false PT_PATTERN (x :: rest)); [reflexivity |].
  destruct (exec false COLON_PATTERN (x :: rest)) as [m|] eqn:Ec; [| reflexivity].
  exfalso.
  destruct (colon_pattern_starts_with_digit (x :: rest)) as (d & r & Heq & Hd);
    [rewrite Ec; discriminate |].
  injection Heq as -> ->.
  exact (parseFloat_str_digit d r Hd Ep).
Qed.

End Durations.

(** C4: [durationToSeconds] reads the ISO-8601 form, "PT1H2M3S" giving
    3723, but not the colon forms: [parseFloat] already finds a number at
    the head of "1:02:03" and of "2:03", so the function returns 1 and 2.
    Its colon pattern, which on its own would give 3723 and 123, decides
    the result of no text at all. *)
Theorem durationToSeconds_colon_forms_unreached :
  durationToSeconds (VStr (js "PT1H2M3S")) = Some (inject_Z 3723)
  /\ durationToSeconds (VStr (js "1:02:03")) = Some (inject_Z 1)
  /\ durationToSeconds (VStr (js "2:03")) = Some (inject_Z 2)
  /\ option_map hms (exec false COLON_PATTERN (js "1:02:03"))
     = Some (Some (inject_Z 3723))
  /\ option_map hms (exec false COLON_PATTERN (js "2:03"))
     = Some (Some (inject_Z 123))
  /\ (forall s : jsstring,
        durationToSeconds (VStr s)
        = match s with
          | [] => None
          | _ =>
              match parseFloat_str s with
              | Some n => Some n
              | None =>
                  match exec false PT_PATTERN s with
                  | Some m => hms m
                  | None => None
                  end
              end
          end).
Proof.
  split; [vm_compute; reflexivity |].
  split; [vm_compute; reflexivity |].
  split; [vm_compute; reflexivity |].
  split; [vm_compute; reflexivity |].
  split; [vm_compute; reflexivity |].
  exact durationToSeconds_without_colon.
Qed.

(** ** Record selection *)


(** ** User-input errors *)

(** C3: a call that leaves out the required field argument makes
    [executeJsonTool] throw: with no [field], [compute_stats_json] finds
    no numeric value and then reads [toLowerCase] of the undefined field
    name; [plot_metric_vs_time] does the same with no [metric_field]; and
    [play_video] with no [video_selector] shows the first record, every
    title holding the empty text.  An absent or empty record array and an
    unknown field come back as error results. *)
Theorem executeJsonTool_missing_field_throws :
  forall (Date_time : JsVal -> option Z) (label : JsVal -> jsstring),
    let run := executeJsonTool Date_time label in
    run (js "compute_stats_json") no_args (Some abc)
    = Throw TypeError_toLowerCase
    /\ run (js "plot_metric_vs_time") no_args (Some abc)
       = Throw TypeError_toLowerCase
    /\ run (js "play_video") no_args (Some abc) = Ret (shown "A")
    /\ run (js "compute_stats_json") no_args None
       = Ret (RError (js "No channel JSON data loaded. Please drag a JSON file into the chat first."))
    /\ run (js "compute_stats_json") no_args (Some [])
       = Ret (RError (js "No channel JSON data loaded. Please drag a JSON file into the chat first."))
    /\ run (js "compute_stats_json") (MkArgs (Some (js "likes")) None None None)
           (Some abc)
       = Ret (RError (js "No numeric values in " ++ quoted (js "likes")
                      ++ js ". Available: title, view_count, thumbnail_url, video_url")).
Proof. intros Date_time label. repeat split; vm_compute; reflexivity. Qed.

(** ** Routing *)

Import Chat.


Lemma letter_is_word (c c' : jschar) :
  letter c -> upper_char c' = upper_char c -> is_word c' = true.
Proof.
  unfold letter. intros Hl Heq. rewrite <- Heq in Hl. clear Heq.
  unfold upper_char in Hl. unfold is_word.
  destruct (in_range 97 122 c') eqn:E.
  - rewrite orb_true_r. reflexivity.
  - rewrite Hl. reflexivity.
Qed.

Lemma word_boundaries (w w' pre post w0 w1 : jsstring) (c d : jschar) :
  w = c :: w0 -> rev w = d :: w1 -> letter c -> letter d ->
  map upper_char w' = map upper_char w ->
  is_word_opt (hd_error (rev pre)) = false ->
  is_word_opt (hd_error post) = false ->
  at_word_boundary (MState (rev pre) (w' ++ post) []) = true
  /\ at_word_boundary (MState (rev w' ++ rev pre) post []) = true.
Proof.
  intros Hw Hrw Hc Hd Heq Hpre Hpost. unfold at_word_boundary.
  cbn [before after]. rewrite Hpre, Hpost. split.
  - subst w. destruct w' as [|c' w']; [discriminate |].
    simpl in Heq. injection Heq as Hc' _. simpl.
    rewrite (letter_is_word c c' Hc Hc'). reflexivity.
  - assert (Hr : map upper_char (rev w') = map upper_char (rev w))
      by (rewrite !map_rev, Heq; reflexivity).
    rewrite Hrw in Hr. destruct (rev w') as [|d' r']; [discriminate |].
    simpl in Hr. injection Hr as Hd' _. simpl.
    rewrite (letter_is_word d d' Hd Hd'). reflexivity.
Qed.

Lemma keyword_test (l : list re) (text w w0 w1 : jsstring) (c d : jschar) :
  In (lit_chars w) l ->
  w = c :: w0 -> rev w = d :: w1 -> letter c -> letter d ->
  holds_word text w ->
  test true (Seq WordB (Seq (Grp 1 (alts l)) WordB)) text = true.
Proof.
  intros Hin Hw Hrw Hc Hd (pre & w' & post & -> & Heq & Hpre & Hpost).
  destruct (word_boundaries w w' pre post w0 w1 c d Hw Hrw Hc Hd Heq Hpre Hpost)
    as [Hb1 Hb2].
  eapply keyword_found; eassumption.
Qed.

Lemma histogram_is_python_only (text : jsstring) :
  holds_word text (js "histogram") ->
  test true PYTHON_ONLY_KEYWORDS text = true.
Proof.
  intros H. unfold PYTHON_ONLY_KEYWORDS.
  eapply (keyword_test _ text (js "histogram")); try exact H;
    try reflexivity.
  unfold lit. simpl. tauto.
Qed.

Lemma histogram_is_code_keyword (text : jsstring) :
  holds_word text (js "histogram") ->
  test true Gemini.CODE_KEYWORDS text = true.
Proof.
  intros H. unfold Gemini.CODE_KEYWORDS.
  eapply (keyword_test _ text (js "histogram")); try exact H;
    try reflexivity.
  unfold lit. simpl. tauto.
Qed.

(** C1 (as amended): a text that holds the word "histogram" is sent to
    code execution whatever is loaded, tabular rows, records or nothing,
    as long as at most one of the two is; and with tabular rows loaded from
    an earlier turn, no CSV dropped with this turn and no records loaded,
    a text that matches no Python-only keyword is sent to the tabular
    tools, whether or not it matches a code-intent keyword. *)
Theorem routing_histogram_and_tabular :
  forall (CsvRows JsonContext : Type)
         (csvContext : option CsvContext) (jsonContext : option JsonContext)
         (sessionCsvRows : option CsvRows)
         (sessionJsonData : option (list record)) (rows : CsvRows)
         (input : jsstring),
    (holds_word (trim input) (js "histogram") ->
     at_most_one sessionCsvRows sessionJsonData ->
     mode csvContext jsonContext sessionCsvRows sessionJsonData input
     = CodeExecutionMode)
    /\ (test true PYTHON_ONLY_KEYWORDS (trim input) = false ->
        mode None jsonContext (Some rows) None input = TabularToolMode).
Proof.
  intros. split.
  - intros Hw Hone. unfold mode, routing. cbn [useJsonTools useTools useCodeExecution].
    rewrite (histogram_is_python_only _ Hw), (histogram_is_code_keyword _ Hw).
    destruct Hone as [-> | ->]; simpl.
    + destruct sessionJsonData; reflexivity.
    + destruct sessionCsvRows; reflexivity.
  - intros Hno. unfold mode, routing. cbn [useJsonTools useTools useCodeExecution].
    rewrite Hno. simpl. rewrite andb_false_r. reflexivity.
Qed.

Lemma routing_histogram_and_tabular_witness :
  mode (CsvRows := list record) (JsonContext := unit)
       None None None (Some abc) (js " draw a Histogram of views ")
  = CodeExecutionMode
  /\ mode (CsvRows := list record) (JsonContext := unit)
          None None (Some abc) None (js "what's the average views")
     = TabularToolMode.
Proof.
  split.
  - apply (routing_histogram_and_tabular (list record) unit None None None
             (Some abc) abc (js " draw a Histogram of views ")).
    + exists (js "draw a "), (js "Histogram"), (js " of views").
      repeat split; reflexivity.
    + left. reflexivity.
  - apply (routing_histogram_and_tabular (list record) unit None None None
             None abc (js "what's the average views")).
    reflexivity.
Defined.

(** C1, the claim as first stated: "heatmap" is no code-intent keyword
    ([CODE_KEYWORDS] does not list it), yet with tabular rows loaded the
    text goes to code execution, not to the tabular tools. *)
Lemma routing_heatmap_is_not_tabular :
  test true Gemini.CODE_KEYWORDS (trim (js "show a heatmap")) = false
  /\ mode (CsvRows := list record) (JsonContext := unit)
          None None (Some abc) None (js "show a heatmap")
     = CodeExecutionMode.
Proof. split; vm_compute; reflexivity. Qed.

(** ** The tool schema adapter *)

Import Gemini.

Section Objects.

Lemma jseqb_eq (a b : jsstring) : jseqb a b = true <-> a = b.
Proof.
  revert b. induction a as [|x a IH]; intros [|y b]; simpl;
    try (split; [discriminate | discriminate]); try tauto.
  rewrite andb_true_iff, N.eqb_eq, IH. split.
  - intros [-> ->]. reflexivity.
  - intros H. injection H as -> ->. split; reflexivity.
Qed.

Lemma jseqb_refl (a : jsstring) : jseqb a a = true.
Proof. apply jseqb_eq. reflexivity. Qed.

Lemma jseqb_neq (a b : jsstring) : a <> b -> jseqb a b = false.
Proof.
  intros H. destruct (jseqb a b) eqn:E; [| reflexivity].
  apply jseqb_eq in E. contradiction.
Qed.

Lemma lookup_update_same (k : jsstring) (v : Json) (o : object) :
  lookup k (update k v o) = match lookup k o with Some _ => Some v | None => None end.
Proof.
  induction o as [|[k' v'] o IH]; simpl; [reflexivity |].
  destruct (jseqb k' k) eqn:E; simpl; rewrite E; [reflexivity | exact IH].
Qed.

Lemma lookup_update_other (k k' : jsstring) (v : Json) (o : object) :
  k' <> k -> lookup k' (update k v o) = lookup k' o.
Proof.
  intros Hne. induction o as [|[k0 v0] o IH]; simpl; [reflexivity |].
  destruct (jseqb k0 k) eqn:E; simpl.
  - apply jseqb_eq in E. subst k0.
    rewrite (jseqb_neq k k') by congruence. reflexivity.
  - rewrite IH. reflexivity.
Qed.

Lemma update_update (k : jsstring) (v v' : Json) (o : object) :
  update k v (update k v' o) = update k v o.
Proof.
  induction o as [|[k0 v0] o IH]; simpl; [reflexivity |].
  destruct (jseqb k0 k) eqn:E; simpl; rewrite E; [reflexivity |].
  rewrite IH. reflexivity.
Qed.

Lemma update_keys (k : jsstring) (v : Json) (o : object) :
  map fst (update k v o) = map fst o.
Proof.
  induction o as [|[k0 v0] o IH]; simpl; [reflexivity |].
  destruct (jseqb k0 k); simpl; [| rewrite IH]; reflexivity.
Qed.

Lemma update_absent (k : jsstring) (v : Json) (o : object) :
  lookup k o = None -> update k v o = o.
Proof.
  induction o as [|[k0 v0] o IH]; simpl; [reflexivity |].
  destruct (jseqb k0 k); [discriminate |].
  intros H. rewrite (IH H). reflexivity.
Qed.

Lemma lookup_absent (k : jsstring) (o : object) :
  lookup k o = None <-> ~ In k (map fst o).
Proof.
  induction o as [|[k0 v0] o IH]; simpl; [tauto |].
  destruct (jseqb k0 k) eqn:E.
  - apply jseqb_eq in E. split; [discriminate | intros H; exfalso; tauto].
  - rewrite IH. split.
    + intros H [-> | Hin]; [rewrite jseqb_refl in E; discriminate | tauto].
    + tauto.
Qed.

Lemma assign_fresh (k : jsstring) (v : Json) (o : object) :
  ~ In k (map fst o) -> assign k v o = o ++ [(k, v)].
Proof.
  induction o as [|[k0 v0] o IH]; simpl; [reflexivity |].
  intros H. rewrite jseqb_neq by tauto. rewrite IH by tauto. reflexivity.
Qed.

Lemma fold_assign_fresh (l : object) :
  forall acc,
    NoDup (map fst (acc ++ l)) ->
    fold_left (fun o kv => assign (fst kv) (snd kv) o) l acc = acc ++ l.
Proof.
  induction l as [|[k v] l IH]; intros acc Hnd; simpl.
  - rewrite app_nil_r. reflexivity.
  - rewrite assign_fresh.
    + rewrite IH; rewrite <- app_assoc; [reflexivity | exact Hnd].
    + rewrite map_app in Hnd. simpl in Hnd.
      apply NoDup_remove_2 in Hnd. intros Hin. apply Hnd.
      apply in_or_app. left. exact Hin.
Qed.

Lemma fromEntries_distinct (l : object) :
  NoDup (map fst l) -> fromEntries l = l.
Proof. intros H. unfold fromEntries. rewrite fold_assign_fresh; auto. Qed.

Lemma assign_keys (k : jsstring) (v : Json) (o : object) :
  NoDup (map fst o) -> NoDup (map fst (assign k v o)).
Proof.
  intros Hnd. destruct (lookup k o) eqn:E.
  - assert (Hk : map fst (assign k v o) = map fst o).
    { clear Hnd. induction o as [|[k0 v0] o IH]; [discriminate |].
      simpl in *. destruct (jseqb k0 k) eqn:E0; simpl.
      - apply jseqb_eq in E0. subst. reflexivity.
      - rewrite IH by exact E. reflexivity. }
    rewrite Hk. exact Hnd.
  - apply lookup_absent in E. rewrite assign_fresh by exact E.
    rewrite map_app. simpl.
    apply NoDup_app; [exact Hnd | constructor; [intros [] | constructor] |].
    intros x Hx [<- | []]. contradiction.
Qed.

Lemma assign_values (P : Json -> Prop) (k : jsstring) (v : Json) (o : object) :
  P v -> Forall (fun kv => P (snd kv)) o ->
  Forall (fun kv => P (snd kv)) (assign k v o).
Proof.
  intros Hv Ho. induction Ho as [|[k0 v0] o H0 Ho IH]; simpl.
  - constructor; [exact Hv | constructor].
  - destruct (jseqb k0 k); constructor; auto.
Qed.

Lemma fromEntries_invariant (P : Json -> Prop) (l : object) :
  Forall (fun kv => P (snd kv)) l ->
  NoDup (map fst (fromEntries l))
  /\ Forall (fun kv => P (snd kv)) (fromEntries l).
Proof.
  unfold fromEntries. intros Hl.
  assert (H : forall acc,
             NoDup (map fst acc) -> Forall (fun kv => P (snd kv)) acc ->
             NoDup (map fst (fold_left (fun o kv => assign (fst kv) (snd kv) o) l acc))
             /\ Forall (fun kv => P (snd kv))
                  (fold_left (fun o kv => assign (fst kv) (snd kv) o) l acc)).
  { induction Hl as [|[k v] l Hv Hl IH]; intros acc Hnd Hacc; simpl.
    - split; assumption.
    - apply IH; [apply assign_keys | apply assign_values]; assumption. }
  apply H; constructor.
Qed.

End Objects.

Section Adapter.

Lemma retype_skip (upper lower : string) (v : object) :
  match lookup (js "type") v with Some (JStr _) => False | _ => True end ->
  retype upper lower v = v.
Proof.
  unfold retype. destruct (lookup (js "type") v) as [[| b | q | t | l | f]|];
    intros H; try reflexivity. destruct H.
Qed.

Lemma retype_str (upper lower : string) (v : object) (t : jsstring) :
  lookup (js "type") v = Some (JStr t) ->
  retype upper lower v
  = if jseqb t (js upper) then update (js "type") (JStr (js lower)) v else v.
Proof. unfold retype. intros ->. reflexivity. Qed.

(** The later tests of [normalizeProp] leave a lowercase type alone. *)
Ltac later_retypes H :=
  repeat (rewrite (retype_str _ _ _ _ H);
          match goal with
          | |- context [jseqb (js ?a) (js ?b)] =>
              let r := eval vm_compute in (jseqb (js a) (js b)) in
              change (jseqb (js a) (js b)) with r
          end; cbv iota).

(** What the five tests of [normalizeProp] come to. *)
Lemma normalizeProp_spec (o : object) :
  normalizeProp (JObj o)
  = match lookup (js "type") o with
    | Some (JStr t) =>
        match lowered t with
        | Some l => update (js "type") (JStr l) o
        | None => o
        end
    | _ => o
    end.
Proof.
  unfold normalizeProp, entries, lowered, TYPE_TOKENS, lowered_in.
  destruct (lookup (js "type") o) as [[| b | q | t | items | fields]|] eqn:E;
    try (repeat (rewrite (retype_skip _ _ o) by (rewrite E; exact I));
         reflexivity).
  assert (Hup : forall l, lookup (js "type") (update (js "type") (JStr l) o)
                          = Some (JStr l))
    by (intros l; rewrite lookup_update_same, E; reflexivity).
  rewrite (retype_str _ _ o t E).
  destruct (jseqb t (js "STRING")); [later_retypes (Hup (js "string")); reflexivity |].
  rewrite (retype_str _ _ o t E).
  destruct (jseqb t (js "NUMBER")); [later_retypes (Hup (js "number")); reflexivity |].
  rewrite (retype_str _ _ o t E).
  destruct (jseqb t (js "BOOLEAN")); [later_retypes (Hup (js "boolean")); reflexivity |].
  rewrite (retype_str _ _ o t E).
  destruct (jseqb t (js "ARRAY")); [later_retypes (Hup (js "array")); reflexivity |].
  rewrite (retype_str _ _ o t E).
  destruct (jseqb t (js "OBJECT")); reflexivity.
Qed.

(** No lowercase form is itself an uppercase token. *)
Lemma lowered_lowered (t l : jsstring) :
  lowered t = Some l -> lowered l = None.
Proof.
  unfold lowered, TYPE_TOKENS, lowered_in.
  repeat match goal with
         | |- context [if jseqb t ?u then _ else _] => destruct (jseqb t u)
         end;
    intros H; try discriminate; injection H as <-; reflexivity.
Qed.

Lemma normalizeProp_idempotent (prop : Json) :
  normalizeProp (JObj (normalizeProp prop)) = normalizeProp prop.
Proof.
  assert (H : forall o, normalizeProp (JObj (normalizeProp (JObj o)))
                        = normalizeProp (JObj o)).
  { intros o. rewrite (normalizeProp_spec o).
    destruct (lookup (js "type") o) as [[| b | q | t | items | fields]|] eqn:E;
      try (rewrite normalizeProp_spec, E; reflexivity).
    destruct (lowered t) as [l|] eqn:El.
    - rewrite normalizeProp_spec, lookup_update_same, E.
      rewrite (lowered_lowered t l El). reflexivity.
    - rewrite normalizeProp_spec, E, El. reflexivity. }
  destruct prop as [| b | q | s | items | o]; try exact (H _);
    change (normalizeProp ?x) with (normalizeProp (JObj (entries x))) at 2;
    change (normalizeProp ?x) with (normalizeProp (JObj (entries x))) at 1;
    try exact (H _).
Qed.

Lemma normalizeParams_unfold (p : object) :
  normalizeParams p
  = match lookup (js "properties") (retype "OBJECT" "object" p) with
    | Some props =>
        if json_truthy props
        then update (js "properties")
               (JObj (fromEntries (map normalized_entry (entries props))))
               (retype "OBJECT" "object" p)
        else retype "OBJECT" "object" p
    | None => retype "OBJECT" "object" p
    end.
Proof. reflexivity. Qed.

Lemma retype_lookup_other (upper lower : string) (k : jsstring) (v : object) :
  k <> js "type" -> lookup k (retype upper lower v) = lookup k v.
Proof.
  intros Hk. unfold retype.
  destruct (lookup (js "type") v) as [[| b | q | t | l | f]|]; try reflexivity.
  destruct (jseqb t (js upper)); [| reflexivity].
  apply lookup_update_other. exact Hk.
Qed.

Lemma retype_keys (upper lower : string) (v : object) :
  map fst (retype upper lower v) = map fst v.
Proof.
  unfold retype.
  destruct (lookup (js "type") v) as [[| b | q | t | l | f]|]; try reflexivity.
  destruct (jseqb t (js upper)); [| reflexivity]. apply update_keys.
Qed.

(** The type of the parameter object after the test for OBJECT. *)
Lemma retype_object_type (v : object) :
  lookup (js "type") (retype "OBJECT" "object" v)
  = match lookup (js "type") v with
    | Some (JStr t) =>
        if jseqb t (js "OBJECT") then Some (JStr (js "object")) else Some (JStr t)
    | other => other
    end.
Proof.
  unfold retype.
  destruct (lookup (js "type") v) as [[| b | q | t | l | f]|] eqn:E;
    rewrite ?E; try reflexivity.
  destruct (jseqb t (js "OBJECT")); [| exact E].
  rewrite lookup_update_same, E. reflexivity.
Qed.

Lemma retype_object_fixed (v : object) :
  lookup (js "type") v <> Some (JStr (js "OBJECT")) ->
  retype "OBJECT" "object" v = v.
Proof.
  intros H. unfold retype.
  destruct (lookup (js "type") v) as [[| b | q | t | l | f]|]; try reflexivity.
  destruct (jseqb t (js "OBJECT")) eqn:E; [| reflexivity].
  apply jseqb_eq in E. subst t. congruence.
Qed.

Lemma retype_object_done (v : object) :
  lookup (js "type") (retype "OBJECT" "object" v) <> Some (JStr (js "OBJECT")).
Proof.
  rewrite retype_object_type.
  destruct (lookup (js "type") v) as [[| b | q | t | l | f]|]; try discriminate.
  destruct (jseqb t (js "OBJECT")) eqn:E; [discriminate |].
  intros H. injection H as ->. rewrite jseqb_refl in E. discriminate.
Qed.

Lemma normalized_entries_fixed (l : object) :
  Forall (fun kv => JObj (normalizeProp (snd kv)) = snd kv) l ->
  map normalized_entry l = l.
Proof.
  induction 1 as [|[k v] l Hv Hl IH]; simpl; [reflexivity |].
  unfold normalized_entry at 1. simpl in *. rewrite Hv, IH. reflexivity.
Qed.

Lemma normalizeParams_idempotent (p : object) :
  normalizeParams (normalizeParams p) = normalizeParams p.
Proof.
  rewrite (normalizeParams_unfold p).
  set (p1 := retype "OBJECT" "object" p).
  assert (Hfix : retype "OBJECT" "object" p1 = p1)
    by (apply retype_object_fixed, retype_object_done).
  destruct (lookup (js "properties") p1) as [props|] eqn:Ep.
  - destruct (json_truthy props) eqn:Et.
    + set (newprops := fromEntries (map normalized_entry (entries props))).
      destruct (fromEntries_invariant
                  (fun v => JObj (normalizeProp v) = v)
                  (map normalized_entry (entries props))) as [Hnd Hall].
      { apply Forall_forall. intros kv Hin. apply in_map_iff in Hin.
        destruct Hin as (kv0 & <- & _). simpl.
        rewrite normalizeProp_idempotent. reflexivity. }
      fold newprops in Hnd, Hall.
      rewrite normalizeParams_unfold.
      assert (Hr : retype "OBJECT" "object"
                     (update (js "properties") (JObj newprops) p1)
                   = update (js "properties") (JObj newprops) p1).
      { apply retype_object_fixed.
        rewrite lookup_update_other by discriminate.
        apply retype_object_done. }
      rewrite Hr, lookup_update_same, Ep. cbn [json_truthy entries].
      rewrite (normalized_entries_fixed newprops Hall).
      rewrite (fromEntries_distinct newprops Hnd).
      apply update_update.
    + rewrite normalizeParams_unfold, Hfix, Ep, Et. reflexivity.
  - rewrite normalizeParams_unfold, Hfix, Ep. reflexivity.
Qed.

(** C8: normalising the parameters twice is normalising them once.  Of a
    property that is an object, only the type changes, and only when it is
    one of STRING, NUMBER, BOOLEAN, ARRAY, OBJECT, which becomes its
    lowercase form; every other field of the property, and of the
    parameter object (description, required), is as it was, no key is
    added or lost, and each property of an object of properties is
    normalised under its own key. *)
Theorem normalizeParams_idempotent_lossless :
  forall (params prop : object) (k : jsstring),
    normalizeParams (normalizeParams params) = normalizeParams params
    /\ normalizeProp (JObj prop)
       = match lookup (js "type") prop with
         | Some (JStr t) =>
             match lowered t with
             | Some l => update (js "type") (JStr l) prop
             | None => prop
             end
         | _ => prop
         end
    /\ (k <> js "type" -> lookup k (normalizeProp (JObj prop)) = lookup k prop)
    /\ map fst (normalizeProp (JObj prop)) = map fst prop
    /\ (k <> js "type" -> k <> js "properties" ->
        lookup k (normalizeParams params) = lookup k params)
    /\ map fst (normalizeParams params) = map fst params
    /\ lookup (js "type") (normalizeParams params)
       = match lookup (js "type") params with
         | Some (JStr t) =>
             if jseqb t (js "OBJECT") then Some (JStr (js "object"))
             else Some (JStr t)
         | other => other
         end
    /\ (forall props,
          lookup (js "properties") params = Some (JObj props) ->
          NoDup (map fst props) ->
          lookup (js "properties") (normalizeParams params)
          = Some (JObj (map normalized_entry props))).
Proof.
  intros params prop k.
  assert (Hprop_keys : map fst (normalizeProp (JObj prop)) = map fst prop).
  { rewrite normalizeProp_spec.
    destruct (lookup (js "type") prop) as [[| b | q | t | l | f]|]; try reflexivity.
    destruct (lowered t); [apply update_keys | reflexivity]. }
  split; [apply normalizeParams_idempotent |].
  split; [apply normalizeProp_spec |].
  split.
  { intros Hk. rewrite normalizeProp_spec.
    destruct (lookup (js "type") prop) as [[| b | q | t | l | f]|]; try reflexivity.
    destruct (lowered t); [apply lookup_update_other; exact Hk | reflexivity]. }
  split; [exact Hprop_keys |].
  rewrite (normalizeParams_unfold params).
  set (p1 := retype "OBJECT" "object" params).
  split.
  { intros Hk1 Hk2.
    destruct (lookup (js "properties") p1) as [props|];
      [destruct (json_truthy props) |];
      rewrite ?lookup_update_other by exact Hk2;
      apply retype_lookup_other; exact Hk1. }
  split.
  { destruct (lookup (js "properties") p1) as [props|];
      [destruct (json_truthy props) |];
      rewrite ?update_keys; apply retype_keys. }
  split.
  { destruct (lookup (js "properties") p1) as [props|];
      [destruct (json_truthy props) |];
      rewrite ?lookup_update_other by discriminate;
      apply retype_object_type. }
  intros props Hp Hnd.
  assert (Ep : lookup (js "properties") p1 = Some (JObj props)).
  { unfold p1. rewrite retype_lookup_other by discriminate. exact Hp. }
  rewrite Ep. cbn [json_truthy entries].
  rewrite lookup_update_same, Ep. do 2 f_equal.
  apply fromEntries_distinct. rewrite map_map. simpl. exact Hnd.
Qed.

Lemma normalizeParams_idempotent_lossless_witness :
  lookup (js "required") (normalizeParams stats_parameters)
  = Some (JArr [JStr (js "field")])
  /\ lookup (js "properties") (normalizeParams stats_parameters)
     = Some (JObj
         [(js "field",
           JObj (normalizeProp
             (JObj [(js "type", JStr (js "STRING"));
                    (js "description",
                     JStr (js "Exact numeric field name from the JSON (e.g. view_count, like_count, comment_count)."))])))]).
Proof.
  pose proof (normalizeParams_idempotent_lossless stats_parameters []
                (js "required")) as (_ & _ & _ & _ & Hother & _ & _ & Hprops).
  split.
  - rewrite Hother; [reflexivity | discriminate | discriminate].
  - apply (Hprops
             [(js "field",
               JObj [(js "type", JStr (js "STRING"));
                     (js "description",
                      JStr (js "Exact numeric field name from the JSON (e.g. view_count, like_count, comment_count)."))])]);
      [reflexivity |].
    constructor; [intros [] | constructor].
Defined.

End Adapter.

(** ** Field resolution *)

Section FieldResolution.

Lemma includes_key (n : jsstring) (ks : list jsstring) :
  existsb (jseqb n) ks = true <-> In n ks.
Proof.
  rewrite existsb_exists. split.
  - intros (k & Hin & Heq). apply jseqb_eq in Heq. subst. exact Hin.
  - intros Hin. exists n. split; [exact Hin | apply jseqb_refl].
Qed.

Lemma find_first (target : jsstring) (before after : list jsstring) (k : jsstring) :
  Forall (fun k' => norm k' <> target) before ->
  norm k = target ->
  find (fun k' => jseqb (norm k') target) (before ++ k :: after) = Some k.
Proof.
  intros Hb Hk. induction Hb as [|k' before Hk' Hb IH]; simpl.
  - rewrite Hk, jseqb_refl. reflexivity.
  - rewrite (jseqb_neq _ _ Hk'). exact IH.
Qed.

Lemma find_none (target : jsstring) (ks : list jsstring) :
  (forall k, In k ks -> norm k <> target) ->
  find (fun k' => jseqb (norm k') target) ks = None.
Proof.
  intros H. induction ks as [|k ks IH]; simpl; [reflexivity |].
  rewrite (jseqb_neq _ _ (H k (or_introl eq_refl))).
  apply IH. intros k' Hin. apply H. right. exact Hin.
Qed.

End FieldResolution.




(** ** Descriptive statistics *)

Section Statistics.

Local Open Scope Q_scope.

Lemma qmin_le_l (a b : Q) : qmin a b <= a.
Proof.
  unfold qmin. destruct (Qle_bool a b) eqn:E.
  - apply Qle_refl.
  - destruct (Qlt_le_dec b a) as [H | H]; [apply Qlt_le_weak; exact H |].
    apply Qle_bool_iff in H. congruence.
Qed.

Lemma qmin_le_r (a b : Q) : qmin a b <= b.
Proof.
  unfold qmin. destruct (Qle_bool a b) eqn:E.
  - apply Qle_bool_iff. exact E.
  - apply Qle_refl.
Qed.

Lemma qmax_ge_l (a b : Q) : a <= qmax a b.
Proof.
  unfold qmax. destruct (Qle_bool a b) eqn:E.
  - apply Qle_bool_iff. exact E.
  - apply Qle_refl.
Qed.

Lemma qmax_ge_r (a b : Q) : b <= qmax a b.
Proof.
  unfold qmax. destruct (Qle_bool a b) eqn:E.
  - apply Qle_refl.
  - destruct (Qlt_le_dec b a) as [H | H]; [apply Qlt_le_weak; exact H |].
    apply Qle_bool_iff in H. congruence.
Qed.

Lemma Math_min_least (vs : list Q) :
  forall v0, Math_min v0 vs <= v0 /\ (forall x, In x vs -> Math_min v0 vs <= x).
Proof.
  unfold Math_min. induction vs as [|v vs IH]; intros v0; simpl.
  - split; [apply Qle_refl | intros x []].
  - destruct (IH (qmin v0 v)) as [H0 Hin]. split.
    + eapply Qle_trans; [exact H0 | apply qmin_le_l].
    + intros x [<- | Hx]; [| apply Hin; exact Hx].
      eapply Qle_trans; [exact H0 | apply qmin_le_r].
Qed.

Lemma Math_max_greatest (vs : list Q) :
  forall v0, v0 <= Math_max v0 vs /\ (forall x, In x vs -> x <= Math_max v0 vs).
Proof.
  unfold Math_max. induction vs as [|v vs IH]; intros v0; simpl.
  - split; [apply Qle_refl | intros x []].
  - destruct (IH (qmax v0 v)) as [H0 Hin]. split.
    + eapply Qle_trans; [apply qmax_ge_l | exact H0].
    + intros x [<- | Hx]; [| apply Hin; exact Hx].
      eapply Qle_trans; [apply qmax_ge_r | exact H0].
Qed.

(** Every value lies between [Math.min] and [Math.max] of the values. *)
Lemma min_max_bound (v0 : Q) (vs : list Q) (x : Q) :
  In x (v0 :: vs) -> Math_min v0 vs <= x /\ x <= Math_max v0 vs.
Proof.
  destruct (Math_min_least vs v0) as [Hm0 Hm].
  destruct (Math_max_greatest vs v0) as [HM0 HM].
  intros [<- | Hin]; split; auto.
Qed.

Lemma sum_from (l : list Q) :
  forall acc lo hi,
    (forall x, In x l -> lo <= x /\ x <= hi) ->
    acc + lo * inject_Z (Z.of_nat (length l)) <= fold_left Qplus l acc
    /\ fold_left Qplus l acc <= acc + hi * inject_Z (Z.of_nat (length l)).
Proof.
  induction l as [|x l IH]; intros acc lo hi Hb.
  - cbn [fold_left length]. change (inject_Z (Z.of_nat 0)) with 0.
    split; lra.
  - destruct (Hb x (or_introl eq_refl)) as [Hlo Hhi].
    destruct (IH (acc + x) lo hi (fun y Hy => Hb y (or_intror Hy))) as [H1 H2].
    cbn [fold_left length]. rewrite Nat2Z.inj_succ, <- Z.add_1_r, inject_Z_plus.
    change (inject_Z 1) with 1. split; lra.
Qed.

(** The mean of values between [lo] and [hi] is between [lo] and [hi]. *)
Lemma mean_bound (l : list Q) (lo hi : Q) :
  l <> [] ->
  (forall x, In x l -> lo <= x /\ x <= hi) ->
  lo <= sum l / inject_Z (Z.of_nat (length l))
  /\ sum l / inject_Z (Z.of_nat (length l)) <= hi.
Proof.
  intros Hne Hb. destruct (sum_from l 0 lo hi Hb) as [H1 H2].
  fold (sum l) in H1, H2.
  assert (Hn : 0 < inject_Z (Z.of_nat (length l))).
  { destruct l; [contradiction |]. simpl length.
    rewrite <- (Zlt_Qlt 0). lia. }
  split.
  - apply Qle_shift_div_l; [exact Hn | lra].
  - apply Qle_shift_div_r; [exact Hn | lra].
Qed.

Lemma insert_In {A} (le : A -> A -> bool) (x y : A) (l : list A) :
  In y (insert le x l) <-> y = x \/ In y l.
Proof.
  induction l as [|z l IH]; simpl; [intuition congruence |].
  destruct (le x z); simpl; rewrite ?IH; intuition congruence.
Qed.

Lemma sort_In {A} (le : A -> A -> bool) (y : A) (l : list A) :
  In y (sort le l) <-> In y l.
Proof.
  induction l as [|x l IH]; simpl; [tauto |].
  rewrite insert_In, IH. intuition congruence.
Qed.

Lemma insert_length {A} (le : A -> A -> bool) (x : A) (l : list A) :
  length (insert le x l) = S (length l).
Proof.
  induction l as [|z l IH]; simpl; [reflexivity |].
  destruct (le x z); simpl; [| rewrite IH]; reflexivity.
Qed.

Lemma sort_length {A} (le : A -> A -> bool) (l : list A) :
  length (sort le l) = length l.
Proof.
  induction l as [|x l IH]; simpl; [reflexivity |].
  rewrite insert_length, IH. reflexivity.
Qed.

(** The median of values between [lo] and [hi] is between [lo] and
    [hi]. *)
Lemma median_bound (sorted : list Q) (lo hi : Q) :
  sorted <> [] ->
  (forall x, In x sorted -> lo <= x /\ x <= hi) ->
  lo <= median sorted /\ median sorted <= hi.
Proof.
  intros Hne Hb. unfold median.
  assert (Hlen : (0 < length sorted)%nat)
    by (destruct sorted; [contradiction | simpl; lia]).
  assert (Hhalf : (length sorted / 2 < length sorted)%nat)
    by (apply Nat.div_lt; lia).
  destruct (Hb _ (nth_In sorted 0 Hhalf)) as [H1 H2].
  destruct (Nat.even (length sorted)); [| split; assumption].
  assert (Hprev : (length sorted / 2 - 1 < length sorted)%nat) by lia.
  destruct (Hb _ (nth_In sorted 0 Hprev)) as [H3 H4].
  rewrite Qred_correct.
  split.
  - apply Qle_shift_div_l; lra.
  - apply Qle_shift_div_r; lra.
Qed.

End Statistics.

Section Rounding.

Local Open Scope Q_scope.

(** [+n.toFixed(4)] is within half of 1/10000 of [n]. *)
Lemma toFixed4_near (n : Q) :
  n - (1 # 20000) <= toFixed4 n /\ toFixed4 n <= n + (1 # 20000).
Proof.
  unfold toFixed4.
  destruct (Qle_bool (inject_Z (10 ^ 21)) (Qabs n)); [split; lra |].
  set (y := Qabs n * inject_Z 10000 + (1 # 2)).
  pose proof (Qfloor_le y) as Hlo.
  pose proof (Qlt_floor y) as Hhi.
  rewrite inject_Z_plus in Hhi. change (inject_Z 1) with 1 in Hhi.
  set (k := Qfloor y) in *.
  rewrite Qred_correct.
  unfold y in *. change (inject_Z 10000) with (10000 # 1) in *.
  destruct (Qnum n <? 0)%Z eqn:E; cbv iota.
  - assert (Hn : n <= 0).
    { apply Z.ltb_lt in E. unfold Qle. simpl. lia. }
    rewrite (Qabs_neg n Hn) in *.
    rewrite (Qmake_Qdiv (- k) 10000), inject_Z_opp.
    change (inject_Z (Z.pos 10000)) with (10000 # 1).
    split.
    + apply Qle_shift_div_l; lra.
    + apply Qle_shift_div_r; lra.
  - assert (Hn : 0 <= n).
    { apply Z.ltb_ge in E. unfold Qle. simpl. lia. }
    rewrite (Qabs_pos n Hn) in *.
    rewrite (Qmake_Qdiv k 10000).
    change (inject_Z (Z.pos 10000)) with (10000 # 1).
    split.
    + apply Qle_shift_div_l; lra.
    + apply Qle_shift_div_r; lra.
Qed.

Lemma fmt_near (n : Q) :
  n - (1 # 20000) <= fmt n /\ fmt n <= n + (1 # 20000).
Proof.
  unfold fmt. destruct (Number_isInteger n); [split; lra | apply toFixed4_near].
Qed.

End Rounding.

Section StatisticsResult.

Local Open Scope Q_scope.

Lemma compute_stats_json_values (args : Args) (r0 : record) (videos : list record)
  (s : Stats) :
  compute_stats_json args r0 videos = Ret (RStats s) ->
  exists v0 vs,
    count s = length (v0 :: vs)
    /\ mean s = fmt (Qred (sum (v0 :: vs) / inject_Z (Z.of_nat (length (v0 :: vs)))))
    /\ median_ s = fmt (median (sort Qle_bool (v0 :: vs)))
    /\ min s = Math_min v0 vs
    /\ max s = Math_max v0 vs.
Proof.
  unfold compute_stats_json.
  match goal with
  | |- bind ?m _ = _ -> _ => destruct m as [vals | e]
  end; [| discriminate].
  cbn [bind]. destruct (not_NaN vals) as [|v0 vs]; [discriminate |].
  intros H. injection H as <-. exists v0, vs. repeat split.
Qed.




End StatisticsResult.

(** ** The metric-over-time series *)

Section Series.

Variable Date_time : JsVal -> option Z.
Variable label : JsVal -> jsstring.

Lemma resolveField_named (rows : list record) (n : jsstring) :
  exists f, resolveField rows (Some n) = Some f.
Proof.
  unfold resolveField. destruct rows as [|r0 rest]; [eexists; reflexivity |].
  destruct (falsy_name (Some n)); [eexists; reflexivity |].
  destruct (existsb (jseqb n) (keys r0)); [eexists; reflexivity |].
  destruct (find _ (keys r0)) as [k|]; [| eexists; reflexivity].
  destruct (truthy_str k); eexists; reflexivity.
Qed.

Lemma mapM_total {A B} (f : A -> outcome B) (g : A -> B) (l : list A) :
  (forall x, f x = Ret (g x)) -> mapM f l = Ret (map g l).
Proof.
  intros H. induction l as [|x l IH]; simpl; [reflexivity |].
  rewrite H, IH. reflexivity.
Qed.

Lemma somes_plotted {A B} (p : A -> bool) (g : A -> B) (l : list A) :
  somes (map (fun v => if p v then Some (g v) else None) l) = map g (filter p l).
Proof.
  induction l as [|x l IH]; simpl; [reflexivity |].
  destruct (p x); simpl; rewrite IH; reflexivity.
Qed.

(** With a metric field named, a record never makes [plot_point] throw,
    and gives its point exactly when it is plotted. *)
Lemma plot_point_spec (mf df : jsstring) (v : record) :
  plot_point label (Some mf) df v
  = Ret (if plotted mf df v then Some (point_for label mf df v) else None).
Proof.
  unfold plot_point, plotted, point_for, metric_of, duration_like.
  cbn [prop_key].
  destruct (parseFloat (get v mf)) as [m|]; cbn [isNaN bind].
  - destruct (get v df); reflexivity.
  - destruct (includes (toLowerCase mf) (js "duration")
              || jseqb mf (js "duration_iso")).
    + destruct (durationToSeconds (duration_source v (Some mf)));
        destruct (get v df); reflexivity.
    + destruct (get v df); reflexivity.
Qed.

Lemma insert_perm {A} (le : A -> A -> bool) (x : A) (l : list A) :
  Permutation (insert le x l) (x :: l).
Proof.
  induction l as [|y l IH]; simpl; [reflexivity |].
  destruct (le x y); [reflexivity |].
  rewrite IH. apply perm_swap.
Qed.

Lemma sort_perm {A} (le : A -> A -> bool) (l : list A) :
  Permutation (sort le l) l.
Proof.
  induction l as [|x l IH]; simpl; [reflexivity |].
  rewrite insert_perm, IH. reflexivity.
Qed.

Lemma insert_sorted {A} (le : A -> A -> bool) (x : A) (l : list A) :
  (forall a b, le a b = false -> le b a = true) ->
  Sorted (fun a b => le a b = true) l ->
  Sorted (fun a b => le a b = true) (insert le x l).
Proof.
  intros Htot Hs. induction Hs as [|y l Hs IH Hd]; simpl.
  - repeat constructor.
  - destruct (le x y) eqn:E.
    + constructor; [constructor; assumption | constructor; exact E].
    + constructor; [exact IH |].
      destruct l as [|z l]; simpl.
      * constructor. apply Htot. exact E.
      * destruct (le x z); constructor; [apply Htot; exact E |].
        inversion Hd; assumption.
Qed.

Lemma sort_sorted {A} (le : A -> A -> bool) (l : list A) :
  (forall a b, le a b = false -> le b a = true) ->
  Sorted (fun a b => le a b = true) (sort le l).
Proof.
  intros Htot. induction l as [|x l IH]; simpl; [constructor |].
  apply insert_sorted; assumption.
Qed.

Lemma date_le_total (a b : Point) :
  date_le Date_time a b = false -> date_le Date_time b a = true.
Proof.
  unfold date_le.
  destruct (Date_time (date a)), (Date_time (date b)); try discriminate.
  intros H. apply Z.leb_gt in H. apply Z.leb_le. lia.
Qed.

(** Among points with valid dates, neighbours in order means all in
    order. *)
Lemma sorted_valid_ascending (l : list Point) :
  Forall (valid_date Date_time) l ->
  Sorted (fun a b => date_le Date_time a b = true) l ->
  StronglySorted (ascending Date_time) l.
Proof.
  intros Hv Hs. induction Hs as [|x l Hs IH Hd]; [constructor |].
  inversion Hv as [|? ? Hx Hl]; subst.
  specialize (IH Hl). constructor; [exact IH |].
  destruct Hd as [|y l Hxy]; [constructor |].
  assert (Hasc : ascending Date_time x y).
  { intros ta tb Ha Hb. unfold date_le in Hxy. rewrite Ha, Hb in Hxy.
    apply Z.leb_le. exact Hxy. }
  constructor; [exact Hasc |].
  inversion IH as [|? ? _ Hall]; subst.
  inversion Hl as [|? ? Hy _]; subst.
  eapply Forall_impl; [| exact Hall].
  intros z Hyz ta tc Ha Hc.
  unfold valid_date in Hy.
  destruct (Date_time (date y)) as [tb|] eqn:Eb; [| contradiction].
  specialize (Hasc ta tb Ha Eb). specialize (Hyz tb tc Eb Hc). lia.
Qed.

End Series.




(** ** The tool-call loops *)

Section CompletionsLoop.

Local Open Scope nat_scope.

Context {ToolArgs ToolResult Provider Tools : Type}.
Variable executeFn : option jsstring -> ToolArgs -> ToolResult.
Variable chartType : ToolResult -> bool.
Variable JSON_parse : jsstring -> option ToolArgs.
Variable JSON_stringify : ToolResult -> jsstring.
Variable create : Provider -> Request Tools -> option Reply * Provider.
Variable messages : list Message.
Variable tools : Tools.

Let loop :=
  csv_loop executeFn chartType JSON_parse JSON_stringify create messages tools.
Let state := LoopState ToolArgs ToolResult Provider.

(** One turn of the loop. *)
Lemma csv_loop_step (st : state) :
  loop st
  = if lt_dec (round st) CSV_ROUNDS then
      match requested (response st) with
      | [] => Ret st
      | tc :: tcs =>
          match run_calls executeFn JSON_parse JSON_stringify (tc :: tcs) with
          | Throw e => Throw e
          | Ret (records, tool_messages) =>
              let next :=
                create (provider st)
                  (MkRequest
                     (messages
                      ++ [MsgAssistant (content_or_null (response st)) (tc :: tcs)]
                      ++ tool_messages)
                     (Some tools)) in
              loop {| round := S (round st);
                      response := fst next;
                      provider := snd next;
                      charts := charts st ++ filter chartType (map result records);
                      toolCalls := toolCalls st ++ records |}
          end
      end
    else Ret st.
Proof.
  unfold loop. rewrite csv_loop_unfold_eq. unfold csv_loop_unfold.
  destruct (lt_dec (round st) CSV_ROUNDS); [| reflexivity].
  unfold csv_loop_unfold_clause_1, csv_loop_unfold_clause_1_clause_2.
  destruct (requested (response st)) as [|tc tcs]; [reflexivity |].
  unfold csv_loop_unfold_clause_1_clause_2_clause_2.
  destruct (run_calls executeFn JSON_parse JSON_stringify (tc :: tcs))
    as [[records tool_messages]|e]; reflexivity.
Qed.

Lemma run_calls_parses (tcs : list ToolCall) :
  parses JSON_parse tcs ->
  exists records tool_messages,
    run_calls executeFn JSON_parse JSON_stringify tcs
    = Ret (records, tool_messages)
    /\ length records = length tcs.
Proof.
  induction 1 as [|tc tcs Htc _ IH]; simpl.
  - exists [], []. split; reflexivity.
  - destruct (JSON_parse (arguments_text tc)) as [a|]; [| contradiction].
    destruct IH as (records & tool_messages & -> & Hlen). cbn [bind fst snd].
    eexists _, _. split; [reflexivity |]. simpl. rewrite Hlen. reflexivity.
Qed.

Lemma run_calls_length (tcs : list ToolCall) records tool_messages :
  run_calls executeFn JSON_parse JSON_stringify tcs = Ret (records, tool_messages) ->
  length records = length tcs.
Proof.
  revert records tool_messages.
  induction tcs as [|tc tcs IH]; simpl; intros records tool_messages H.
  - injection H as <- <-. reflexivity.
  - destruct (JSON_parse (arguments_text tc)) as [a|]; [| discriminate].
    destruct (run_calls executeFn JSON_parse JSON_stringify tcs)
      as [[rs ms]|e]; [| discriminate].
    cbn [bind fst snd] in H. injection H as <- <-.
    simpl. rewrite (IH rs ms eq_refl). reflexivity.
Qed.

(** The loop ends, within the ceiling, when the arguments the provider
    sends are JSON; what was gathered before is kept, and a provider that
    always asks for a tool is served up to the ceiling. *)
Lemma csv_loop_ends (k : nat) :
  forall st : state,
    CSV_ROUNDS - round st <= k ->
    round st <= CSV_ROUNDS ->
    sends_json JSON_parse create ->
    parses JSON_parse (requested (response st)) ->
    exists st' more,
      loop st = Ret st'
      /\ round st <= round st' <= CSV_ROUNDS
      /\ toolCalls st' = toolCalls st ++ more
      /\ charts st' = charts st ++ filter chartType (map result more)
      /\ (always_requests create -> requested (response st) <> [] ->
          round st' = CSV_ROUNDS /\ CSV_ROUNDS - round st <= length more).
Proof.
  induction k as [|k IH]; intros st Hk Hle Hjson Hparses;
    rewrite csv_loop_step.
  - destruct (lt_dec (round st) CSV_ROUNDS); [lia |].
    exists st, []. rewrite !app_nil_r. repeat split; try lia; reflexivity.
  - destruct (lt_dec (round st) CSV_ROUNDS) as [Hlt | Hge].
    2: { exists st, []. rewrite !app_nil_r. repeat split; try lia; reflexivity. }
    destruct (requested (response st)) as [|tc tcs] eqn:Ereq.
    { exists st, []. rewrite !app_nil_r.
      repeat split; try lia; try reflexivity; contradiction. }
    destruct (run_calls_parses (tc :: tcs) Hparses)
      as (records & tool_messages & Hrun & Hlen).
    rewrite Hrun. cbv zeta.
    match goal with
    | |- context [loop ?s] => destruct (IH s) as (st' & more & Hloop & Hr & Ht & Hc & Hall)
    end; cbn [round response]; try lia; try exact Hjson; [apply Hjson |].
    cbn [round toolCalls charts response] in *.
    exists st', (records ++ more). split; [exact Hloop |].
    split; [lia |].
    split; [rewrite Ht, app_assoc; reflexivity |].
    split; [rewrite Hc, map_app, filter_app, app_assoc; reflexivity |].
    intros Halways _. destruct (Hall Halways (Halways _ _)) as [Hfin Hmore].
    split; [exact Hfin |].
    rewrite length_app, Hlen. simpl length. lia.
Qed.

End CompletionsLoop.

Section GenerativeLoop.

Local Open Scope nat_scope.

Context {ToolArgs ToolResult Chat : Type}.
Variable executeFn : jsstring -> ToolArgs -> ToolResult.
Variable chartType : ToolResult -> bool.
Variable generatedImage : ToolResult -> bool.
Variable sendMessage : Chat -> Sent ToolResult -> list (Part ToolArgs) * Chat.

Let loop := json_loop executeFn chartType generatedImage sendMessage.
Let state := JsonLoopState ToolArgs ToolResult Chat.

(** One turn of the loop. *)
Lemma json_loop_step (st : state) :
  loop st
  = if lt_dec (jround st) JSON_ROUNDS then
      match find_call (jresponse st) with
      | None => st
      | Some (name, args) =>
          let toolResult := executeFn name args in
          let next := sendMessage (jchat st)
                        (SendFunctionResponse name toolResult) in
          loop {| jround := S (jround st);
                  jresponse := fst next;
                  jchat := snd next;
                  jcharts := jcharts st
                             ++ (if chartType toolResult then [toolResult] else []);
                  jtoolCalls := jtoolCalls st ++ [MkCallRecord name args toolResult];
                  jgeneratedImages :=
                    jgeneratedImages st
                    ++ (if generatedImage toolResult then [toolResult] else []) |}
      end
    else st.
Proof.
  unfold loop. rewrite json_loop_unfold_eq. unfold json_loop_unfold.
  destruct (lt_dec (jround st) JSON_ROUNDS); [| reflexivity].
  unfold json_loop_unfold_clause_1.
  destruct (find_call (jresponse st)) as [[name args]|]; reflexivity.
Qed.

(** The loop ends within the ceiling whatever the chat answers; what was
    gathered before is kept, and a chat that always asks for a tool is
    served exactly up to the ceiling. *)
Lemma json_loop_ends (k : nat) :
  forall st : state,
    JSON_ROUNDS - jround st <= k ->
    jround st <= JSON_ROUNDS ->
    exists more,
      jround st <= jround (loop st) <= JSON_ROUNDS
      /\ jtoolCalls (loop st) = jtoolCalls st ++ more
      /\ (always_calls sendMessage -> find_call (jresponse st) <> None ->
          jround (loop st) = JSON_ROUNDS
          /\ length more = JSON_ROUNDS - jround st).
Proof.
  induction k as [|k IH]; intros st Hk Hle; rewrite json_loop_step.
  - destruct (lt_dec (jround st) JSON_ROUNDS); [lia |].
    exists []. rewrite app_nil_r. repeat split; try lia. cbn [length]. lia.
  - destruct (lt_dec (jround st) JSON_ROUNDS) as [Hlt | Hge].
    2: { exists []. rewrite app_nil_r. repeat split; try lia. cbn [length]. lia. }
    destruct (find_call (jresponse st)) as [[name args]|] eqn:Ecall.
    2: { exists []. rewrite app_nil_r.
         repeat split; try lia; contradiction. }
    cbv zeta.
    match goal with
    | |- context [loop ?s] => destruct (IH s) as (more & Hr & Ht & Hall)
    end; cbn [jround]; try lia.
    cbn [jround jtoolCalls jresponse] in *.
    eexists (_ :: more). split; [lia |].
    split; [rewrite Ht, <- app_assoc; reflexivity |].
    intros Halways _. destruct (Hall Halways (Halways _ _)) as [Hfin Hmore].
    split; [exact Hfin |]. simpl length. lia.
Qed.

End GenerativeLoop.




(** ** Bulk CSV transport *)

Section Transport.

Local Open Scope N_scope.

Ltac Zify.zify_post_hook ::= Z.to_euclidean_division_equations.

(** A boolean test on numbers, by arithmetic. *)
Ltac bool_lia :=
  unfold is_continuation, is_high_surrogate, is_low_surrogate;
  unfold in_range;
  repeat rewrite ?andb_true_iff, ?andb_false_iff, ?orb_true_iff, ?orb_false_iff,
    ?negb_true_iff, ?negb_false_iff, ?N.ltb_lt, ?N.leb_le, ?N.eqb_eq,
    ?N.ltb_ge, ?N.leb_gt, ?N.eqb_neq;
  lia.

Ltac test_is b v := replace b with v by (symmetry; bool_lia).

Lemma b64_val_char (i : N) : i < 64 -> b64_val (b64_char i) = Some i.
Proof.
  intros Hi. unfold b64_char.
  destruct (N.ltb_spec i 26).
  { unfold b64_val. test_is (in_range 65 90 (65 + i)) true. f_equal. lia. }
  destruct (N.ltb_spec i 52).
  { unfold b64_val.
    test_is (in_range 65 90 (97 + (i - 26))) false.
    test_is (in_range 97 122 (97 + (i - 26))) true.
    f_equal. lia. }
  destruct (N.ltb_spec i 62).
  { unfold b64_val.
    test_is (in_range 65 90 (48 + (i - 52))) false.
    test_is (in_range 97 122 (48 + (i - 52))) false.
    test_is (in_range 48 57 (48 + (i - 52))) true.
    f_equal. lia. }
  destruct (N.eqb_spec i 62); [subst; reflexivity |].
  assert (i = 63) by lia. subst. reflexivity.
Qed.

(** No character of the alphabet is the padding sign. *)
Lemma b64_char_not_pad (i : N) : (b64_char i =? 61) = false.
Proof.
  unfold b64_char.
  destruct (N.ltb_spec i 26); [bool_lia |].
  destruct (N.ltb_spec i 52); [bool_lia |].
  destruct (N.ltb_spec i 62); [bool_lia |].
  destruct (N.eqb_spec i 62); reflexivity.
Qed.

Lemma b64decode_btoa_bounded (n : nat) :
  forall bytes,
    (length bytes <= n)%nat -> Forall byte bytes ->
    b64decode (btoa bytes) = Some bytes.
Proof.
  unfold byte.
  induction n as [|n IH]; intros bytes Hlen Hb.
  - destruct bytes; [reflexivity | simpl in Hlen; lia].
  - destruct bytes as [|x [|y [|z rest]]]; [reflexivity | | |].
    + inversion Hb as [|? ? Hx _]; subst.
      cbn [btoa b64decode is_nil]. rewrite N.eqb_refl. cbn [andb].
      rewrite !b64_val_char by lia. do 2 f_equal. lia.
    + inversion Hb as [|? ? Hx Hb1]; subst.
      inversion Hb1 as [|? ? Hy _]; subst.
      cbn [btoa b64decode is_nil]. rewrite N.eqb_refl, b64_char_not_pad.
      cbn [andb]. rewrite !b64_val_char by lia.
      f_equal. f_equal; [lia |]. f_equal. lia.
    + inversion Hb as [|? ? Hx Hb1]; subst.
      inversion Hb1 as [|? ? Hy Hb2]; subst.
      inversion Hb2 as [|? ? Hz Hrest]; subst.
      cbn [btoa b64decode]. rewrite b64_char_not_pad. cbn [andb].
      rewrite !b64_val_char by lia.
      rewrite (IH rest) by (simpl in Hlen; try lia; exact Hrest).
      f_equal. f_equal; [lia |]. f_equal; [lia |]. f_equal. lia.
Qed.

Lemma b64decode_btoa (bytes : list N) :
  Forall byte bytes -> b64decode (btoa bytes) = Some bytes.
Proof. apply (b64decode_btoa_bounded (length bytes)). lia. Qed.

Lemma utf8_bytes (cp : N) : scalar cp -> Forall byte (utf8 cp).
Proof.
  unfold scalar, byte, utf8. intros [Hmax Hsur].
  destruct (N.ltb_spec cp 128); [repeat constructor; lia |].
  destruct (N.ltb_spec cp 2048); [repeat constructor; lia |].
  destruct (N.ltb_spec cp 65536); repeat constructor; lia.
Qed.

(** The decoder reads back the code point the encoder wrote. *)
Lemma utf8_decode_utf8 (cp : N) (rest : list N) :
  scalar cp ->
  utf8_decode (utf8 cp ++ rest) = option_map (cons cp) (utf8_decode rest).
Proof.
  unfold scalar, utf8. intros [Hmax Hsur].
  destruct (N.ltb_spec cp 128) as [H1 | H1].
  { cbn [app utf8_decode]. test_is (cp <? 128) true. reflexivity. }
  destruct (N.ltb_spec cp 2048) as [H2 | H2].
  { cbn [app utf8_decode].
    test_is (192 + cp / 64 <? 128) false.
    test_is (in_range 194 223 (192 + cp / 64)) true.
    test_is (is_continuation (128 + cp mod 64)) true.
    replace ((192 + cp / 64 - 192) * 64 + (128 + cp mod 64 - 128)) with cp by lia.
    reflexivity. }
  destruct (N.ltb_spec cp 65536) as [H3 | H3].
  { cbn [app utf8_decode].
    test_is (224 + cp / 4096 <? 128) false.
    test_is (in_range 194 223 (224 + cp / 4096)) false.
    test_is (in_range 224 239 (224 + cp / 4096)) true.
    cbv zeta.
    replace ((224 + cp / 4096 - 224) * 4096 + (128 + (cp / 64) mod 64 - 128) * 64
             + (128 + cp mod 64 - 128)) with cp by lia.
    test_is (is_continuation (128 + (cp / 64) mod 64)) true.
    test_is (is_continuation (128 + cp mod 64)) true.
    test_is (2048 <=? cp) true.
    test_is (in_range 55296 57343 cp) false.
    reflexivity. }
  cbn [app utf8_decode].
  test_is (240 + cp / 262144 <? 128) false.
  test_is (in_range 194 223 (240 + cp / 262144)) false.
  test_is (in_range 224 239 (240 + cp / 262144)) false.
  test_is (in_range 240 244 (240 + cp / 262144)) true.
  cbv zeta.
  replace ((240 + cp / 262144 - 240) * 262144
           + (128 + (cp / 4096) mod 64 - 128) * 4096
           + (128 + (cp / 64) mod 64 - 128) * 64
           + (128 + cp mod 64 - 128)) with cp by lia.
  test_is (is_continuation (128 + (cp / 4096) mod 64)) true.
  test_is (is_continuation (128 + (cp / 64) mod 64)) true.
  test_is (is_continuation (128 + cp mod 64)) true.
  test_is (in_range 65536 1114111 cp) true.
  reflexivity.
Qed.

Lemma utf8_decode_encode (cps : list N) :
  Forall scalar cps ->
  utf8_decode (flat_map utf8 cps) = Some cps
  /\ Forall byte (flat_map utf8 cps).
Proof.
  induction 1 as [|cp cps Hcp _ [IH1 IH2]]; [split; [reflexivity | constructor] |].
  cbn [flat_map]. split.
  - rewrite (utf8_decode_utf8 cp _ Hcp), IH1. reflexivity.
  - apply Forall_app. split; [apply utf8_bytes; exact Hcp | exact IH2].
Qed.

Lemma scalar_values_scalar_bounded (n : nat) :
  forall s,
    (length s <= n)%nat -> Forall code_unit s -> Forall scalar (scalar_values s).
Proof.
  unfold code_unit, scalar.
  induction n as [|n IH]; intros s Hlen Hs.
  - destruct s; [constructor | simpl in Hlen; lia].
  - destruct s as [|c r]; [constructor |].
    inversion Hs as [|? ? Hc Hr]; subst. simpl in Hlen.
    cbn [scalar_values].
    destruct (is_high_surrogate c) eqn:Eh.
    + destruct r as [|d r']; [repeat constructor; lia |].
      inversion Hr as [|? ? Hd Hr']; subst. simpl in Hlen.
      destruct (is_low_surrogate d) eqn:El.
      * constructor; [| apply IH; [lia | exact Hr']].
        revert Eh El. bool_lia.
      * constructor; [lia |]. apply IH; [simpl; lia | exact Hr].
    + destruct (is_low_surrogate c) eqn:El.
      * constructor; [lia |]. apply IH; [lia | exact Hr].
      * constructor; [| apply IH; [lia | exact Hr]].
        revert Eh El. bool_lia.
Qed.

Lemma well_formed_round_bounded (n : nat) :
  forall s,
    (length s <= n)%nat -> well_formed s = true ->
    flat_map utf16 (scalar_values s) = s /\ Forall code_unit s.
Proof.
  unfold code_unit.
  induction n as [|n IH]; intros s Hlen Hw.
  - destruct s; [split; [reflexivity | constructor] | simpl in Hlen; lia].
  - destruct s as [|c r]; [split; [reflexivity | constructor] |].
    simpl in Hlen. cbn [well_formed scalar_values] in *.
    destruct (is_high_surrogate c) eqn:Eh.
    + destruct r as [|d r']; [discriminate |].
      apply andb_true_iff in Hw. destruct Hw as [El Hw]. rewrite El.
      simpl in Hlen. destruct (IH r' ltac:(lia) Hw) as [IH1 IH2].
      cbn [flat_map]. rewrite IH1. unfold utf16.
      assert (Hc : 55296 <= c <= 56319) by (revert Eh; bool_lia).
      assert (Hd : 56320 <= d <= 57343) by (revert El; bool_lia).
      test_is (65536 + (c - 55296) * 1024 + (d - 56320) <? 65536) false.
      split.
      * cbn [app]. f_equal; [lia |]. f_equal. lia.
      * repeat constructor; try lia. exact IH2.
    + apply andb_true_iff in Hw. destruct Hw as [Hw Hr].
      apply andb_true_iff in Hw. destruct Hw as [El Hlt].
      apply negb_true_iff in El. rewrite El.
      destruct (IH r ltac:(lia) Hr) as [IH1 IH2].
      cbn [flat_map]. rewrite IH1. unfold utf16. rewrite Hlt.
      split; [reflexivity |]. constructor; [apply N.ltb_lt; exact Hlt | exact IH2].
Qed.

(** What the decode recipe gives back is the text as [TextEncoder] read
    it: each pair as its code point, each surrogate on its own as
    U+FFFD. *)
Lemma decode_payload_toBase64 (s : jsstring) :
  Forall code_unit s ->
  decode_payload (toBase64 s) = Some (flat_map utf16 (scalar_values s)).
Proof.
  intros Hs. unfold decode_payload, toBase64, TextEncoder_encode.
  destruct (utf8_decode_encode (scalar_values s)) as [Hdec Hbytes].
  { apply (scalar_values_scalar_bounded (length s));
      [apply Nat.le_refl | exact Hs]. }
  rewrite (b64decode_btoa _ Hbytes), Hdec. reflexivity.
Qed.

(** A text in which every surrogate has its pair comes back as it is. *)
Lemma decode_payload_well_formed (s : jsstring) :
  well_formed s = true -> decode_payload (toBase64 s) = Some s.
Proof.
  intros Hw.
  destruct (well_formed_round_bounded (length s) s (Nat.le_refl _) Hw)
    as [Hround Hunits].
  rewrite (decode_payload_toBase64 s Hunits), Hround. reflexivity.
Qed.

End Transport.

Section Payload.

Local Open Scope N_scope.
Local Opaque CEILING.

(** What [parseCSV] encodes, and when it says so: at most the first
    500000 code units of the text, flagged exactly when the text is
    longer; the payload decodes to the encoded text when no surrogate in
    it stands alone. *)
Lemma parseCSV_payload (text : jsstring) (c : CsvContext) :
  parseCSV text = Some c ->
  let raw := firstn (N.to_nat CEILING) text in
  base64 c = toBase64 raw
  /\ (truncated c = true <-> CEILING < N.of_nat (length text))
  /\ (truncated c = false -> raw = text)
  /\ (Forall code_unit text ->
      decode_payload (base64 c) = Some (flat_map utf16 (scalar_values raw)))
  /\ (well_formed raw = true -> decode_payload (base64 c) = Some raw).
Proof.
  intros H raw. unfold parseCSV in H.
  destruct (filter _ (split 10 text)) as [|line0 lines]; [discriminate |].
  injection H as <-. cbn [base64 truncated]. unfold slice0.
  assert (Hall : (N.of_nat (length text) <= CEILING) -> raw = text).
  { intros Hshort. apply firstn_all2. lia. }
  assert (Hunits : Forall code_unit text -> Forall code_unit raw).
  { intros Hu. rewrite <- (firstn_skipn (N.to_nat CEILING) text) in Hu.
    apply Forall_app in Hu. exact (proj1 Hu). }
  destruct (N.ltb_spec CEILING (N.of_nat (length text))) as [Hlong | Hshort].
  - fold raw. split; [reflexivity |]. split; [tauto |].
    split; [discriminate |].
    split; [intros Hu; apply decode_payload_toBase64, Hunits, Hu |].
    apply decode_payload_well_formed.
  - pose proof (Hall Hshort) as E. clearbody raw. subst raw.
    split; [reflexivity |].
    split; [split; [discriminate | lia] |].
    split; [reflexivity |].
    split; [apply decode_payload_toBase64 | apply decode_payload_well_formed].
Qed.

End Payload.

Local Transparent CEILING.

(** C9: [parseCSV] encodes at most the first 500000 code units and flags
    a longer text, but the ceiling can fall inside a surrogate pair.  On a
    line of 499999 letters and then the emoji U+1F600, the text encoded
    ends in the first half of the pair, [TextEncoder] writes U+FFFD for
    it, and the payload decodes to the letters and U+FFFD, not to the
    text that was cut. *)
Theorem parseCSV_cuts_a_surrogate_pair :
  option_map truncated (parseCSV emoji_at_the_ceiling) = Some true
  /\ slice0 (N.to_nat CEILING) emoji_at_the_ceiling = letters ++ [55357%N]
  /\ payload_text emoji_at_the_ceiling = Some (letters ++ [65533%N]).
Proof.
  assert (Hflag : option_map truncated (parseCSV emoji_at_the_ceiling) = Some true)
    by (vm_compute; reflexivity).
  assert (Hcut : jseqb (slice0 (N.to_nat CEILING) emoji_at_the_ceiling)
                       (letters ++ [55357%N]) = true)
    by (vm_compute; reflexivity).
  assert (Hback : match payload_text emoji_at_the_ceiling with
                  | Some t => jseqb t (letters ++ [65533%N])
                  | None => false
                  end = true)
    by (vm_compute; reflexivity).
  split; [exact Hflag |]. split; [apply jseqb_eq; exact Hcut |].
  destruct (payload_text emoji_at_the_ceiling) as [t|]; [| discriminate].
  apply jseqb_eq in Hback. rewrite Hback. reflexivity.
Qed.

(* ===================================================================== *)
(** * Further properties *)
(* ===================================================================== *)

Import Shapes Server ChatState ComponentExamples.

Section DurationShapes.

Lemma take_digits_spec (s : jsstring) :
  s = fst (take_digits s) ++ snd (take_digits s)
  /\ forallb is_digit (fst (take_digits s)) = true
  /\ match snd (take_digits s) with
     | c :: _ => is_digit c = false
     | [] => True
     end.
Proof.
  induction s as [|c r IH]; [repeat split |].
  cbn [take_digits]. destruct (is_digit c) eqn:E.
  - destruct (take_digits r) as [ds rest]. cbn [fst snd] in *.
    destruct IH as (H1 & H2 & H3). repeat split.
    + simpl. f_equal. exact H1.
    + simpl. rewrite E. exact H2.
    + exact H3.
  - cbn [fst snd]. repeat split. exact E.
Qed.

Lemma take_digits_app (ds rest : jsstring) :
  forallb is_digit ds = true ->
  match rest with c :: _ => is_digit c = false | [] => True end ->
  take_digits (ds ++ rest) = (ds, rest).
Proof.
  intros Hd Hr. induction ds as [|d ds IH].
  - destruct rest as [|c r]; [reflexivity |]. simpl. rewrite Hr. reflexivity.
  - simpl in Hd. apply andb_true_iff in Hd. destruct Hd as [H1 H2].
    cbn [app take_digits]. rewrite H1, (IH H2). reflexivity.
Qed.

Lemma consumed_prefix (p q : jsstring) :
  firstn (length (p ++ q) - length q) (p ++ q) = p.
Proof.
  rewrite length_app, Nat.add_sub, firstn_app, Nat.sub_diag, firstn_all.
  simpl. apply app_nil_r.
Qed.

Lemma startsWith_nil (s : jsstring) : startsWith s [] = true.
Proof. destruct s; reflexivity. Qed.

(** A literal, with the case kept. *)
Lemma rmatch_lit_exact (w : jsstring) :
  forall bef aft cs,
    rmatch false (lit_chars w) (MState bef aft cs)
    = if startsWith aft w
      then [MState (rev w ++ bef) (skipn (length w) aft) cs]
      else [].
Proof.
  induction w as [|c w IH]; intros bef aft cs; [destruct aft; reflexivity |].
  cbn [lit_chars rmatch]. unfold one. cbn [after].
  destruct aft as [|x aft]; [reflexivity |].
  cbn [startsWith]. unfold char_eq. destruct (N.eqb x c) eqn:E; [| reflexivity].
  apply N.eqb_eq in E. subst x.
  cbn [flat_map andb]. unfold advance. cbn [before caps].
  rewrite IH, app_nil_r. destruct (startsWith aft w); [| reflexivity].
  cbn [length skipn rev]. rewrite <- app_assoc. reflexivity.
Qed.

Lemma digits_then_letter (n : nat) (x : jschar) (bef0 : jsstring)
  (cs : list (nat * jsstring)) (rest : jsstring) :
  is_digit x = false ->
  match rest with c :: _ => is_digit c = false | [] => True end ->
  forall ds done,
    forallb is_digit ds = true ->
    flat_map (rmatch false (lit_chars [x]))
      (map (fun st' =>
              MState (before st') (after st')
                ((n, consumed (MState bef0 (done ++ ds ++ rest) cs) st')
                 :: caps st'))
           (plus_cls is_digit (rev done ++ bef0) (ds ++ rest) cs))
    = match ds, rest with
      | _ :: _, c :: rest' =>
          if N.eqb c x
          then [MState (c :: rev (done ++ ds) ++ bef0) rest'
                  ((n, done ++ ds) :: cs)]
          else []
      | _, _ => []
      end.
Proof.
  intros Hx Hrest. induction ds as [|a ds IH]; intros done Hd.
  - cbn [app]. destruct rest as [|c rest']; [reflexivity |].
    cbn [plus_cls]. rewrite Hrest. reflexivity.
  - simpl in Hd. apply andb_true_iff in Hd. destruct Hd as [Ha Hd].
    cbn [app plus_cls]. rewrite Ha, map_app, flat_map_app.
    specialize (IH (done ++ [a]) Hd).
    rewrite rev_app_distr in IH. cbn [rev app] in IH.
    rewrite <- !app_assoc in IH. cbn [app] in IH.
    rewrite IH. clear IH.
    cbn [map flat_map before after caps]. rewrite app_nil_r.
    rewrite rmatch_lit_exact.
    destruct ds as [|d' ds].
    + cbn [app]. destruct rest as [|c rest']; [reflexivity |].
      cbn [startsWith]. rewrite startsWith_nil, andb_true_r.
      destruct (N.eqb c x) eqn:E; [| reflexivity].
      cbn [app length skipn rev]. unfold consumed. cbn [after].
      change (done ++ a :: c :: rest') with (done ++ [a] ++ c :: rest').
      rewrite app_assoc, consumed_prefix, rev_app_distr.
      apply N.eqb_eq in E. subst c. reflexivity.
    + cbn [app startsWith]. simpl in Hd. apply andb_true_iff in Hd.
      destruct Hd as [Hd' _].
      assert (E : N.eqb d' x = false).
      { apply N.eqb_neq. intros ->. congruence. }
      rewrite E. cbn [andb]. rewrite app_nil_r.
      destruct rest as [|c rest']; reflexivity.
Qed.

(** One unit group, digits and letter. *)
Lemma unit_group (n : nat) (x : jschar) (st : mstate) :
  is_digit x = false ->
  rmatch false (Seq (Grp n digits1) (lit_chars [x])) st
  = match take_digits (after st) with
    | (d :: ds, c :: rest) =>
        if N.eqb c x
        then [MState (c :: rev (d :: ds) ++ before st) rest
                ((n, d :: ds) :: caps st)]
        else []
    | _ => []
    end.
Proof.
  intros Hx. destruct st as [bef aft cs]. cbn [before after caps].
  destruct (take_digits_spec aft) as (Haft & Hds & Hrest).
  destruct (take_digits aft) as [ds rest]. cbn [fst snd] in *.
  rewrite rmatch_Seq. unfold digits1. cbn [rmatch before after caps].
  pose proof (digits_then_letter n x bef cs rest Hx Hrest ds [] Hds) as H.
  cbn [app rev] in H. rewrite <- Haft in H. rewrite H.
  destruct ds; reflexivity.
Qed.

Lemma unit_step_head (n : nat) (x : jschar) (st : mstate) :
  is_digit x = false ->
  hd_error (rmatch false (Opt (Seq (Grp n digits1) (lit_chars [x]))) st)
  = Some (unit_step n x st).
Proof.
  intros Hx. rewrite rmatch_Opt, (unit_group n x st Hx). unfold unit_step.
  destruct (take_digits (after st)) as [[|d ds] [|c rest]]; try reflexivity.
  destruct (N.eqb c x); reflexivity.
Qed.

Lemma hd_flat_map {A B} (f : A -> list B) (l : list A) (x : A) (y : B) :
  hd_error l = Some x -> hd_error (f x) = Some y ->
  hd_error (flat_map f l) = Some y.
Proof.
  destruct l as [|a l]; [discriminate |]. intros H. injection H as ->.
  cbn [flat_map]. destruct (f x); [discriminate |]. intros H. exact H.
Qed.

(** The pattern of the ISO form, from a given state: it matches where
    the text ahead begins with PT, and the first match takes each unit
    that stands there. *)
Lemma pt_pattern_head (bef aft : jsstring) (cs : list (nat * jsstring)) :
  hd_error (rmatch false PT_PATTERN (MState bef aft cs))
  = if startsWith aft (js "PT")
    then Some (unit_step 3 83%N (unit_step 2 77%N (unit_step 1 72%N
                 (MState (rev (js "PT") ++ bef) (skipn 2 aft) cs))))
    else None.
Proof.
  unfold PT_PATTERN. rewrite rmatch_Seq.
  change (lit "PT") with (lit_chars (js "PT")). rewrite rmatch_lit_exact.
  destruct (startsWith aft (js "PT")); [| reflexivity].
  cbn [flat_map]. rewrite app_nil_r. rewrite rmatch_Seq.
  eapply hd_flat_map; [apply (unit_step_head 1 72%N); reflexivity |].
  rewrite rmatch_Seq.
  eapply hd_flat_map; [apply (unit_step_head 2 77%N); reflexivity |].
  apply (unit_step_head 3 83%N). reflexivity.
Qed.


Lemma unit_step_caps (n : nat) (x : jschar) (st : mstate) :
  Forall (fun c => digits (snd c)) (caps st) ->
  Forall (fun c => digits (snd c)) (caps (unit_step n x st)).
Proof.
  intros H. unfold unit_step.
  destruct (take_digits_spec (after st)) as (_ & Hds & _).
  destruct (take_digits (after st)) as [[|d ds] [|c rest]]; try exact H.
  destruct (N.eqb c x); [| exact H].
  cbn [caps fst] in *. constructor; [| exact H].
  split; [discriminate | exact Hds].
Qed.

Lemma digit_is_no_sign (x : jschar) :
  is_digit x = true -> N.eqb x 45 = false /\ N.eqb x 43 = false.
Proof.
  unfold is_digit, in_range. intros H. apply andb_true_iff in H.
  destruct H as [H1 _]. apply N.leb_le in H1.
  split; apply N.eqb_neq; lia.
Qed.

(** [parseInt] of a text of digits is the number they spell. *)
Lemma parseInt_str_digits (ds : jsstring) :
  digits ds -> parseInt_str ds = Some (digits_val 0 ds).
Proof.
  intros [Hne Hd]. destruct ds as [|d ds]; [contradiction |].
  assert (Hd0 : is_digit d = true)
    by (simpl in Hd; apply andb_true_iff in Hd; tauto).
  unfold parseInt_str, trimStart. cbn [dropWhile].
  rewrite (digit_is_no_space d Hd0). unfold take_sign.
  destruct (digit_is_no_sign d Hd0) as [-> ->].
  rewrite <- (app_nil_r (d :: ds)) at 1.
  rewrite (take_digits_app (d :: ds) [] Hd I). reflexivity.
Qed.

Lemma lookup_cap_In (n : nat) (cs : list (nat * jsstring)) (s : jsstring) :
  lookup_cap n cs = Some s -> In (n, s) cs.
Proof.
  induction cs as [|[k v] cs IH]; [discriminate |]. cbn [lookup_cap].
  destruct (Nat.eqb k n) eqn:E.
  - intros H. injection H as ->. apply Nat.eqb_eq in E. subst k.
    left. reflexivity.
  - intros H. right. apply IH. exact H.
Qed.

Lemma group_int_digits (n : nat) (m : mstate * mstate) :
  Forall (fun c => digits (snd c)) (caps (snd m)) ->
  exists z, group_int n m = Some z.
Proof.
  intros H. unfold group_int, group.
  destruct (lookup_cap n (caps (snd m))) as [s|] eqn:E; [| eexists; reflexivity].
  apply lookup_cap_In in E. rewrite Forall_forall in H.
  specialize (H _ E). cbn [snd] in H.
  rewrite (parseInt_str_digits s H). destruct (truthy_str s); eexists; reflexivity.
Qed.

Lemma hms_digits (m : mstate * mstate) :
  Forall (fun c => digits (snd c)) (caps (snd m)) ->
  exists q, hms m = Some q.
Proof.
  intros H. unfold hms.
  destruct (group_int_digits 1 m H) as [h ->].
  destruct (group_int_digits 2 m H) as [mi ->].
  destruct (group_int_digits 3 m H) as [s ->].
  eexists. reflexivity.
Qed.

(** The ISO pattern finds a match exactly in a text that holds PT, and
    what it finds gives a number. *)
Lemma pt_pattern_search (aft : jsstring) :
  forall bef,
    match search false PT_PATTERN bef aft with
    | Some m => includes aft (js "PT") = true /\ exists q, hms m = Some q
    | None => includes aft (js "PT") = false
    end.
Proof.
  induction aft as [|x aft IH]; intros bef; rewrite search_unfold.
  - pose proof (pt_pattern_head bef [] []) as H0.
    destruct (rmatch false PT_PATTERN (MState bef [] [])); [reflexivity |].
    discriminate.
  - pose proof (pt_pattern_head bef (x :: aft) []) as H1.
    destruct (rmatch false PT_PATTERN (MState bef (x :: aft) [])) as [|m ms].
    + cbn [hd_error] in H1. specialize (IH (x :: bef)).
      cbn [includes].
      destruct (startsWith (x :: aft) (js "PT")); [discriminate |].
      exact IH.
    + cbn [hd_error] in H1. cbn [includes].
      destruct (startsWith (x :: aft) (js "PT")); [| discriminate].
      split; [reflexivity |]. injection H1 as ->.
      apply hms_digits. cbn [snd].
      repeat apply unit_step_caps. constructor.
Qed.

Lemma unit_step_present (n : nat) (x : jschar) (ds rest bef : jsstring)
  (cs : list (nat * jsstring)) :
  digits ds -> is_digit x = false ->
  unit_step n x (MState bef (ds ++ x :: rest) cs)
  = MState (x :: rev ds ++ bef) rest ((n, ds) :: cs).
Proof.
  intros [Hne Hd] Hx. unfold unit_step. cbn [after before caps].
  rewrite (take_digits_app ds (x :: rest) Hd Hx).
  destruct ds; [contradiction |]. rewrite N.eqb_refl. reflexivity.
Qed.

Lemma unit_step_absent (n : nat) (x y : jschar) (ds rest bef : jsstring)
  (cs : list (nat * jsstring)) :
  forallb is_digit ds = true -> is_digit y = false -> N.eqb y x = false ->
  unit_step n x (MState bef (ds ++ y :: rest) cs)
  = MState bef (ds ++ y :: rest) cs.
Proof.
  intros Hd Hy Hyx. unfold unit_step. cbn [after before caps].
  rewrite (take_digits_app ds (y :: rest) Hd Hy).
  destruct ds; [reflexivity |]. rewrite Hyx. reflexivity.
Qed.

End DurationShapes.


Lemma unit_step_other (n : nat) (x y : jschar) (ds rest bef : jsstring)
  (cs : list (nat * jsstring)) :
  digits ds -> is_digit y = false -> N.eqb y x = false ->
  unit_step n x (MState bef (ds ++ y :: rest) cs)
  = MState bef (ds ++ y :: rest) cs.
Proof. intros [_ Hd]. apply unit_step_absent. exact Hd. Qed.

Lemma unit_step_end (n : nat) (x : jschar) (bef : jsstring)
  (cs : list (nat * jsstring)) :
  unit_step n x (MState bef [] cs) = MState bef [] cs.
Proof. reflexivity. Qed.

Lemma group_int_digits_val (n : nat) (st0 st : mstate) (ds : jsstring) :
  digits ds -> lookup_cap n (caps st) = Some ds ->
  group_int n (st0, st) = Some (digits_val 0 ds).
Proof.
  intros Hd H. unfold group_int, group. cbn [snd]. rewrite H.
  rewrite (parseInt_str_digits ds Hd).
  destruct Hd as [Hne _]. destruct ds; [contradiction | reflexivity].
Qed.

Lemma group_int_none (n : nat) (st0 st : mstate) :
  lookup_cap n (caps st) = None -> group_int n (st0, st) = Some 0%Z.
Proof. intros H. unfold group_int, group. cbn [snd]. rewrite H. reflexivity. Qed.

Ltac unit_steps :=
  repeat first
    [ rewrite unit_step_present by (assumption || reflexivity)
    | rewrite unit_step_other by (assumption || reflexivity)
    | rewrite unit_step_end ].



Section Anchors.

(** A pattern that opens with ^ has no match past the start of the
    text. *)
Lemma bol_search_later (ci : bool) (r : re) (aft : jsstring) :
  forall bef, bef <> [] -> search ci (Seq Bol r) bef aft = None.
Proof.
  induction aft as [|y aft IH]; intros bef Hb; rewrite search_unfold;
    rewrite rmatch_Seq; cbn [rmatch before];
    (destruct bef; [contradiction |]); cbn [flat_map]; [reflexivity |].
  apply IH. discriminate.
Qed.

Lemma exec_bol (ci : bool) (r : re) (s : jsstring) :
  exec ci (Seq Bol r) s
  = match rmatch ci r (MState [] s []) with
    | m :: _ => Some (MState [] s [], m)
    | [] => None
    end.
Proof.
  unfold exec. rewrite search_unfold, rmatch_Seq. cbn [rmatch before flat_map].
  rewrite app_nil_r. destruct (rmatch ci r (MState [] s [])); [| reflexivity].
  destruct s; [reflexivity |]. apply bol_search_later. discriminate.
Qed.

Lemma test_bol (ci : bool) (r : re) (s : jsstring) :
  test ci (Seq Bol r) s = negb (is_nil (rmatch ci r (MState [] s []))).
Proof.
  unfold test. rewrite exec_bol. destruct (rmatch ci r (MState [] s [])); reflexivity.
Qed.

Lemma startsWith_exact (w : jsstring) :
  forall s, startsWith s w = true -> skipn (length w) s = [] -> s = w.
Proof.
  induction w as [|c w IH]; intros s Hs Hk.
  - exact Hk.
  - destruct s as [|x s]; [discriminate |]. cbn [startsWith] in Hs.
    apply andb_true_iff in Hs. destruct Hs as [Hx Hs].
    apply N.eqb_eq in Hx. subst x. f_equal. apply IH; assumption.
Qed.

(** ^(a|b|c)$ matches the three texts and no other. *)
Lemma anchored_words (a b c : string) (s : jsstring) :
  test false (anchored (alts [lit a; lit b; lit c])) s = true ->
  s = js a \/ s = js b \/ s = js c.
Proof.
  unfold anchored. rewrite test_bol, rmatch_Seq.
  intros H.
  assert (Hne : flat_map (rmatch false Eol)
                  (rmatch false (Grp 1 (alts [lit a; lit b; lit c]))
                     (MState [] s [])) <> [])
    by (intros E; rewrite E in H; discriminate).
  clear H. apply flat_map_not_nil in Hne. destruct Hne as (m & Hin & Hm).
  cbn [rmatch alts] in Hin. apply in_map_iff in Hin.
  destruct Hin as (m' & <- & Hin). cbn [rmatch after] in Hm.
  destruct (after m') eqn:Ea; [| contradiction]. clear Hm.
  unfold lit in Hin. rewrite !rmatch_lit_exact in Hin.
  repeat (apply in_app_or in Hin; destruct Hin as [Hin | Hin]).
  - destruct (startsWith s (js a)) eqn:Es; [| destruct Hin].
    destruct Hin as [<- | []]. left. apply startsWith_exact; assumption.
  - destruct (startsWith s (js b)) eqn:Es; [| destruct Hin].
    destruct Hin as [<- | []]. right. left. apply startsWith_exact; assumption.
  - destruct (startsWith s (js c)) eqn:Es; [| destruct Hin].
    destruct Hin as [<- | []]. right. right. apply startsWith_exact; assumption.
Qed.

Lemma plus_cls_In (p : jschar -> bool) (rest : jsstring)
  (cs : list (nat * jsstring)) (ds : jsstring) :
  forall bef,
    ds <> [] -> forallb p ds = true ->
    In (MState (rev ds ++ bef) rest cs) (plus_cls p bef (ds ++ rest) cs).
Proof.
  induction ds as [|d ds IH]; intros bef Hne Hd; [contradiction |].
  simpl in Hd. apply andb_true_iff in Hd. destruct Hd as [H1 H2].
  cbn [app plus_cls]. rewrite H1. apply in_or_app.
  destruct ds as [|d' ds].
  - right. left. reflexivity.
  - left. cbn [rev]. rewrite <- app_assoc. apply IH; [discriminate | exact H2].
Qed.

Lemma plus_cls_head (p : jschar -> bool) (rest : jsstring)
  (cs : list (nat * jsstring)) (ds : jsstring) :
  match rest with c :: _ => p c = false | [] => True end ->
  forall bef,
    ds <> [] -> forallb p ds = true ->
    hd_error (plus_cls p bef (ds ++ rest) cs)
    = Some (MState (rev ds ++ bef) rest cs).
Proof.
  intros Hr. induction ds as [|d ds IH]; intros bef Hne Hd; [contradiction |].
  simpl in Hd. apply andb_true_iff in Hd. destruct Hd as [H1 H2].
  cbn [app plus_cls]. rewrite H1.
  destruct ds as [|d' ds].
  - cbn [app]. destruct rest as [|c rest]; [reflexivity |].
    cbn [plus_cls]. rewrite Hr. reflexivity.
  - specialize (IH (d :: bef) ltac:(discriminate) H2).
    destruct (plus_cls p (d :: bef) ((d' :: ds) ++ rest) cs); [discriminate |].
    cbn [hd_error app] in *. rewrite IH. cbn [rev]. rewrite <- !app_assoc.
    reflexivity.
Qed.

End Anchors.

Section Selection.

Lemma selector_text (sel : jsstring) :
  (if falsy_name (Some sel) then [] else prop_key (Some sel)) = sel.
Proof. destruct sel; reflexivity. Qed.

(** The head of a sorted array is the first of the entries that no other
    entry comes before. *)
Lemma hd_sort_first {A} (le : A -> A -> bool) :
  (forall a b, le a b = false -> le b a = true) ->
  (forall a b c, le a b = true -> le b c = true -> le a c = true) ->
  forall l, l <> [] ->
    exists pre v post,
      l = pre ++ v :: post
      /\ Forall (fun w => le w v = false) pre
      /\ Forall (fun w => le v w = true) post
      /\ hd_error (sort le l) = Some v.
Proof.
  intros Htot Htrans. induction l as [|x r IH]; intros Hne; [contradiction |].
  destruct r as [|y r'].
  - exists [], x, []. repeat split; constructor.
  - destruct (IH ltac:(discriminate)) as (pre & v & post & Hr & Hpre & Hpost & Hhd).
    change (sort le (x :: y :: r')) with (insert le x (sort le (y :: r'))).
    destruct (sort le (y :: r')) as [|v' tl]; [discriminate |].
    injection Hhd as ->. cbn [insert].
    destruct (le x v) eqn:E.
    + exists [], x, (y :: r'). repeat split; [constructor |].
      rewrite Hr. apply Forall_app. split.
      * rewrite Forall_forall in *. intros w Hw.
        eapply Htrans; [exact E |]. apply Htot. apply Hpre. exact Hw.
      * constructor.
        -- destruct (le x v); [reflexivity | discriminate].
        -- rewrite Forall_forall in *. intros w Hw.
           eapply Htrans; [exact E |]. apply Hpost. exact Hw.
    + exists (x :: pre), v, post. rewrite Hr. repeat split.
      * constructor; assumption.
      * exact Hpost.
Qed.

End Selection.

Ltac selector_is Hsel :=
  unfold play_video; rewrite Hsel, selector_text.



Section Ordinals.

Lemma digit_differs (d c : jschar) :
  is_digit d = true -> is_digit c = false -> N.eqb d c = false.
Proof. intros Hd Hc. apply N.eqb_neq. intros ->. congruence. Qed.

Lemma digit_head_differs (d c : jschar) (r w : jsstring) :
  is_digit d = true -> is_digit c = false -> jseqb (d :: r) (c :: w) = false.
Proof. intros Hd Hc. cbn [jseqb]. rewrite (digit_differs d c Hd Hc). reflexivity. Qed.

Lemma suffix_no_digit (suffix : jsstring) :
  In suffix ORDINAL_SUFFIXES ->
  match suffix with c :: _ => is_digit c = false | [] => True end.
Proof.
  intros H. repeat (destruct H as [<- | H]; [try reflexivity; exact I |]).
  destruct H.
Qed.

Lemma flat_map_In_not_nil {A B} (f : A -> list B) (l : list A) (x : A) :
  In x l -> f x <> [] -> flat_map f l <> [].
Proof.
  intros Hin Hf E. destruct (f x) as [|y ys] eqn:Ef; [contradiction |].
  assert (Hy : In y (flat_map f l)).
  { apply in_flat_map. exists x. split; [exact Hin |]. rewrite Ef. left. reflexivity. }
  rewrite E in Hy. destruct Hy.
Qed.

(** ^(\d+)(st|nd|rd|th)?$ matches digits under any of the suffixes. *)
Lemma nth_matches (ds suffix : jsstring) :
  digits ds -> In suffix ORDINAL_SUFFIXES ->
  test false NTH (ds ++ suffix) = true.
Proof.
  intros [Hne Hd] Hs. unfold NTH. rewrite test_bol, rmatch_Seq.
  match goal with
  | |- negb (is_nil ?l) = true =>
      assert (H : l <> []); [| destruct l; [contradiction | reflexivity]]
  end.
  eapply flat_map_In_not_nil.
  - unfold digits1. cbn [rmatch before after caps]. apply in_map.
    pose proof (plus_cls_In is_digit suffix [] ds [] Hne Hd) as Hin.
    exact Hin.
  - generalize (consumed (MState [] (ds ++ suffix) []) (MState (rev ds ++ []) suffix [])).
    generalize (rev ds ++ []). intros b c. cbn [before after caps].
    repeat (destruct Hs as [<- | Hs]; [vm_compute; discriminate |]).
    destruct Hs.
Qed.

(** /\d+/ finds the digits a text begins with. *)
Lemma digits_exec (ds rest : jsstring) :
  digits ds ->
  match rest with c :: _ => is_digit c = false | [] => True end ->
  option_map whole (exec false digits1 (ds ++ rest)) = Some ds.
Proof.
  intros [Hne Hd] Hr. unfold exec. rewrite search_unfold.
  unfold digits1. cbn [rmatch before after caps].
  pose proof (plus_cls_head is_digit rest [] ds Hr [] Hne Hd) as H.
  destruct (plus_cls is_digit [] (ds ++ rest) []) as [|m ms]; [discriminate |].
  injection H as ->. cbn [option_map]. unfold whole, consumed. cbn [fst snd after].
  rewrite consumed_prefix. reflexivity.
Qed.

Lemma digits_of_word (ds suffix : jsstring) (w : jsstring) :
  digits ds -> In suffix ORDINAL_SUFFIXES -> ds ++ suffix = w ->
  ds = fst (take_digits w).
Proof.
  intros [_ Hd] Hs <-.
  rewrite (take_digits_app ds suffix Hd (suffix_no_digit suffix Hs)). reflexivity.
Qed.

End Ordinals.

Ltac known_index :=
  lazymatch goal with
  | |- _ = Ret (match at_index ?vs ?i with _ => _ end) =>
      let j := eval vm_compute in i in
      change i with j; destruct (at_index vs j); reflexivity
  end.

(** X4: a selector of digits, with or without one of the suffixes st,
    nd, rd, th, makes [play_video] show the record at that position,
    counted from 1, and gives the not-found error when there is no such
    record, as for 0 and for a number past the last record. *)
Theorem play_video_ordinal :
  forall (Date_time : JsVal -> option Z) (label : JsVal -> jsstring)
         (args : Args) (sel ds suffix : jsstring) (videos : list record),
    video_selector args = Some sel ->
    trim (toLowerCase sel) = ds ++ suffix ->
    digits ds -> In suffix ORDINAL_SUFFIXES ->
    videos <> [] ->
    executeJsonTool Date_time label (js "play_video") args (Some videos)
    = Ret (match at_index videos (digits_val 0 ds - 1) with
           | Some v => video_card v
           | None => video_not_found (Some sel)
           end).
Proof.
  intros Date_time label args sel ds suffix videos Hsel Htrim Hds Hsuf Hne.
  assert (Hplay : executeJsonTool Date_time label (js "play_video") args (Some videos)
                  = play_video args videos).
  { destruct videos; [contradiction | reflexivity]. }
  rewrite Hplay. clear Hplay. selector_is Hsel. rewrite Htrim.
  assert (Hsup : forall w : string,
             In w ["most viewed"; "most viewed video"; "least viewed";
                   "least viewed video"]%string ->
             jseqb (ds ++ suffix) (js w) = false).
  { destruct Hds as [Hn Hd]. destruct ds as [|d ds']; [contradiction |].
    simpl in Hd. apply andb_true_iff in Hd. destruct Hd as [Hd _].
    intros w Hw. cbn [app].
    repeat (destruct Hw as [<- | Hw];
            [apply digit_head_differs; [exact Hd | reflexivity] |]).
    destruct Hw. }
  rewrite !Hsup by (simpl; tauto). cbn [orb]. clear Hsup.
  pose proof (digits_of_word ds suffix _ Hds Hsuf eq_refl) as Hw.
  destruct (test false FIRST (ds ++ suffix)) eqn:E1.
  { apply anchored_words in E1. cbn [bind].
    destruct E1 as [E | [E | E]]; rewrite E in Hw; vm_compute in Hw; subst ds;
      try (destruct Hds as [Hn _]; contradiction); known_index. }
  destruct (test false SECOND (ds ++ suffix)) eqn:E2.
  { apply anchored_words in E2. cbn [bind].
    destruct E2 as [E | [E | E]]; rewrite E in Hw; vm_compute in Hw; subst ds;
      try (destruct Hds as [Hn _]; contradiction); known_index. }
  destruct (test false THIRD (ds ++ suffix)) eqn:E3.
  { apply anchored_words in E3. cbn [bind].
    destruct E3 as [E | [E | E]]; rewrite E in Hw; vm_compute in Hw; subst ds;
      try (destruct Hds as [Hn _]; contradiction); known_index. }
  rewrite (nth_matches ds suffix Hds Hsuf).
  pose proof (digits_exec ds suffix Hds (suffix_no_digit suffix Hsuf)) as Hx.
  destruct (exec false digits1 (ds ++ suffix)) as [m|]; [| discriminate].
  cbn [option_map] in Hx. injection Hx as ->.
  rewrite (parseInt_str_digits _ Hds). cbn [bind].
  destruct (at_index videos (digits_val 0 ds - 1)); reflexivity.
Qed.

Lemma play_video_ordinal_witness :
  executeJsonTool ExampleHost.Date_time ExampleHost.toLocaleDateString
    (js "play_video") (select "2nd") (Some abc)
  = Ret (match at_index abc (digits_val 0 (js "2") - 1) with
         | Some v => video_card v
         | None => video_not_found (Some (js "2nd"))
         end).
Proof.
  apply (play_video_ordinal ExampleHost.Date_time ExampleHost.toLocaleDateString
           (select "2nd") (js "2nd") (js "2") (js "nd") abc).
  - reflexivity.
  - reflexivity.
  - split; [discriminate | reflexivity].
  - right. right. left. reflexivity.
  - discriminate.
Defined.

Section NoException.

(** Where the ordinal pattern matches, the text begins with the digits
    that /\d+/ then finds. *)
Lemma nth_has_digits (sel : jsstring) :
  test false NTH sel = true -> exec false digits1 sel <> None.
Proof.
  unfold NTH. rewrite test_bol. intros H.
  destruct (digits_first 1 (Seq (Opt (Grp 2 (alts [lit "st"; lit "nd"; lit "rd"; lit "th"]))) Eol)
              (MState [] sel [])) as (x & rest & Hs & Hx).
  { intros E. rewrite E in H. discriminate. }
  cbn [after] in Hs. subst sel. unfold exec. rewrite search_unfold.
  unfold digits1. cbn [rmatch before after caps plus_cls]. rewrite Hx.
  destruct (plus_cls is_digit [x] rest []); discriminate.
Qed.

Lemma find_title_returns (sel : jsstring) (videos : list record) :
  Forall title_is_text videos ->
  exists v, find_title sel videos = Ret v.
Proof.
  induction videos as [|v videos IH]; intros H; [eexists; reflexivity |].
  inversion H as [|? ? Hv Hrest]; subst. cbn [find_title].
  unfold title_is_text in Hv.
  destruct (get v (js "title")) as [| | b | q | t | t]; try contradiction;
    try destruct t as [|c t]; unfold or_else, truthy, truthy_str;
      match goal with
      | |- context [includes ?a sel] =>
          destruct (includes a sel); [eexists; reflexivity | apply IH; exact Hrest]
      end.
Qed.

Lemma play_video_returns (args : Args) (videos : list record) :
  Forall title_is_text videos ->
  exists result, play_video args videos = Ret result.
Proof.
  intros Ht. unfold play_video.
  set (sel := trim (toLowerCase _)).
  assert (H : exists video,
             (if jseqb sel (js "most viewed") || jseqb sel (js "most viewed video")
              then Ret (hd_error (sort (fun a b => (views b - views a <=? 0)%Z) videos))
              else if jseqb sel (js "least viewed") || jseqb sel (js "least viewed video")
              then Ret (hd_error (sort (fun a b => (views a - views b <=? 0)%Z) videos))
              else if test false FIRST sel then Ret (at_index videos 0)
              else if test false SECOND sel then Ret (at_index videos 1)
              else if test false THIRD sel then Ret (at_index videos 2)
              else if test false NTH sel then
                match exec false digits1 sel with
                | Some m =>
                    match parseInt_str (whole m) with
                    | Some n => Ret (at_index videos (n - 1))
                    | None => Ret None
                    end
                | None => Throw (js "TypeError: Cannot read properties of null (reading '0')")
                end
              else find_title sel videos) = Ret video).
  { destruct (_ || _); [eexists; reflexivity |].
    destruct (_ || _); [eexists; reflexivity |].
    destruct (test false FIRST sel); [eexists; reflexivity |].
    destruct (test false SECOND sel); [eexists; reflexivity |].
    destruct (test false THIRD sel); [eexists; reflexivity |].
    destruct (test false NTH sel) eqn:En.
    - pose proof (nth_has_digits sel En) as Hd.
      destruct (exec false digits1 sel) as [m|]; [| contradiction].
      destruct (parseInt_str (whole m)); eexists; reflexivity.
    - apply find_title_returns. exact Ht. }
  destruct H as [video ->]. cbn [bind].
  destruct video; eexists; reflexivity.
Qed.

Lemma compute_stats_json_returns (args : Args) (r0 : record)
  (videos : list record) :
  field args <> None ->
  exists result, compute_stats_json args r0 videos = Ret result.
Proof.
  intros Hf. unfold compute_stats_json.
  destruct (field args) as [f|]; [| contradiction].
  destruct (resolveField_named videos f) as [f' ->].
  destruct (forallb isNaN _); cbn [duration_like bind];
    match goal with
    | |- context [not_NaN ?l] => destruct (not_NaN l); eexists; reflexivity
    end.
Qed.

Lemma plot_metric_vs_time_returns (Date_time : JsVal -> option Z)
  (label : JsVal -> jsstring) (args : Args) (r0 : record)
  (videos : list record) :
  metric_field args <> None ->
  exists result, plot_metric_vs_time Date_time label args r0 videos = Ret result.
Proof.
  intros Hf. unfold plot_metric_vs_time.
  destruct (metric_field args) as [f|]; [| contradiction].
  destruct (resolveField_named videos f) as [f' ->].
  rewrite (mapM_total _ _ videos (plot_point_spec label f' _)). cbn [bind].
  destruct (sort _ _); eexists; reflexivity.
Qed.

End NoException.



Section Spread.

Local Open Scope Q_scope.

Lemma square_nonneg (x : Q) : 0 <= x * x.
Proof.
  unfold Qle, Qmult. simpl. rewrite Z.mul_1_r. apply Z.square_nonneg.
Qed.

Lemma sum_sq_from (m : Q) (l : list Q) :
  forall a, 0 <= a ->
    0 <= fold_left (fun a b => a + (b - m) * (b - m)) l a.
Proof.
  induction l as [|x l IH]; intros a Ha; [exact Ha |].
  cbn [fold_left]. apply IH. pose proof (square_nonneg (x - m)). lra.
Qed.

Lemma Math_sqrt_nonneg (q : Q) :
  0 <= q -> exists r, Math_sqrt q = Some r /\ 0 <= r.
Proof.
  intros Hq. unfold Math_sqrt.
  assert (Hn : (0 <= Qnum q)%Z) by (unfold Qle in Hq; simpl in Hq; lia).
  destruct (Qnum q <? 0)%Z eqn:E; [apply Z.ltb_lt in E; lia |].
  eexists. split; [reflexivity |]. rewrite Qred_correct.
  unfold Qle. simpl. rewrite Z.mul_1_r. apply Z.sqrt_nonneg.
Qed.

Lemma toFixed4_nonneg (n : Q) : 0 <= n -> 0 <= toFixed4 n.
Proof.
  intros Hn. unfold toFixed4.
  destruct (Qle_bool _ _); [exact Hn |].
  assert (Hq : (0 <= Qnum n)%Z) by (unfold Qle in Hn; simpl in Hn; lia).
  destruct (Qnum n <? 0)%Z eqn:E; [apply Z.ltb_lt in E; lia |].
  assert (Hk : (0 <= Qfloor (Qabs n * inject_Z 10000 + (1 # 2)))%Z).
  { rewrite <- (Qfloor_Z 0). apply Qfloor_resp_le.
    rewrite Qabs_pos by exact Hn.
    assert (0 <= n * inject_Z 10000).
    { apply Qmult_le_0_compat; [exact Hn | discriminate]. }
    change (inject_Z 0) with 0. lra. }
  revert Hk. generalize (Qfloor (Qabs n * inject_Z 10000 + (1 # 2))).
  intros k Hk. rewrite Qred_correct. unfold Qle. cbn [Qnum Qden]. lia.
Qed.

Lemma fmt_nonneg (n : Q) : 0 <= n -> 0 <= fmt n.
Proof.
  intros Hn. unfold fmt. destruct (Number_isInteger n);
    [exact Hn | apply toFixed4_nonneg; exact Hn].
Qed.

Lemma not_NaN_length (vals : list number) :
  (length (not_NaN vals) <= length vals)%nat.
Proof.
  induction vals as [|[q|] vals IH]; simpl; lia.
Qed.

Lemma compute_stats_json_spread (args : Args) (r0 : record)
  (videos : list record) (s : Stats) :
  compute_stats_json args r0 videos = Ret (RStats s) ->
  (count s <= length videos)%nat
  /\ stats_field s = resolveField videos (field args)
  /\ exists sd, std s = Some sd /\ 0 <= sd.
Proof.
  unfold compute_stats_json.
  set (f := resolveField videos (field args)).
  set (vals0 := map (fun r => parseFloat (get r (prop_key f))) videos).
  assert (Hlen : forall vals,
             (if forallb isNaN vals0
              then dur <- duration_like f ;;
                   Ret (if dur : bool
                        then map (fun r => durationToSeconds (duration_source r f)) videos
                        else vals0)
              else Ret vals0) = Ret vals ->
             length vals = length videos).
  { intros vals. destruct (forallb isNaN vals0).
    - destruct (duration_like f) as [[|]|]; cbn [bind]; try discriminate;
        intros H; injection H as <-; unfold vals0; apply length_map.
    - intros H. injection H as <-. unfold vals0. apply length_map. }
  destruct (if forallb isNaN vals0 then _ else _) as [vals|e]; [| discriminate].
  specialize (Hlen vals eq_refl). cbn [bind].
  pose proof (not_NaN_length vals) as Hn.
  destruct (not_NaN vals) as [|v0 vs]; [discriminate |].
  cbv zeta.
  set (n := inject_Z (Z.of_nat (length (v0 :: vs)))).
  set (mean := Qred (sum (v0 :: vs) / n)).
  assert (Hpos : 0 < n).
  { unfold n. change 0 with (inject_Z 0). rewrite <- Zlt_Qlt. simpl. lia. }
  assert (Hvar : 0 <= Qred (sum_sq mean (v0 :: vs) / n)).
  { rewrite Qred_correct. apply Qle_shift_div_l; [exact Hpos |].
    rewrite Qmult_0_l. unfold sum_sq. apply sum_sq_from. apply Qle_refl. }
  destruct (Math_sqrt_nonneg _ Hvar) as (r & -> & Hr).
  intros H. injection H as <-.
  split; [simpl length in Hn; simpl; lia |]. split; [reflexivity |].
  exists (fmt r). split; [reflexivity | apply fmt_nonneg; exact Hr].
Qed.

End Spread.



(** X7: the branch a message takes, in full.  With records loaded it
    goes to the record tools, unless it holds a code-intent keyword and no
    tabular rows are loaded, which sends it to code execution; a
    Python-only keyword alone does not.  With tabular rows and no records
    it goes to code execution when it holds a Python-only keyword, else to
    search while a CSV chip is attached to it, else to the tabular tools;
    the code-intent keywords play no part.  With nothing loaded it goes to
    code execution when it holds a keyword of either set, else to
    search. *)
Theorem mode_decision_table :
  forall (CsvRows JsonContext : Type)
         (csvContext : option CsvContext) (jsonContext : option JsonContext)
         (sessionCsvRows : option CsvRows) (rows : CsvRows)
         (data : list record) (input : jsstring),
    let python := test true PYTHON_ONLY_KEYWORDS (trim input) in
    let code := test true Gemini.CODE_KEYWORDS (trim input) in
    mode csvContext jsonContext sessionCsvRows (Some data) input
    = (if code && negb (some sessionCsvRows) then CodeExecutionMode
       else JsonToolMode)
    /\ mode csvContext jsonContext (Some rows) None input
       = (if python then CodeExecutionMode
          else if some csvContext then SearchMode
          else TabularToolMode)
    /\ mode csvContext jsonContext (@None CsvRows) None input
       = (if python || code then CodeExecutionMode else SearchMode).
Proof.
  intros CsvRows JsonContext chip jchip loaded rows data input python code.
  unfold mode, routing.
  cbn [useJsonTools useTools useCodeExecution some].
  fold python. fold code.
  destruct python, code, loaded, chip; repeat split; reflexivity.
Qed.

(** X8: when no records are loaded, a message whose prompt is given
    the base64 payload of the attached CSV goes to code execution. *)
Theorem base64_goes_to_code_execution :
  forall (CsvRows JsonContext : Type)
         (csvContext : option CsvContext) (jsonContext : option JsonContext)
         (sessionCsvRows : option CsvRows) (input : jsstring),
    needsBase64 (routing csvContext jsonContext sessionCsvRows None input) = true ->
    mode csvContext jsonContext sessionCsvRows None input = CodeExecutionMode.
Proof.
  intros CsvRows JsonContext chip jchip loaded input.
  unfold mode, routing.
  cbn [needsBase64 useJsonTools useTools useCodeExecution some].
  destruct (test true PYTHON_ONLY_KEYWORDS (trim input)).
  - intros _. destruct loaded; reflexivity.
  - rewrite andb_false_r. discriminate.
Qed.

Lemma base64_goes_to_code_execution_witness :
  mode (CsvRows := list record) (JsonContext := unit)
       (parseCSV (js "a,b")) None (Some abc) None (js "fit a regression")
  = CodeExecutionMode.
Proof.
  apply (base64_goes_to_code_execution (list record) unit (parseCSV (js "a,b"))
           None (Some abc) (js "fit a regression")).
  vm_compute. reflexivity.
Defined.

Section Alphabet.

Local Open Scope N_scope.

Ltac Zify.zify_post_hook ::= Z.to_euclidean_division_equations.

Ltac bool_arith :=
  unfold base64_symbol, is_high_surrogate, is_low_surrogate, in_range;
  repeat rewrite ?andb_true_iff, ?andb_false_iff, ?orb_true_iff, ?orb_false_iff,
    ?negb_true_iff, ?negb_false_iff, ?N.ltb_lt, ?N.leb_le, ?N.eqb_eq,
    ?N.ltb_ge, ?N.leb_gt, ?N.eqb_neq;
  lia.

Lemma b64_char_symbol (i : N) : base64_symbol (b64_char i) = true.
Proof.
  unfold b64_char.
  destruct (N.ltb_spec i 26); [bool_arith |].
  destruct (N.ltb_spec i 52); [bool_arith |].
  destruct (N.ltb_spec i 62); [bool_arith |].
  destruct (N.eqb_spec i 62); reflexivity.
Qed.

(** Induction three bytes at a time, as [btoa] goes. *)
Lemma by_threes {A} (P : list A -> Prop) :
  P [] -> (forall x, P [x]) -> (forall x y, P [x; y]) ->
  (forall x y z r, P r -> P (x :: y :: z :: r)) ->
  forall l, P l.
Proof.
  intros H0 H1 H2 H3.
  assert (H : forall n l, (length l <= n)%nat -> P l).
  { induction n as [|n IH]; intros l Hl.
    - destruct l; [exact H0 | simpl in Hl; lia].
    - destruct l as [|x [|y [|z r]]]; auto.
      apply H3. apply IH. simpl in Hl. lia. }
  intros l. apply (H (length l)). apply Nat.le_refl.
Qed.

Lemma btoa_symbols (bytes : list N) : forallb base64_symbol (btoa bytes) = true.
Proof.
  induction bytes as [| x | x y | x y z r IH] using by_threes;
    cbn [btoa forallb]; rewrite ?b64_char_symbol, ?IH; reflexivity.
Qed.

Lemma btoa_length (bytes : list N) :
  length (btoa bytes) = (4 * ((length bytes + 2) / 3))%nat.
Proof.
  induction bytes as [| x | x y | x y z r IH] using by_threes;
    try reflexivity.
  cbn [btoa length]. rewrite IH.
  replace (S (S (S (length r))) + 2)%nat with (length r + 2 + 1 * 3)%nat by lia.
  rewrite Nat.div_add by discriminate. lia.
Qed.

Lemma utf8_length (cp : N) :
  (length (utf8 cp) <= 4)%nat /\ (cp < 65536 -> (length (utf8 cp) <= 3)%nat).
Proof.
  unfold utf8.
  destruct (N.ltb_spec cp 128); [simpl; lia |].
  destruct (N.ltb_spec cp 2048); [simpl; lia |].
  destruct (N.ltb_spec cp 65536); simpl; lia.
Qed.

Lemma encode_length_bounded (n : nat) :
  forall s,
    (length s <= n)%nat -> Forall code_unit s ->
    (length (TextEncoder_encode s) <= 3 * length s)%nat.
Proof.
  unfold TextEncoder_encode, code_unit.
  induction n as [|n IH]; intros s Hlen Hs.
  - destruct s; [simpl; lia | simpl in Hlen; lia].
  - destruct s as [|c r]; [simpl; lia |].
    inversion Hs as [|? ? Hc Hr]; subst. simpl in Hlen.
    cbn [scalar_values].
    destruct (is_high_surrogate c) eqn:Eh.
    + destruct r as [|d r']; [simpl; lia |].
      inversion Hr as [|? ? Hd Hr']; subst. simpl in Hlen.
      destruct (is_low_surrogate d) eqn:El.
      * cbn [flat_map]. rewrite length_app.
        pose proof (proj1 (utf8_length (65536 + (c - 55296) * 1024 + (d - 56320)))).
        specialize (IH r' ltac:(lia) Hr'). cbn [length]. lia.
      * cbn [flat_map]. rewrite length_app.
        specialize (IH (d :: r') ltac:(simpl; lia) Hr).
        change (length (utf8 65533)) with 3%nat. cbn [length] in *. lia.
    + destruct (is_low_surrogate c) eqn:El.
      * cbn [flat_map]. rewrite length_app.
        specialize (IH r ltac:(lia) Hr).
        change (length (utf8 65533)) with 3%nat. cbn [length]. lia.
      * cbn [flat_map]. rewrite length_app.
        pose proof (proj2 (utf8_length c) Hc).
        specialize (IH r ltac:(lia) Hr). cbn [length]. lia.
Qed.

Lemma encode_length (s : jsstring) :
  Forall code_unit s ->
  (length (TextEncoder_encode s) <= 3 * length s)%nat.
Proof. apply (encode_length_bounded (length s)). apply Nat.le_refl. Qed.

End Alphabet.

(** X9: whatever the string, [toBase64] gives four characters for
    every three bytes of its UTF-8 form, the last group padded, and every
    character is a letter, a digit, +, / or =: no quote, apostrophe,
    backslash or line feed can occur in the payload. *)
Theorem toBase64_alphabet :
  forall str : jsstring,
    forallb base64_symbol (toBase64 str) = true
    /\ length (toBase64 str)
       = (4 * ((length (TextEncoder_encode str) + 2) / 3))%nat
    /\ ~ In 34%N (toBase64 str) /\ ~ In 39%N (toBase64 str)
    /\ ~ In 92%N (toBase64 str) /\ ~ In 10%N (toBase64 str).
Proof.
  intros str. unfold toBase64.
  pose proof (btoa_symbols (TextEncoder_encode str)) as H.
  split; [exact H |]. split; [apply btoa_length |].
  rewrite forallb_forall in H.
  repeat split; intros Hin; apply H in Hin; discriminate.
Qed.

Section PayloadSize.

Local Open Scope N_scope.
Local Opaque CEILING.

Lemma parseCSV_base64_bound (text : jsstring) (c : CsvContext) :
  Forall code_unit text ->
  parseCSV text = Some c ->
  N.of_nat (length (base64 c)) <= 4 * ((3 * CEILING + 2) / 3).
Proof.
  intros Hu H. unfold parseCSV in H.
  destruct (filter _ (split 10 text)) as [|line0 lines]; [discriminate |].
  injection H as <-. cbn [base64]. unfold slice0, toBase64. cbv zeta.
  match goal with
  | |- context [TextEncoder_encode ?x] => set (raw := x)
  end.
  assert (Hraw : N.of_nat (length raw) <= CEILING).
  { unfold raw. destruct (N.ltb_spec CEILING (N.of_nat (length text))); [| assumption].
    rewrite length_firstn. lia. }
  assert (Hru : Forall code_unit raw).
  { unfold raw. destruct (CEILING <? N.of_nat (length text)); [| exact Hu].
    rewrite <- (firstn_skipn (N.to_nat CEILING) text) in Hu.
    apply Forall_app in Hu. exact (proj1 Hu). }
  pose proof (encode_length raw Hru) as Hb. clearbody raw.
  rewrite btoa_length.
  rewrite Nat2N.inj_mul, Nat2N.inj_div, Nat2N.inj_add.
  change (N.of_nat 4) with 4. change (N.of_nat 3) with 3. change (N.of_nat 2) with 2.
  apply N.mul_le_mono_l. apply N.Div0.div_le_mono.
  apply N.add_le_mono_r.
  apply N.le_trans with (N.of_nat (3 * length raw)); [lia |].
  rewrite Nat2N.inj_mul. change (N.of_nat 3) with 3.
  apply N.mul_le_mono_l. exact Hraw.
Qed.

End PayloadSize.

(** X10: the payload that [parseCSV] encodes is never longer than
    2,000,000 characters, however long the text: at most 500000 code
    units are encoded, each as at most three bytes. *)
Theorem parseCSV_payload_size :
  forall (text : jsstring) (c : CsvContext),
    Forall code_unit text ->
    parseCSV text = Some c ->
    (N.of_nat (length (base64 c)) <= 2000000)%N.
Proof.
  intros text c Hu H.
  exact (parseCSV_base64_bound text c Hu H).
Qed.

Lemma parseCSV_payload_size_witness :
  option_map (fun c => (N.of_nat (length (base64 c)) <=? 2000000)%N)
             (parseCSV (js "a,b"))
  = Some true.
Proof.
  destruct (parseCSV (js "a,b")) as [c|] eqn:E.
  - cbn [option_map]. f_equal. apply N.leb_le.
    apply (parseCSV_payload_size (js "a,b") c); [| exact E].
    repeat (apply Forall_cons; [reflexivity |]). apply Forall_nil.
  - vm_compute in E. discriminate.
Defined.

Section Lines.

Lemma filter_nil_iff {A} (p : A -> bool) (l : list A) :
  filter p l = [] <-> Forall (fun x => p x = false) l.
Proof.
  induction l as [|x l IH]; simpl.
  - split; [constructor | reflexivity].
  - destruct (p x) eqn:E.
    + split; [discriminate |]. intros H. inversion H; congruence.
    + rewrite IH. split; [intros H; constructor; assumption |].
      intros H. inversion H; assumption.
Qed.

Lemma split_length (sep : jschar) (s : jsstring) :
  length (split sep s) = S (count_occ N.eq_dec s sep).
Proof.
  induction s as [|c s IH]; [reflexivity |].
  cbn [split count_occ]. destruct (N.eqb_spec c sep) as [-> | Hne].
  - destruct (N.eq_dec sep sep); [| contradiction]. simpl. rewrite IH. reflexivity.
  - destruct (N.eq_dec c sep); [contradiction |].
    destruct (split sep s); simpl in *; lia.
Qed.

Local Opaque CEILING.

Lemma parseCSV_some (text : jsstring) (c : CsvContext) :
  parseCSV text = Some c ->
  exists line0 more,
    filter (fun l => truthy_str (trim l)) (split 10%N text) = line0 :: more
    /\ rowCount c = length more
    /\ length (headers c) = S (count_occ N.eq_dec line0 44%N)
    /\ preview c
       = join [10%N]
           (firstn 6 (filter (fun l => truthy_str (trim l)) (split 10%N text))).
Proof.
  intros H. unfold parseCSV in H.
  destruct (filter _ (split 10%N text)) as [|line0 more]; [discriminate |].
  injection H as <-. exists line0, more. cbn [rowCount headers preview].
  split; [reflexivity |]. split; [simpl; lia |].
  split; [| reflexivity]. rewrite length_map. apply split_length.
Qed.

Local Transparent CEILING.

End Lines.

(** X11: [parseCSV] gives null exactly for a text all of whose lines
    are blank; otherwise its row count is the number of non-blank lines
    after the first of them, it has one header more than that first line
    has commas, quoted or not, and its preview is the first six non-blank
    lines. *)
Theorem parseCSV_lines :
  forall text : jsstring,
    let lines := filter (fun l => truthy_str (trim l)) (split 10%N text) in
    (parseCSV text = None <-> Forall (fun l => trim l = []) (split 10%N text))
    /\ (forall c, parseCSV text = Some c ->
          exists line0 more,
            lines = line0 :: more
            /\ rowCount c = length more
            /\ length (headers c) = S (count_occ N.eq_dec line0 44%N)
            /\ preview c = join [10%N] (firstn 6 lines)).
Proof.
  intros text lines. split.
  - unfold parseCSV. fold lines.
    assert (H : lines = [] <-> Forall (fun l => trim l = []) (split 10%N text)).
    { unfold lines. rewrite filter_nil_iff. split; apply Forall_impl; intros l.
      - destruct (trim l); [reflexivity | discriminate].
      - intros ->. reflexivity. }
    destruct lines as [|line0 more].
    + split; [intros _; apply H; reflexivity | reflexivity].
    + split; [discriminate |]. intros Hall. apply H in Hall. discriminate.
  - intros c H. exact (parseCSV_some text c H).
Qed.

Section GenerativeRecords.

Local Open Scope nat_scope.

Context {ToolArgs ToolResult Chat : Type}.
Variable executeFn : jsstring -> ToolArgs -> ToolResult.
Variable chartType : ToolResult -> bool.
Variable generatedImage : ToolResult -> bool.
Variable sendMessage : Chat -> Sent ToolResult -> list (Part ToolArgs) * Chat.

Let loop := json_loop executeFn chartType generatedImage sendMessage.
Let state := JsonLoopState ToolArgs ToolResult Chat.

Let kept : state -> Prop := records_kept executeFn chartType generatedImage.

Lemma json_loop_keeps (k : nat) :
  forall st : state,
    JSON_ROUNDS - jround st <= k ->
    kept st -> kept (loop st).
Proof.
  induction k as [|k IH]; intros st Hk Hinv; unfold loop;
    rewrite json_loop_step; fold loop.
  - destruct (lt_dec (jround st) JSON_ROUNDS); [lia | exact Hinv].
  - destruct (lt_dec (jround st) JSON_ROUNDS) as [Hlt | Hge]; [| exact Hinv].
    destruct (find_call (jresponse st)) as [[name args]|]; [| exact Hinv].
    cbv zeta. apply IH; [cbn [jround]; lia |].
    destruct Hinv as (Hlen & Hres & Hch & Him).
    unfold kept, records_kept. cbn [jround jtoolCalls jcharts jgeneratedImages].
    rewrite length_app, map_app, !filter_app, <- Hch, <- Him.
    cbn [length map filter call_result].
    split; [lia |]. split; [| split].
    + apply Forall_app. split; [exact Hres |]. constructor; [reflexivity | constructor].
    + destruct (chartType (executeFn name args)); reflexivity.
    + destruct (generatedImage (executeFn name args)); reflexivity.
Qed.

Lemma json_loop_round (k : nat) :
  forall st : state,
    JSON_ROUNDS - jround st <= k ->
    jround st <= JSON_ROUNDS -> jround (loop st) <= JSON_ROUNDS.
Proof.
  intros st Hk Hle.
  destruct (json_loop_ends executeFn chartType generatedImage sendMessage k st Hk Hle)
    as (more & Hr & _). fold loop in Hr. lia.
Qed.

End GenerativeRecords.

(** X12: whatever the chat answers, [chatWithJsonToolsGemini] records
    at most 8 tool calls, one for each round; each record holds what the
    executor gave for its name and arguments, and the charts and the
    generated images returned are those among the recorded results, in the
    order of the calls. *)
Theorem chatWithJsonToolsGemini_records :
  forall (ToolArgs ToolResult Chat : Type)
         (executeFn : jsstring -> ToolArgs -> ToolResult)
         (chartType generatedImage : ToolResult -> bool)
         (sendMessage : Chat -> Sent ToolResult -> list (Part ToolArgs) * Chat)
         (chat : Chat) (msgWithContext : jsstring),
    let r := chatWithJsonToolsGemini executeFn chartType generatedImage
               sendMessage chat msgWithContext in
    (length (jresult_toolCalls r) <= JSON_ROUNDS)%nat
    /\ Forall (fun c => call_result c = executeFn (call_name c) (call_args c))
              (jresult_toolCalls r)
    /\ jresult_charts r
       = filter chartType (map call_result (jresult_toolCalls r))
    /\ jresult_generatedImages r
       = filter generatedImage (map call_result (jresult_toolCalls r)).
Proof.
  intros. unfold r, chatWithJsonToolsGemini.
  cbn [jresult_toolCalls jresult_charts jresult_generatedImages].
  set (st0 := json_start sendMessage chat msgWithContext).
  assert (H0 : records_kept executeFn chartType generatedImage st0)
    by (repeat split; constructor).
  assert (Hk : (JSON_ROUNDS - jround st0 <= JSON_ROUNDS)%nat) by apply Nat.le_sub_l.
  assert (Hle : (jround st0 <= JSON_ROUNDS)%nat) by apply Nat.le_0_l.
  pose proof (json_loop_keeps executeFn chartType generatedImage sendMessage
                JSON_ROUNDS st0 Hk H0) as (Hlen & Hres & Hch & Him).
  pose proof (json_loop_round executeFn chartType generatedImage sendMessage
                JSON_ROUNDS st0 Hk Hle) as Hr.
  cbv zeta in *.
  split; [rewrite Hlen; exact Hr |]. split; [exact Hres |].
  split; [exact Hch | exact Him].
Qed.

Import Server.


(** X14: [parseDuration] gives null for a missing or empty text and
    for no other; a text that holds no "PT" comes back as it is. *)
Theorem parseDuration_other_text :
  forall iso : jsstring,
    parseDuration None = None
    /\ parseDuration (Some []) = None
    /\ (iso <> [] -> parseDuration (Some iso) <> None)
    /\ (iso <> [] -> includes iso (js "PT") = false ->
        parseDuration (Some iso) = Some iso).
Proof.
  intros iso. split; [reflexivity |]. split; [reflexivity |].
  destruct iso as [|x rest]; [split; intros H; contradiction |].
  cbn [parseDuration]. change ISO_DURATION with PT_PATTERN.
  pose proof (pt_pattern_search (x :: rest) []) as H. unfold exec.
  destruct (search false PT_PATTERN [] (x :: rest)) as [mt|].
  - split; [discriminate |]. intros _ Hno. destruct H as [Hin _]. congruence.
  - split; [discriminate | reflexivity].
Qed.

(** X15: the number of videos the channel download asks for lies
    between 1 and 100 whatever the query says: it is the number given when
    that lies in the range, and 10 when the parameter is missing, is no
    number or is 0. *)
Theorem max_videos_bounds :
  forall maxVideos : option jsstring,
    (1 <= max_videos maxVideos <= 100)%Z
    /\ max_videos None = 10%Z
    /\ (forall s n, maxVideos = Some s -> parseInt_str s = Some n ->
        (1 <= n <= 100)%Z -> max_videos maxVideos = n)
    /\ (forall s, maxVideos = Some s -> parseInt_str s = None ->
        max_videos maxVideos = 10%Z)
    /\ (forall s, maxVideos = Some s -> parseInt_str s = Some 0%Z ->
        max_videos maxVideos = 10%Z).
Proof.
  intros maxVideos. split; [unfold max_videos; lia |].
  split; [reflexivity |].
  split; [| split].
  - intros s n -> Hn Hr. unfold max_videos. cbn [parseInt]. rewrite Hn.
    destruct (n =? 0)%Z eqn:E; [apply Z.eqb_eq in E |]; lia.
  - intros s -> Hn. unfold max_videos. cbn [parseInt]. rewrite Hn. reflexivity.
  - intros s -> Hn. unfold max_videos. cbn [parseInt]. rewrite Hn. reflexivity.
Qed.


Section ComponentState.

Context {Rows Headers Summary Message : Type}.
Variable parseCsvToRows : jsstring -> Rows * Headers.
Variable enrichWithEngagement : Rows -> Headers -> Rows * Headers.
Variable computeDatasetSummary : Rows -> Headers -> Summary.
Variable buildSlimCsv : Rows -> Headers -> jsstring.
Variable JSON_parse : jsstring -> option Json.

Let state := State Rows Headers Summary Message.
Let fine := coherent Rows Headers Summary Message.

Lemma take_json_coherent (file : File) (s : state) :
  fine s -> fine (take_json _ _ _ _ JSON_parse file s).
Proof.
  intros H. unfold take_json.
  destruct (JSON_parse (file_text file)) as [data|]; [| exact H].
  destruct (videos_of data) as [videos|]; [| exact H].
  destruct (fields_of videos) as [fields|]; [| exact H].
  split; [left; reflexivity |]. split; [intros E; contradiction | discriminate].
Qed.

Lemma take_csv_coherent (file : File) (s : state) :
  fine s ->
  fine (take_csv _ _ _ _ parseCsvToRows enrichWithEngagement
          computeDatasetSummary buildSlimCsv file s).
Proof.
  intros H. unfold take_csv.
  destruct (parseCSV (file_text file)) as [parsed|]; [| exact H].
  split; [right; reflexivity |]. split; [discriminate | intros E; contradiction].
Qed.

Lemma take_images_coherent (files : list File) (s : state) :
  fine s -> fine (take_images _ _ _ _ files s).
Proof. intros H. exact H. Qed.

Lemma handleDrop_coherent (files : list File) (s : state) :
  fine s ->
  fine (handleDrop _ _ _ _ parseCsvToRows enrichWithEngagement
          computeDatasetSummary buildSlimCsv JSON_parse files s).
Proof.
  intros H. unfold handleDrop. cbv zeta.
  destruct (filter is_image files);
    [| apply take_images_coherent];
    (destruct (filter is_csv files); [| apply take_csv_coherent]);
    (destruct (filter is_json files); [exact H | apply take_json_coherent; exact H]).
Qed.

Lemma filter_keeps_other (id a : jsstring) (l : list Session) :
  jseqb id a = false ->
  In a (map session_id l) ->
  In a (map session_id
          (filter (fun x => negb (jseqb (session_id x) id)) l)).
Proof.
  intros Hne Hin. apply in_map_iff in Hin. destruct Hin as (x & <- & Hx).
  apply in_map. apply filter_In. split; [exact Hx |].
  destruct (jseqb (session_id x) id) eqn:E; [| reflexivity].
  apply jseqb_eq in E. rewrite E, jseqb_refl in Hne. discriminate.
Qed.

End ComponentState.

(** X16: dropping or selecting files, starting a new chat, selecting
    a session and deleting one all keep the attachments coherent: at most
    one of the tabular rows and the records is loaded, and a chip is
    pending only for data that is loaded.  A drop that holds a CSV file
    with a non-blank line leaves the tabular rows of its first CSV file
    and no records, whatever else is dropped with it. *)
Theorem attachments_stay_coherent :
  forall (Rows Headers Summary Message : Type)
         (parseCsvToRows : jsstring -> Rows * Headers)
         (enrichWithEngagement : Rows -> Headers -> Rows * Headers)
         (computeDatasetSummary : Rows -> Headers -> Summary)
         (buildSlimCsv : Rows -> Headers -> jsstring)
         (JSON_parse : jsstring -> option Json)
         (files : list File) (sessionId : jsstring)
         (s : State Rows Headers Summary Message),
    let drop := handleDrop Rows Headers Summary Message parseCsvToRows
                  enrichWithEngagement computeDatasetSummary buildSlimCsv
                  JSON_parse in
    let select := handleFileSelect Rows Headers Summary Message parseCsvToRows
                    enrichWithEngagement computeDatasetSummary buildSlimCsv
                    JSON_parse in
    let fine := coherent Rows Headers Summary Message in
    fine s ->
    fine (drop files s)
    /\ fine (select files s)
    /\ fine (handleNewChat _ _ _ _ s)
    /\ fine (handleSelectSession _ _ _ _ sessionId s)
    /\ fine (handleDeleteSession _ _ _ _ sessionId s)
    /\ (forall file parsed,
          hd_error (filter is_csv files) = Some file ->
          parseCSV (file_text file) = Some parsed ->
          sessionCsvRows _ _ _ _ (drop files s) <> None
          /\ sessionJsonData _ _ _ _ (drop files s) = None
          /\ csvContext _ _ _ _ (drop files s) = Some (file_name file, parsed)).
Proof.
  intros Rows Headers Summary Message parseCsvToRows enrichWithEngagement
    computeDatasetSummary buildSlimCsv JSON_parse files sessionId s drop select
    fine H.
  split; [apply handleDrop_coherent; exact H |].
  split; [apply handleDrop_coherent; exact H |].
  split; [split; [left; reflexivity | split; intros E; contradiction] |].
  split.
  { unfold handleSelectSession. destruct (is_active _ _ _ _ s sessionId);
      [exact H |]. split; [left; reflexivity | split; intros E; contradiction]. }
  split; [exact H |].
  intros file parsed Hf Hp. unfold drop, handleDrop. cbv zeta.
  destruct (filter is_csv files) as [|f0 fs]; [discriminate |].
  injection Hf as ->.
  destruct (filter is_image files); unfold take_images, take_csv;
    rewrite Hp; cbn [sessionCsvRows sessionJsonData csvContext];
    (split; [discriminate | split; reflexivity]).
Qed.

Lemma attachments_stay_coherent_witness :
  coherent unit unit unit unit
    (handleDrop unit unit unit unit no_rows no_more no_summary no_slim no_json
       [two_lines] nothing_loaded).
Proof.
  apply (attachments_stay_coherent unit unit unit unit no_rows no_more
           no_summary no_slim no_json [two_lines] [] nothing_loaded).
  split; [left; reflexivity |]. split; intros E; contradiction.
Defined.

(** X17: deleting a session removes every session of that id and no
    other; the active session stays the unsaved chat or one of the list,
    and when another session than the active one is deleted, the active
    session and its messages stay. *)
Theorem handleDeleteSession_sessions :
  forall (Rows Headers Summary Message : Type) (sessionId : jsstring)
         (s : State Rows Headers Summary Message),
    let s' := handleDeleteSession _ _ _ _ sessionId s in
    ~ In sessionId (map session_id (sessions _ _ _ _ s'))
    /\ (forall x, In x (sessions _ _ _ _ s') <->
                  In x (sessions _ _ _ _ s) /\ session_id x <> sessionId)
    /\ (active_listed _ _ _ _ s -> active_listed _ _ _ _ s')
    /\ (activeSessionId _ _ _ _ s <> Some sessionId ->
        activeSessionId _ _ _ _ s' = activeSessionId _ _ _ _ s
        /\ messages _ _ _ _ s' = messages _ _ _ _ s).
Proof.
  intros Rows Headers Summary Message sessionId s s'.
  unfold s', handleDeleteSession. cbv zeta.
  cbn [sessions activeSessionId messages].
  split; [| split; [| split]].
  - intros Hin. apply in_map_iff in Hin. destruct Hin as (x & Hx & Hin).
    apply filter_In in Hin. destruct Hin as [_ Hne].
    rewrite Hx, jseqb_refl in Hne. discriminate.
  - intros x. rewrite filter_In. split; intros [Hin Hx]; split; try exact Hin.
    + intros E. rewrite E, jseqb_refl in Hx. discriminate.
    + destruct (jseqb (session_id x) sessionId) eqn:E; [| reflexivity].
      apply jseqb_eq in E. contradiction.
  - unfold active_listed, is_active. cbn [sessions activeSessionId].
    destruct (activeSessionId _ _ _ _ s) as [a|]; [| intros _; exact I].
    destruct (jseqb sessionId a) eqn:E.
    + intros _. destruct (filter _ _) as [|first rest];
        [left; reflexivity | right; left; reflexivity].
    + intros [Hnew | Hin]; [left; exact Hnew | right].
      apply filter_keeps_other; assumption.
  - intros Hne. unfold is_active.
    destruct (activeSessionId _ _ _ _ s) as [a|]; [| split; reflexivity].
    destruct (jseqb sessionId a) eqn:E; [| split; reflexivity].
    apply jseqb_eq in E. subst a. contradiction.
Qed.

(** X18: [formatDate] labels a session by the whole days elapsed, not
    by the calendar day: "Today" for 24 hours from its creation,
    "Yesterday" for the 24 hours after, and the date before and after
    that. *)
Theorem formatDate_windows :
  forall (Date_time : jsstring -> option Z) (now : Z)
         (toLocaleTimeString toLocaleDateString : jsstring -> jsstring)
         (dateStr : jsstring) (t : Z),
    let shown := formatDate Date_time now toLocaleTimeString toLocaleDateString
                   dateStr in
    let time := toLocaleTimeString dateStr in
    Date_time dateStr = Some t ->
    ((0 <= now - t < 86400000)%Z ->
     shown = js "Today" ++ MIDDLE_DOT ++ time)
    /\ ((86400000 <= now - t < 172800000)%Z ->
        shown = js "Yesterday" ++ MIDDLE_DOT ++ time)
    /\ ((now - t < 0 \/ 172800000 <= now - t)%Z ->
        shown = toLocaleDateString dateStr ++ MIDDLE_DOT ++ time).
Proof.
  intros Date_time now toLocaleTimeString toLocaleDateString dateStr t shown
    time Ht.
  unfold shown, formatDate. rewrite Ht. cbn [option_map]. fold time.
  split; [| split]; intros Hr.
  - replace ((now - t) / 86400000)%Z with 0%Z; [reflexivity |].
    symmetry. apply Z.div_small. lia.
  - replace ((now - t) / 86400000)%Z with 1%Z; [reflexivity |].
    apply Z.div_unique with (r := (now - t - 86400000)%Z); lia.
  - assert (Hd : ((now - t) / 86400000 < 0 \/ 2 <= (now - t) / 86400000)%Z).
    { destruct Hr as [Hr | Hr].
      - left. apply Z.div_lt_upper_bound; lia.
      - right. apply Z.div_le_lower_bound; lia. }
    destruct ((now - t) / 86400000)%Z as [|p|p]; [lia | | reflexivity].
    destruct p; try reflexivity. lia.
Qed.

Lemma formatDate_windows_witness :
  formatDate epoch one_hour_later as_written as_written (js "2024-01-01")
  = js "Today" ++ MIDDLE_DOT ++ js "2024-01-01".
Proof.
  apply (proj1 (formatDate_windows epoch one_hour_later as_written as_written
                  (js "2024-01-01") 0%Z eq_refl)).
  unfold one_hour_later. lia.
Defined.

(** X19: for a string of UTF-16 code units, decoding the text that
    [toBase64] gives, as base64 and then as UTF-8, yields the string with
    every surrogate that stands alone replaced by U+FFFD; a string in
    which every surrogate is half of a pair comes back as it was. *)
Theorem toBase64_round_trip :
  forall str : jsstring,
    Forall code_unit str ->
    decode_payload (toBase64 str) = Some (flat_map utf16 (scalar_values str))
    /\ (well_formed str = true -> decode_payload (toBase64 str) = Some str).
Proof.
  intros str Hu. split.
  - apply decode_payload_toBase64. exact Hu.
  - apply decode_payload_well_formed.
Qed.

Lemma toBase64_round_trip_witness :
  decode_payload (toBase64 [104%N; 105%N; 55357%N; 56832%N; 56832%N])
  = Some (flat_map utf16 (scalar_values [104%N; 105%N; 55357%N; 56832%N; 56832%N])).
Proof.
  apply (proj1 (toBase64_round_trip [104%N; 105%N; 55357%N; 56832%N; 56832%N]
                  ltac:(repeat (apply Forall_cons; [reflexivity |]);
                        apply Forall_nil))).
Defined.

Section Resolution.

Lemma find_In {A} (p : A -> bool) (l : list A) (x : A) :
  find p l = Some x -> In x l.
Proof. intros H. apply find_some in H. tauto. Qed.

Lemma resolveField_key (r0 : record) (rest : list record) (k : jsstring) :
  k <> [] -> In k (keys r0) ->
  resolveField (r0 :: rest) (Some k) = Some k.
Proof.
  intros Hne Hin. unfold resolveField.
  destruct k as [|c k]; [contradiction |]. cbn [falsy_name truthy_str negb].
  apply includes_key in Hin. rewrite Hin. reflexivity.
Qed.

End Resolution.

(** X20: what [resolveField] gives is the name it was given or a key of
    the first record, and resolving it again changes nothing. *)
Theorem resolveField_idempotent :
  forall (rows : list record) (name : option jsstring),
    resolveField rows (resolveField rows name) = resolveField rows name
    /\ (resolveField rows name = name
        \/ exists r0 rest k,
             rows = r0 :: rest /\ In k (keys r0)
             /\ resolveField rows name = Some k).
Proof.
  intros rows name.
  assert (H : resolveField rows name = name
              \/ exists r0 rest k,
                   rows = r0 :: rest /\ In k (keys r0) /\ k <> []
                   /\ resolveField rows name = Some k).
  { unfold resolveField. destruct rows as [|r0 rest]; [left; reflexivity |].
    destruct name as [n|]; [| left; reflexivity].
    destruct (falsy_name (Some n)); [left; reflexivity |].
    destruct (existsb (jseqb n) (keys r0)); [left; reflexivity |].
    destruct (find _ (keys r0)) as [k|] eqn:E; [| left; reflexivity].
    destruct k as [|c k]; [left; reflexivity |].
    right. exists r0, rest, (c :: k). apply find_In in E.
    repeat split; [exact E | discriminate]. }
  split.
  - destruct H as [H | (r0 & rest & k & -> & Hin & Hne & Hk)].
    + rewrite H. exact H.
    + rewrite Hk. apply resolveField_key; assumption.
  - destruct H as [H | (r0 & rest & k & Hr & Hin & _ & Hk)]; [left; exact H |].
    right. exists r0, rest, k. repeat split; assumption.
Qed.

Section Chunks.

Lemma split_not_nil (sep : jschar) (s : jsstring) : split sep s <> [].
Proof.
  induction s as [|c s IH]; [discriminate |]. cbn [split].
  destruct (N.eqb c sep); [discriminate |].
  destruct (split sep s); [contradiction | discriminate].
Qed.

Lemma removelast_cons {A} (x : A) (l : list A) :
  l <> [] -> removelast (x :: l) = x :: removelast l.
Proof. destruct l; [contradiction | reflexivity]. Qed.

Lemma last_cons {A} (x : A) (l : list A) (d : A) :
  l <> [] -> last (x :: l) d = last l d.
Proof. destruct l; [contradiction | reflexivity]. Qed.

(** Splitting a text in two pieces: the lines of the first piece but the
    last, then the lines of that last one with the second piece. *)
Lemma split_app (sep : jschar) (a b : jsstring) :
  split sep (a ++ b)
  = removelast (split sep a) ++ split sep (last (split sep a) [] ++ b).
Proof.
  induction a as [|c a IH]; [reflexivity |].
  cbn [app split]. destruct (N.eqb c sep) eqn:E.
  - rewrite removelast_cons, last_cons by apply split_not_nil.
    rewrite IH. reflexivity.
  - rewrite IH. pose proof (split_not_nil sep a) as Hne.
    destruct (split sep a) as [|h t]; [contradiction |].
    destruct t as [|h' t].
    + cbn [removelast last app split]. rewrite E. reflexivity.
    + rewrite !removelast_cons, !last_cons by discriminate.
      reflexivity.
Qed.

Lemma split_last_line (sep : jschar) (s : jsstring) :
  split sep (last (split sep s) []) = [last (split sep s) []].
Proof.
  induction s as [|c s IH]; [reflexivity |].
  cbn [split]. destruct (N.eqb c sep) eqn:E.
  - rewrite last_cons by apply split_not_nil. exact IH.
  - pose proof (split_not_nil sep s) as Hne.
    destruct (split sep s) as [|h t]; [contradiction |].
    destruct t as [|h' t].
    + cbn [last] in *. cbn [split]. rewrite E, IH. reflexivity.
    + rewrite !last_cons in * by discriminate. exact IH.
Qed.

Variable JSON_parse : jsstring -> Json + jsstring.
Variable String_of : Json -> jsstring.

Let lines_of := YouTubeDownload.handle_lines JSON_parse String_of.
Let loop := YouTubeDownload.read_loop JSON_parse String_of.

Lemma handle_lines_app (l1 l2 : list jsstring) :
  forall st,
    lines_of st (l1 ++ l2) = (st' <- lines_of st l1 ;; lines_of st' l2).
Proof.
  induction l1 as [|l l1 IH]; intros st; [reflexivity |].
  unfold lines_of in *. cbn [app YouTubeDownload.handle_lines].
  destruct (YouTubeDownload.handle_line JSON_parse String_of st l) as [st'|e]; [| reflexivity].
  cbn [bind]. apply IH.
Qed.

(** The loop, in terms of the whole text: from a buffer that holds the
    start of a line, it handles the complete lines of the buffer and the
    chunks taken together. *)
Lemma read_loop_lines (chunks : list jsstring) :
  forall buffer st,
    split 10%N buffer = [buffer] ->
    loop buffer st chunks
    = lines_of st (removelast (split 10%N (buffer ++ concat chunks))).
Proof.
  induction chunks as [|value rest IH]; intros buffer st Hb.
  - cbn [concat]. rewrite app_nil_r, Hb. reflexivity.
  - unfold loop in *. cbn [YouTubeDownload.read_loop concat]. rewrite app_assoc.
    rewrite (split_app 10%N (buffer ++ value) (concat rest)).
    rewrite removelast_app by apply split_not_nil.
    fold lines_of. rewrite handle_lines_app.
    destruct (lines_of st (removelast (split 10%N (buffer ++ value))))
      as [st'|e]; [| reflexivity].
    cbn [bind]. apply IH. apply split_last_line.
Qed.

End Chunks.

(** X21: the reading loop of the channel download handles the
    complete lines of the stream, those that end in a line feed, in their
    order, and leaves out what follows the last line feed; so the outcome
    of a download does not depend on where the stream is cut into
    chunks. *)
Theorem read_any_chunking :
  forall (JSON_parse : jsstring -> Json + jsstring) (String_of : Json -> jsstring)
         (chunks others : list jsstring) (st : YouTubeDownload.Progress),
    YouTubeDownload.read_loop JSON_parse String_of [] st chunks
    = YouTubeDownload.handle_lines JSON_parse String_of st
        (removelast (split 10%N (concat chunks)))
    /\ (concat chunks = concat others ->
        YouTubeDownload.read JSON_parse String_of chunks st = YouTubeDownload.read JSON_parse String_of others st).
Proof.
  intros JSON_parse String_of chunks others st.
  pose proof (read_loop_lines JSON_parse String_of) as H.
  split.
  - apply (H chunks [] st). reflexivity.
  - intros E. unfold YouTubeDownload.read.
    rewrite (H chunks [] st eq_refl), (H others [] st eq_refl).
    cbn [app]. rewrite E. reflexivity.
Qed.

Section Ceiling.

Local Open Scope Z_scope.

Lemma in_range_listed (n : Z) :
  1 <= n <= 100 -> In n (map Z.of_nat (seq 1 100)).
Proof.
  intros H. apply in_map_iff. exists (Z.to_nat n). split; [lia |].
  apply in_seq. lia.
Qed.

Lemma small_numbers_read_back :
  forallb (fun n => match Server.max_videos (Some (Number_toString (inject_Z n))) with
                    | m => Z.eqb m n
                    end)
          (map Z.of_nat (seq 1 100)) = true.
Proof. vm_compute. reflexivity. Qed.

End Ceiling.

(** X22: the number of videos the form asks for lies between 1 and
    100, and the server, which bounds the number again on its side, takes
    it as it was sent. *)
Theorem requested_videos_agree :
  forall maxVideos : JsVal,
    (1 <= YouTubeDownload.requested_videos maxVideos <= 100)%Z
    /\ Server.max_videos
         (Some (Number_toString (inject_Z (YouTubeDownload.requested_videos maxVideos))))
       = YouTubeDownload.requested_videos maxVideos.
Proof.
  intros maxVideos.
  assert (H : (1 <= YouTubeDownload.requested_videos maxVideos <= 100)%Z)
    by (unfold YouTubeDownload.requested_videos; lia).
  split; [exact H |].
  pose proof small_numbers_read_back as Hall.
  rewrite forallb_forall in Hall.
  specialize (Hall _ (in_range_listed _ H)). apply Z.eqb_eq in Hall. exact Hall.
Qed.

Section RecordsLoop.

Local Open Scope nat_scope.

Context {ToolArgs ToolResult Provider Tools : Type}.
Variable executeFn : option jsstring -> ToolArgs -> ToolResult.
Variable chartType : ToolResult -> bool.
Variable generatedImage : ToolResult -> bool.
Variable JSON_parse : jsstring -> option ToolArgs.
Variable JSON_stringify : ToolResult -> jsstring.
Variable create : Provider -> Request Tools -> option Reply * Provider.
Variable messages : list Message.
Variable tools : Tools.

Let loop :=
  GeminiMore.records_loop executeFn chartType generatedImage JSON_parse
    JSON_stringify create messages tools.
Let state := GeminiMore.RecordsState ToolArgs ToolResult Provider.

(** One turn of the loop. *)
Lemma records_loop_step (st : state) :
  loop st
  = if lt_dec (GeminiMore.records_round st) JSON_ROUNDS then
      match requested (GeminiMore.records_response st) with
      | [] => Ret st
      | tc :: tcs =>
          match run_calls executeFn JSON_parse JSON_stringify (tc :: tcs) with
          | Throw e => Throw e
          | Ret (records, tool_messages) =>
              let next :=
                create (GeminiMore.records_provider st)
                  (MkRequest
                     (messages
                      ++ [MsgAssistant
                            (content_or_null (GeminiMore.records_response st))
                            (tc :: tcs)]
                      ++ tool_messages)
                     (Some tools)) in
              loop {| GeminiMore.records_round := S (GeminiMore.records_round st);
                      GeminiMore.records_response := fst next;
                      GeminiMore.records_provider := snd next;
                      GeminiMore.records_charts :=
                        GeminiMore.records_charts st
                        ++ filter chartType (map result records);
                      GeminiMore.records_toolCalls :=
                        GeminiMore.records_toolCalls st ++ records;
                      GeminiMore.records_generatedImages :=
                        GeminiMore.records_generatedImages st
                        ++ filter generatedImage (map result records) |}
          end
      end
    else Ret st.
Proof.
  unfold loop. rewrite GeminiMore.records_loop_unfold_eq.
  unfold GeminiMore.records_loop_unfold.
  destruct (lt_dec (GeminiMore.records_round st) JSON_ROUNDS); [| reflexivity].
  unfold GeminiMore.records_loop_unfold_clause_1,
    GeminiMore.records_loop_unfold_clause_1_clause_2.
  destruct (requested (GeminiMore.records_response st)) as [|tc tcs];
    [reflexivity |].
  unfold GeminiMore.records_loop_unfold_clause_1_clause_2_clause_2.
  destruct (run_calls executeFn JSON_parse JSON_stringify (tc :: tcs))
    as [[records tool_messages]|e]; reflexivity.
Qed.

(** The loop ends, within its ceiling, when the arguments the provider
    sends are JSON; what it gathers goes after what was gathered, the
    charts and the images being those of the records. *)
Lemma records_loop_ends (k : nat) :
  forall st : state,
    JSON_ROUNDS - GeminiMore.records_round st <= k ->
    GeminiMore.records_round st <= JSON_ROUNDS ->
    sends_json JSON_parse create ->
    parses JSON_parse (requested (GeminiMore.records_response st)) ->
    exists st' more,
      loop st = Ret st'
      /\ GeminiMore.records_round st <= GeminiMore.records_round st' <= JSON_ROUNDS
      /\ GeminiMore.records_toolCalls st' = GeminiMore.records_toolCalls st ++ more
      /\ GeminiMore.records_charts st'
         = GeminiMore.records_charts st ++ filter chartType (map result more)
      /\ GeminiMore.records_generatedImages st'
         = GeminiMore.records_generatedImages st
           ++ filter generatedImage (map result more)
      /\ (always_requests create ->
          requested (GeminiMore.records_response st) <> [] ->
          GeminiMore.records_round st' = JSON_ROUNDS
          /\ JSON_ROUNDS - GeminiMore.records_round st <= length more).
Proof.
  induction k as [|k IH]; intros st Hk Hle Hjson Hparses;
    rewrite records_loop_step.
  - destruct (lt_dec (GeminiMore.records_round st) JSON_ROUNDS); [lia |].
    exists st, []. rewrite !app_nil_r. repeat split; try lia; reflexivity.
  - destruct (lt_dec (GeminiMore.records_round st) JSON_ROUNDS) as [Hlt | Hge].
    2: { exists st, []. rewrite !app_nil_r. repeat split; try lia; reflexivity. }
    destruct (requested (GeminiMore.records_response st)) as [|tc tcs] eqn:Ereq.
    { exists st, []. rewrite !app_nil_r.
      repeat split; try lia; try reflexivity; contradiction. }
    destruct (run_calls_parses executeFn JSON_parse JSON_stringify
                (tc :: tcs) Hparses)
      as (records & tool_messages & Hrun & Hlen).
    rewrite Hrun. cbv zeta.
    match goal with
    | |- context [loop ?s] =>
        destruct (IH s) as (st' & more & Hloop & Hr & Ht & Hc & Hi & Hall)
    end;
      cbn [GeminiMore.records_round GeminiMore.records_response];
      try lia; try exact Hjson; [apply Hjson |].
    cbn [GeminiMore.records_round GeminiMore.records_toolCalls
         GeminiMore.records_charts GeminiMore.records_generatedImages
         GeminiMore.records_response] in *.
    exists st', (records ++ more). split; [exact Hloop |].
    split; [lia |].
    split; [rewrite Ht, app_assoc; reflexivity |].
    split; [rewrite Hc, map_app, filter_app, app_assoc; reflexivity |].
    split; [rewrite Hi, map_app, filter_app, app_assoc; reflexivity |].
    intros Halways _. destruct (Hall Halways (Halways _ _)) as [Hfin Hmore].
    split; [exact Hfin |].
    rewrite length_app, Hlen. simpl length. lia.
Qed.

End RecordsLoop.

Section RowsLoop.

Local Open Scope nat_scope.

Context {ToolArgs ToolResult Chat : Type}.
Variable executeFn : jsstring -> ToolArgs -> ToolResult.
Variable chartType : ToolResult -> bool.
Variable sendMessage : Chat -> Sent ToolResult -> list (Part ToolArgs) * Chat.

Let loop := GeminiMore.rows_loop executeFn chartType sendMessage.
Let state := GeminiMore.RowsState ToolArgs ToolResult Chat.

(** One turn of the loop. *)
Lemma rows_loop_step (st : state) :
  loop st
  = if lt_dec (GeminiMore.rows_round st) CSV_ROUNDS then
      match find_call (GeminiMore.rows_response st) with
      | None => st
      | Some (name, args) =>
          let toolResult := executeFn name args in
          let next := sendMessage (GeminiMore.rows_chat st)
                        (SendFunctionResponse name toolResult) in
          loop {| GeminiMore.rows_round := S (GeminiMore.rows_round st);
                  GeminiMore.rows_response := fst next;
                  GeminiMore.rows_chat := snd next;
                  GeminiMore.rows_charts :=
                    GeminiMore.rows_charts st
                    ++ (if chartType toolResult then [toolResult] else []);
                  GeminiMore.rows_toolCalls :=
                    GeminiMore.rows_toolCalls st
                    ++ [MkCallRecord name args toolResult] |}
      end
    else st.
Proof.
  unfold loop. rewrite GeminiMore.rows_loop_unfold_eq.
  unfold GeminiMore.rows_loop_unfold.
  destruct (lt_dec (GeminiMore.rows_round st) CSV_ROUNDS); [| reflexivity].
  unfold GeminiMore.rows_loop_unfold_clause_1.
  destruct (find_call (GeminiMore.rows_response st)) as [[name args]|];
    reflexivity.
Qed.

(** What the loop keeps true of its state, and where it ends. *)
Lemma rows_loop_ends (k : nat) :
  forall st : state,
    CSV_ROUNDS - GeminiMore.rows_round st <= k ->
    GeminiMore.rows_round st <= CSV_ROUNDS ->
    length (GeminiMore.rows_toolCalls st) = GeminiMore.rows_round st ->
    GeminiMore.rows_charts st
    = filter chartType (map call_result (GeminiMore.rows_toolCalls st)) ->
    Forall (fun c => call_result c = executeFn (call_name c) (call_args c))
           (GeminiMore.rows_toolCalls st) ->
    GeminiMore.rows_round (loop st) <= CSV_ROUNDS
    /\ length (GeminiMore.rows_toolCalls (loop st))
       = GeminiMore.rows_round (loop st)
    /\ GeminiMore.rows_charts (loop st)
       = filter chartType (map call_result (GeminiMore.rows_toolCalls (loop st)))
    /\ Forall (fun c => call_result c = executeFn (call_name c) (call_args c))
              (GeminiMore.rows_toolCalls (loop st))
    /\ (always_calls sendMessage ->
        find_call (GeminiMore.rows_response st) <> None ->
        GeminiMore.rows_round (loop st) = CSV_ROUNDS).
Proof.
  induction k as [|k IH]; intros st Hk Hle Hlen Hch Hres;
    rewrite rows_loop_step.
  - destruct (lt_dec (GeminiMore.rows_round st) CSV_ROUNDS); [lia |].
    repeat split; try assumption. intros _ _. lia.
  - destruct (lt_dec (GeminiMore.rows_round st) CSV_ROUNDS) as [Hlt | Hge].
    2: { repeat split; try assumption. intros _ _. lia. }
    destruct (find_call (GeminiMore.rows_response st)) as [[name args]|] eqn:E.
    2: { repeat split; try assumption. intros _ H. contradiction. }
    cbv zeta.
    match goal with
    | |- context [loop ?s] =>
        destruct (IH s) as (Hr & Hl & Hc & Hf & Hall)
    end;
      cbn [GeminiMore.rows_round GeminiMore.rows_toolCalls
           GeminiMore.rows_charts]; try lia.
    + rewrite length_app, Hlen. simpl. lia.
    + rewrite map_app, filter_app, <- Hch. cbn [map filter call_result].
      destruct (chartType (executeFn name args)); reflexivity.
    + apply Forall_app. split; [exact Hres |].
      constructor; [reflexivity | constructor].
    + repeat split; try assumption.
      intros Halways _. apply Hall; [exact Halways | apply Halways].
Qed.

End RowsLoop.



(** X24: whatever the chat answers, [chatWithCsvToolsGemini] records
    at most 5 tool calls, one for each round, each with what the executor
    gave for it; the charts it returns are those among the recorded
    results, in the order of the calls; and a chat that asks for a tool
    in every answer gets exactly 5 calls served. *)
Theorem chatWithCsvToolsGemini_rounds :
  forall (ToolArgs ToolResult Chat : Type)
         (executeFn : jsstring -> ToolArgs -> ToolResult)
         (chartType : ToolResult -> bool)
         (sendMessage : Chat -> Sent ToolResult -> list (Part ToolArgs) * Chat)
         (chat : Chat) (msgWithContext : jsstring),
    let r := GeminiMore.chatWithCsvToolsGemini executeFn chartType sendMessage
               chat msgWithContext in
    (length (GeminiMore.rows_result_toolCalls r) <= CSV_ROUNDS)%nat
    /\ GeminiMore.rows_result_charts r
       = filter chartType (map call_result (GeminiMore.rows_result_toolCalls r))
    /\ Forall (fun c => call_result c = executeFn (call_name c) (call_args c))
              (GeminiMore.rows_result_toolCalls r)
    /\ (always_calls sendMessage ->
        length (GeminiMore.rows_result_toolCalls r) = CSV_ROUNDS).
Proof.
  intros ToolArgs ToolResult Chat executeFn chartType sendMessage chat
    msgWithContext r.
  unfold r, GeminiMore.chatWithCsvToolsGemini.
  cbn [GeminiMore.rows_result_toolCalls GeminiMore.rows_result_charts].
  set (st0 := GeminiMore.rows_start sendMessage chat msgWithContext).
  destruct (rows_loop_ends executeFn chartType sendMessage CSV_ROUNDS st0
              (Nat.le_sub_l _ _) (Nat.le_0_l _) eq_refl eq_refl
              (Forall_nil _))
    as (Hr & Hl & Hc & Hf & Hall).
  cbv zeta. rewrite Hl.
  split; [exact Hr |]. split; [exact Hc |]. split; [exact Hf |].
  intros Halways. apply Hall; [exact Halways | apply Halways].
Qed.

Section StaleSummary.

Context {Rows Message : Type}.
Variable parseCsvToRows : jsstring -> Rows * list jsstring.
Variable enrichWithEngagement :
  Rows -> list jsstring -> Rows * list jsstring.
Variable computeDatasetSummary : Rows -> list jsstring -> jsstring.
Variable buildSlimCsv : Rows -> list jsstring -> jsstring.
Variable JSON_parse : jsstring -> option Json.

Let state := State Rows (list jsstring) jsstring Message.
Let prefix := ChatPrompt.csvPrefix Rows Message.

(** The prefix of a component that holds a summary but neither chip nor
    headers. *)
Lemma csvPrefix_without_data (s : state) (summary input : jsstring) :
  csvContext _ _ _ _ s = None ->
  sessionCsvHeaders _ _ _ _ s = None ->
  csvDataSummary _ _ _ _ s = Some summary ->
  summary <> [] ->
  prefix s input
  = js "[CSV columns: undefined]" ++ ChatPrompt.LF ++ ChatPrompt.LF
    ++ summary ++ ChatPrompt.LF ++ ChatPrompt.LF ++ js "---"
    ++ ChatPrompt.LF ++ ChatPrompt.LF.
Proof.
  intros Hc Hh Hs Hne.
  unfold prefix, ChatPrompt.csvPrefix, ChatPrompt.session_columns,
    ChatPrompt.sessionSummary.
  cbv zeta. rewrite Hc, Hh, Hs.
  destruct summary as [|c summary]; [contradiction |].
  reflexivity.
Qed.

Lemma take_json_taken (file : File) (s : state) :
  jsonContext _ _ _ _ s = None ->
  jsonContext _ _ _ _ (take_json _ _ _ _ JSON_parse file s) <> None ->
  let s' := take_json _ _ _ _ JSON_parse file s in
  csvContext _ _ _ _ s' = None
  /\ sessionCsvHeaders _ _ _ _ s' = None
  /\ csvDataSummary _ _ _ _ s' = csvDataSummary _ _ _ _ s.
Proof.
  intros Hn. unfold take_json.
  destruct (JSON_parse (file_text file)) as [data|]; [| intros H; contradiction].
  destruct (videos_of data) as [videos|]; [| intros H; contradiction].
  destruct (fields_of videos) as [fields|]; [| intros H; contradiction].
  intros _. repeat split.
Qed.

End StaleSummary.

(** X25: the dataset summary outlives its data.  When the component
    holds the summary of a CSV file, the CSV prefix of the next prompt
    after New Chat, after selecting another session, and after a drop that
    takes a JSON file and no CSV file, is still that summary, under a line
    of columns that reads undefined. *)
Theorem csvPrefix_keeps_old_summary :
  forall (Rows Message : Type)
         (parseCsvToRows : jsstring -> Rows * list jsstring)
         (enrichWithEngagement : Rows -> list jsstring -> Rows * list jsstring)
         (computeDatasetSummary : Rows -> list jsstring -> jsstring)
         (buildSlimCsv : Rows -> list jsstring -> jsstring)
         (JSON_parse : jsstring -> option Json)
         (s : State Rows (list jsstring) jsstring Message)
         (summary sessionId input : jsstring) (files : list File),
    csvDataSummary _ _ _ _ s = Some summary ->
    summary <> [] ->
    let old :=
      js "[CSV columns: undefined]" ++ ChatPrompt.LF ++ ChatPrompt.LF
      ++ summary ++ ChatPrompt.LF ++ ChatPrompt.LF ++ js "---"
      ++ ChatPrompt.LF ++ ChatPrompt.LF in
    let dropped :=
      handleDrop _ _ _ _ parseCsvToRows enrichWithEngagement
        computeDatasetSummary buildSlimCsv JSON_parse files s in
    ChatPrompt.csvPrefix _ _ (handleNewChat _ _ _ _ s) input = old
    /\ (activeSessionId _ _ _ _ s <> Some sessionId ->
        ChatPrompt.csvPrefix _ _ (handleSelectSession _ _ _ _ sessionId s) input
        = old)
    /\ (filter is_csv files = [] ->
        jsonContext _ _ _ _ s = None ->
        jsonContext _ _ _ _ dropped <> None ->
        ChatPrompt.csvPrefix _ _ dropped input = old).
Proof.
  intros Rows Message parse enrich summarise slim JSON_parse s summary
         sessionId input files Hs Hne old dropped.
  split; [| split].
  - apply csvPrefix_without_data; try reflexivity; assumption.
  - intros Hother. unfold handleSelectSession, is_active.
    destruct (activeSessionId _ _ _ _ s) as [a|] eqn:Ea.
    + destruct (jseqb sessionId a) eqn:E.
      * apply jseqb_eq in E. subst a. contradiction.
      * apply csvPrefix_without_data; try reflexivity; assumption.
    + apply csvPrefix_without_data; try reflexivity; assumption.
  - intros Hcsv Hnone Htaken. unfold dropped, handleDrop in *.
    cbv zeta in *. rewrite Hcsv in *.
    assert (Himg : forall (imgs : list File) (t : State _ _ _ _),
               ChatPrompt.csvPrefix Rows Message (take_images _ _ _ _ imgs t) input
               = ChatPrompt.csvPrefix Rows Message t input) by reflexivity.
    assert (Hjson : forall t : State Rows (list jsstring) jsstring Message,
               jsonContext _ _ _ _ t <> None ->
               t = match filter is_json files with
                   | file :: _ => take_json _ _ _ _ JSON_parse file s
                   | [] => s
                   end ->
               ChatPrompt.csvPrefix Rows Message t input = old).
    { intros t Ht ->.
      destruct (filter is_json files) as [|file rest]; [contradiction |].
      destruct (take_json_taken JSON_parse file s Hnone Ht) as (Hc & Hh & Hsum).
      apply csvPrefix_without_data; try assumption.
      rewrite Hsum. exact Hs. }
    destruct (filter is_image files) as [|img imgs].
    + apply Hjson; [exact Htaken | reflexivity].
    + rewrite Himg. apply Hjson; [exact Htaken | reflexivity].
Qed.

Lemma csvPrefix_keeps_old_summary_witness :
  ChatPrompt.csvPrefix unit unit (handleNewChat _ _ _ _ summary_kept)
    (js "hello")
  = js "[CSV columns: undefined]" ++ ChatPrompt.LF ++ ChatPrompt.LF
    ++ one_row_summary ++ ChatPrompt.LF ++ ChatPrompt.LF ++ js "---"
    ++ ChatPrompt.LF ++ ChatPrompt.LF.
Proof.
  apply (proj1 (csvPrefix_keeps_old_summary unit unit
                  (fun _ => (tt, [])) (fun _ _ => (tt, [])) (fun _ _ => [])
                  (fun _ _ => []) (fun _ => None)
                  summary_kept one_row_summary (js "s2") (js "hello") []
                  eq_refl ltac:(discriminate))).
Defined.
